(** * polyglot-pdf: segment overlay, selection, translation pass and storage

    A shallow embedding of the parts of the application that carry logic:
    - [services/pdfService]  : [extractTextSegments];
    - the canvas page component : [drawAutoFitText], [handleMouseUp];
    - [services/freeTranslateService], [services/geminiService] :
      the two translation backends, as far as their result handling goes;
    - the [startTranslation] pass of the application component;
    - [services/db] : the IndexedDB object stores and [deleteProject].

    JavaScript numbers are modelled by the real numbers: [Math.sqrt] is
    [sqrt], [Math.pow (x, 2)] is [x ^ 2], comparisons are the order of [R].
    The model therefore speaks about finite values and exact arithmetic
    (no rounding, no NaN, no infinities).  Strings holding page text are
    sequences of UTF-16 code units; identifiers, keys and messages are
    plain strings. *)

From Stdlib Require Import Reals Lra Lia List ZArith String Ascii Sorted.
From stdpp Require Import gmap strings pretty list.

(** ** Numbers *)

#[global] Instance Rlt_decision (x y : R) : Decision (x < y)%R := Rlt_dec x y.
#[global] Instance Rgt_decision (x y : R) : Decision (x > y)%R := Rgt_dec x y.

(** ** JavaScript strings *)

Module JsString.

(** A string is a sequence of UTF-16 code units. *)
Abbreviation jsstring := (list N) (only parsing).

(** ASCII literals. *)
Definition js (s : string) : jsstring :=
  List.map N_of_ascii (list_ascii_of_string s).

(** [WhiteSpace] and [LineTerminator] of ECMAScript, the code points
    [String.prototype.trim] strips. *)
Definition isWhiteSpace (c : N) : bool :=
  ((9 <=? c) && (c <=? 13) || (c =? 32) || (c =? 160) || (c =? 5760)
   || (8192 <=? c) && (c <=? 8202) || (c =? 8232) || (c =? 8233)
   || (c =? 8239) || (c =? 8287) || (c =? 12288) || (c =? 65279))%N.

Fixpoint trimStart (s : jsstring) : jsstring :=
  match s with
  | c :: s' => if isWhiteSpace c then trimStart s' else s
  | [] => []
  end.

Definition trimEnd (s : jsstring) : jsstring := rev (trimStart (rev s)).

Definition trim (s : jsstring) : jsstring := trimEnd (trimStart s).

(** Truthiness of a string: the empty string is the only falsy one. *)
Definition truthy (s : jsstring) : bool :=
  match s with [] => false | _ :: _ => true end.

(** [a || b] on strings. *)
Definition orElse (a b : jsstring) : jsstring := if truthy a then a else b.

(** Truthiness of an identifier, key or message. *)
Definition nonEmpty (s : string) : bool :=
  match s with EmptyString => false | _ => true end.

End JsString.
Import JsString.

(** ** services/pdfService *)

Module PdfService.
Open Scope R_scope.

(** The 6-element transform of a text item, [transform[0]] to
    [transform[5]]. *)
Record Transform := mkTransform {
  t0 : R; t1 : R; t2 : R; t3 : R; t4 : R; t5 : R
}.

(** A text item of the PDF library's text content. *)
Record TextItem := mkTextItem {
  str : jsstring;
  transform : Transform;
  width : R;
  fontName : string
}.

(** [page.getViewport({ scale: 1.0 })]. *)
Record Viewport := mkViewport {
  vwidth : R;
  vheight : R
}.

(** The records [extractTextSegments] returns.  [originalText] is absent
    after extraction and set by the translation pass. *)
Record TextSegment := mkTextSegment {
  text : jsstring;
  originalText : option jsstring;
  segWidth : R;
  segHeight : R;
  fontSize : R;
  xRatio : R;
  yRatio : R;
  widthRatio : R;
  heightRatio : R;
  viewportWidth : R;
  viewportHeight : R;
  segFontName : string
}.

(** [item.str && item.str.trim().length > 0] *)
Definition keepItem (item : TextItem) : bool :=
  truthy (str item) && (0 <? length (trim (str item)))%nat.

(** The body of the [.map] callback. *)
Definition toSegment (viewport : Viewport) (item : TextItem) : TextSegment :=
  let tx := t4 (transform item) in
  let ty := t5 (transform item) in
  let fontSize :=
    sqrt (t0 (transform item) * t0 (transform item)
          + t1 (transform item) * t1 (transform item)) in
  {| text := str item;
     originalText := None;
     segWidth := width item;
     segHeight := fontSize;
     fontSize := fontSize;
     xRatio := tx / vwidth viewport;
     yRatio := (vheight viewport - ty) / vheight viewport;
     widthRatio := width item / vwidth viewport;
     heightRatio := fontSize / vheight viewport;
     viewportWidth := vwidth viewport;
     viewportHeight := vheight viewport;
     segFontName := fontName item |}.

(** [extractTextSegments], given the viewport and the text items of the
    page. *)
Definition extractTextSegments (viewport : Viewport) (items : list TextItem)
  : list TextSegment :=
  List.map (toSegment viewport) (List.filter keepItem items).

End PdfService.
Import PdfService.

(** ** The page record shared by the component, the pass and the store *)

Module Types.

Inductive TranslationMode := AI_DESIGNER | ORIGINAL_OVERLAY.

(** [TranslatedPage]; [imageData] and [segments] are optional fields. *)
Record TranslatedPage := mkTranslatedPage {
  pageNumber : nat;
  pageOriginalText : jsstring;
  translatedHtml : jsstring;
  imageData : option string;
  segments : option (list TextSegment);
  mode : TranslationMode
}.

End Types.
Import Types.

(** ** The canvas page component: drawing *)

Module Overlay.
Open Scope R_scope.

(** What the text drawing puts on the 2D context: [fillText] calls, each
    with the font size in force when the text is drawn. *)
Inductive DrawOp :=
| FillText (text : jsstring) (x y : R) (fontPx : R).

(** The part of [CanvasRenderingContext2D] the text drawing uses: the
    pixel size of [ctx.font] (the family is constant) and the operations
    drawn so far. *)
Record Ctx := mkCtx {
  font : R;
  ops : list DrawOp
}.

Definition setFont (ctx : Ctx) (px : R) : Ctx :=
  {| font := px; ops := ops ctx |}.

Definition fillText (ctx : Ctx) (text : jsstring) (x y : R) : Ctx :=
  {| font := font ctx; ops := ops ctx ++ [FillText text x y (font ctx)] |}.

Section Draw.
(** [ctx.measureText(text).width] at a font of the given pixel size:
    the browser's text measurement. *)
Variable measureText : R -> jsstring -> R.

Definition drawAutoFitText (ctx : Ctx) (text : jsstring)
    (x y maxWidth baseFontSize : R) : Ctx :=
  let fontSize := baseFontSize in
  let ctx := setFont ctx fontSize in
  let metrics := measureText (font ctx) text in
  let ctx :=
    if bool_decide (metrics > maxWidth) && bool_decide (maxWidth > 0)
    then
      let ratio := maxWidth / metrics in
      let fontSize := baseFontSize * ratio in
      setFont ctx fontSize
    else ctx in
  fillText ctx text x y.

(** The call made for each segment when the translated overlay is
    drawn on a canvas of the given size. *)
Definition drawSegmentText (canvasWidth canvasHeight : R) (ctx : Ctx)
    (seg : TextSegment) : Ctx :=
  drawAutoFitText ctx (text seg)
    (xRatio seg * canvasWidth) (yRatio seg * canvasHeight)
    (widthRatio seg * canvasWidth)
    (fontSize seg * (canvasWidth / viewportWidth seg)).

End Draw.

End Overlay.
Import Overlay.

(** ** The canvas page component: selection *)

Module Selection.
Open Scope R_scope.

Inductive SelectionMode := single | area | points.

#[global] Instance SelectionMode_eq_dec : EqDecision SelectionMode.
Proof. solve_decision. Defined.

(** Normalised pointer coordinates, as [getCoords] returns them. *)
Record Point := mkPoint { px : R; py : R }.

(** The component's local state. *)
Record Gesture := mkGesture {
  dragStart : option Point;
  dragCurrent : option Point;
  pointAnchor : option Point
}.

(** The props the handlers read.  Indices are JavaScript numbers; the
    handler compares them with [-1], so they are integers here. *)
Record Props := mkProps {
  page : TranslatedPage;
  isEditMode : bool;
  selectionMode : SelectionMode;
  selectedIndices : list Z
}.

(** [arr.reduce((acc, s, i) => ..., init)] *)
Fixpoint reduceFrom {A B : Type} (f : B -> A -> Z -> B) (i : Z)
    (l : list A) (acc : B) : B :=
  match l with
  | [] => acc
  | s :: l' => reduceFrom f (i + 1)%Z l' (f acc s i)
  end.

Definition reduce {A B : Type} (f : B -> A -> Z -> B) (l : list A)
    (init : B) : B :=
  reduceFrom f 0%Z l init.

(** [Array.from(new Set(l))]: first occurrences, in insertion order. *)
Definition setAdd (acc : list Z) (v : Z) : list Z :=
  if bool_decide (v ∈ acc) then acc else acc ++ [v].

Definition arrayFromSet (l : list Z) : list Z := fold_left setAdd l [].

(** The callback of the hit-test [reduce] in the [area] and [points]
    branches (the two branches have the same text). *)
Definition hitStep (x1 x2 y1 y2 : R) (acc : list Z) (s : TextSegment)
    (i : Z) : list Z :=
  let sx1 := xRatio s in
  let sx2 := xRatio s + widthRatio s in
  let sy1 := yRatio s - heightRatio s in
  let sy2 := yRatio s in
  if bool_decide (sx1 < x2) && bool_decide (sx2 > x1)
     && bool_decide (sy1 < y2) && bool_decide (sy2 > y1)
  then acc ++ [i] else acc.

(** [page.segments?.reduce(...) || []] for the box spanned by [p], [q]. *)
Definition boxHits (pg : TranslatedPage) (p q : Point) : list Z :=
  let x1 := Rmin (px p) (px q) in
  let x2 := Rmax (px p) (px q) in
  let y1 := Rmin (py p) (py q) in
  let y2 := Rmax (py p) (py q) in
  match segments pg with
  | Some segs => reduce (hitStep x1 x2 y1 y2) segs []
  | None => []
  end.

(** The body of the [forEach] of the nearest-point search; the state is
    [(best, minD)]. *)
Definition nearestStep (e : Point) (st : Z * R) (s : TextSegment) (i : Z)
    : Z * R :=
  let d := sqrt ((px e - (xRatio s + widthRatio s / 2)) ^ 2
                 + (py e - (yRatio s - heightRatio s / 2)) ^ 2) in
  if bool_decide (d < snd st) then (i, d) else st.

Definition nearest (pg : TranslatedPage) (e : Point) : Z * R :=
  match segments pg with
  | Some segs => reduce (nearestStep e) segs ((-1)%Z, 0.05)
  | None => ((-1)%Z, 0.05)
  end.

(** [selectedIndices.includes(best) ? selectedIndices.filter(i => i !== best)
     : [...selectedIndices, best]] *)
Definition toggle (sel : list Z) (best : Z) : list Z :=
  if bool_decide (best ∈ sel)
  then List.filter (fun i => negb (Z.eqb i best)) sel
  else sel ++ [best].

(** The [else] branch of [handleMouseUp]: what it passes to
    [onSelectionChange], if it calls it. *)
Definition pickNearest (props : Props) (e : Point) : option (list Z * nat) :=
  let best := fst (nearest (page props) e) in
  if negb (Z.eqb best (-1))
  then Some (toggle (selectedIndices props) best, pageNumber (page props))
  else None.

(** [handleMouseUp]: the new local state and the call of
    [onSelectionChange], if any. [e] is [getCoords(e)]. *)
Definition handleMouseUp (props : Props) (g : Gesture) (e : Point)
    : Gesture * option (list Z * nat) :=
  if negb (isEditMode props) then (g, None)
  else
    if bool_decide (selectionMode props = points) then
      match pointAnchor g with
      | None =>
          ({| dragStart := dragStart g; dragCurrent := dragCurrent g;
              pointAnchor := Some e |}, None)
      | Some a =>
          let newIndices := boxHits (page props) a e in
          ({| dragStart := dragStart g; dragCurrent := dragCurrent g;
              pointAnchor := None |},
           Some (arrayFromSet (selectedIndices props ++ newIndices),
                 pageNumber (page props)))
      end
    else
      let call :=
        match dragStart g with
        | Some d =>
            if bool_decide (selectionMode props = area)
               && bool_decide (Rabs (px e - px d) > 0.01)
            then
              let newIndices := boxHits (page props) d e in
              Some (arrayFromSet (selectedIndices props ++ newIndices),
                    pageNumber (page props))
            else pickNearest props e
        | None => pickNearest props e
        end in
      ({| dragStart := None; dragCurrent := None;
          pointAnchor := pointAnchor g |}, call).

(** [handleMouseDown] *)
Definition handleMouseDown (props : Props) (g : Gesture) (e : Point)
    : Gesture :=
  if negb (isEditMode props) then g
  else if bool_decide (selectionMode props = points) then g
  else {| dragStart := Some e; dragCurrent := dragCurrent g;
          pointAnchor := pointAnchor g |}.

(** [handleMouseMove] *)
Definition handleMouseMove (g : Gesture) (e : Point) : Gesture :=
  match dragStart g with
  | Some _ => {| dragStart := dragStart g; dragCurrent := Some e;
                 pointAnchor := pointAnchor g |}
  | None => g
  end.

End Selection.
Import Selection.

(** ** services/db: the IndexedDB object stores *)

Module Db.

(** A record of the [projects] store ([keyPath: 'id']). *)
Record Project := mkProject {
  projId : string;
  projName : string;
  projFileName : string;
  projNumPages : nat;
  projInputLanguage : string;
  projOutputLanguage : string
}.

(** A record of the [files] store ([keyPath: 'projectId']). *)
Record FileRec := mkFileRec {
  fileProjectId : string;
  fileData : list N
}.

(** A record of the [pages] store ([keyPath: 'id'], with an index on
    [projectId]): [{ id, projectId, ...pageData }]. *)
Record PageRec := mkPageRec {
  pageId : string;
  pageProjectId : string;
  pageData : TranslatedPage
}.

(** The database after [initDB]: one finite map per object store, from
    primary key to record.  A result list of [getAll] or [getAllKeys] is
    given in the order of the map's enumeration, not in key order. *)
Record DB := mkDB {
  projects : gmap string Project;
  pages : gmap string PageRec;
  settings : gmap string (option string);
  files : gmap string FileRec
}.

Definition emptyDB : DB :=
  {| projects := ∅; pages := ∅; settings := ∅; files := ∅ |}.

Definition setSetting (key : string) (value : option string) (db : DB) : DB :=
  {| projects := projects db; pages := pages db;
     settings := <[key := value]> (settings db); files := files db |}.

(** [request.result?.value] *)
Definition getSetting (key : string) (db : DB) : option string :=
  match settings db !! key with
  | Some v => v
  | None => None
  end.

Definition saveFile (projectId : string) (data : list N) (db : DB) : DB :=
  {| projects := projects db; pages := pages db; settings := settings db;
     files := <[projectId := {| fileProjectId := projectId;
                                fileData := data |}]> (files db) |}.

(** [request.result?.data || null] *)
Definition getFile (projectId : string) (db : DB) : option (list N) :=
  match files db !! projectId with
  | Some r => Some (fileData r)
  | None => None
  end.

Definition saveProject (project : Project) (db : DB) : DB :=
  {| projects := <[projId project := project]> (projects db);
     pages := pages db; settings := settings db; files := files db |}.

(** [index.getAllKeys(projectId)] on the [projectId] index of a pages
    store: the primary keys of the records with that [projectId]. *)
Definition indexGetAllKeys (projectId : string)
    (store : gmap string PageRec) : list string :=
  (map_to_list
     (filter (λ kv : string * PageRec, pageProjectId kv.2 = projectId)
             store)).*1.

(** [index.getAll(projectId)] *)
Definition indexGetAll (projectId : string)
    (store : gmap string PageRec) : list PageRec :=
  (map_to_list
     (filter (λ kv : string * PageRec, pageProjectId kv.2 = projectId)
             store)).*2.

(** [deleteProject]: one read-write transaction over the three stores. *)
Definition deleteProject (projectId : string) (db : DB) : DB :=
  let projects' := delete projectId (projects db) in
  let files' := delete projectId (files db) in
  let pageStore := pages db in
  let result := indexGetAllKeys projectId pageStore in
  let pageStore' :=
    fold_left (fun st key => delete key st) result pageStore in
  {| projects := projects'; pages := pageStore';
     settings := settings db; files := files' |}.

(** [`${projectId}_${pageData.pageNumber}`] *)
Definition pageKey (projectId : string) (n : nat) : string :=
  (projectId +:+ "_" +:+ pretty n)%string.

Definition savePage (projectId : string) (pg : TranslatedPage) (db : DB)
    : DB :=
  let rec := {| pageId := pageKey projectId (pageNumber pg);
                pageProjectId := projectId;
                pageData := pg |} in
  {| projects := projects db;
     pages := <[pageId rec := rec]> (pages db);
     settings := settings db; files := files db |}.

Definition getProjectPages (projectId : string) (db : DB) : list PageRec :=
  indexGetAll projectId (pages db).

Definition deletePagesFromProject (projectId : string)
    (pageNumbers : list nat) (db : DB) : DB :=
  {| projects := projects db;
     pages := fold_left (fun st num => delete (pageKey projectId num) st)
                        pageNumbers (pages db);
     settings := settings db; files := files db |}.

Definition getAllProjects (db : DB) : list Project :=
  (map_to_list (projects db)).*2.

(** Records sit under the key their key path gives: what every [put]
    establishes and every [delete] keeps. *)
Definition keyed (db : DB) : Prop :=
  (∀ k p, projects db !! k = Some p → projId p = k)
  ∧ (∀ k r, pages db !! k = Some r → pageId r = k)
  ∧ (∀ k f, files db !! k = Some f → fileProjectId f = k).

End Db.

(** ** Effects: the world the asynchronous code acts on *)

Module Effects.

(** The calls a translation pass makes for a page, in order. *)
Inductive Call :=
| CallGetPageImage (n : nat)
| CallExtractTextSegments (n : nat)
| CallTranslate (n : nat)
| CallSavePage (n : nat).

Record World := mkWorld {
  store : Db.DB;                         (* the persisted database *)
  localPages : gmap nat TranslatedPage;  (* the pages of batch 'r' *)
  alerts : list string;                  (* messages shown by [alert] *)
  consoleErrors : list string;           (* [console.error] *)
  isProcessing : bool;
  showApiKeyModal : bool;
  requests : nat;                        (* backend requests sent so far *)
  trace : list Call
}.

Inductive Outcome (A : Type) :=
| Returns (a : A)
| Throws (message : string).
Arguments Returns {A} a.
Arguments Throws {A} message.

(** An asynchronous computation: it ends by returning or by throwing,
    in a new world. *)
Definition M (A : Type) : Type := World -> Outcome A * World.

#[global] Instance M_ret : MRet M := λ A a w, (Returns a, w).

#[global] Instance M_bind : MBind M := λ A B f m w,
  match m w with
  | (Returns a, w') => f a w'
  | (Throws e, w') => (Throws e, w')
  end.

Definition throw {A : Type} (message : string) : M A :=
  λ w, (Throws message, w).

(** [try { m } catch (e) { h e.message }] *)
Definition tryCatch {A : Type} (m : M A) (h : string -> M A) : M A :=
  λ w,
  match m w with
  | (Returns a, w') => (Returns a, w')
  | (Throws e, w') => h e w'
  end.

(** [try { m } finally { f }], for a handler [f] that does not throw. *)
Definition finally {A : Type} (m : M A) (f : World -> World) : M A :=
  λ w, let '(r, w') := m w in (r, f w').

(** A state change that cannot fail. *)
Definition modify (f : World -> World) : M unit := λ w, (Returns tt, f w).

(** [for (let n = start; n <= end; n++) body(n)], with [count] the
    number of values [n] takes. *)
Fixpoint forLoop (count : nat) (n : nat) (body : nat -> M unit) : M unit :=
  match count with
  | O => mret tt
  | S count' => body n ;; forLoop count' (S n) body
  end.

Definition withStore (f : Db.DB -> Db.DB) (w : World) : World :=
  {| store := f (store w); localPages := localPages w; alerts := alerts w;
     consoleErrors := consoleErrors w; isProcessing := isProcessing w;
     showApiKeyModal := showApiKeyModal w; requests := requests w;
     trace := trace w |}.

Definition withLocalPages
    (f : gmap nat TranslatedPage -> gmap nat TranslatedPage) (w : World)
    : World :=
  {| store := store w; localPages := f (localPages w); alerts := alerts w;
     consoleErrors := consoleErrors w; isProcessing := isProcessing w;
     showApiKeyModal := showApiKeyModal w; requests := requests w;
     trace := trace w |}.

Definition alert (message : string) (w : World) : World :=
  {| store := store w; localPages := localPages w;
     alerts := alerts w ++ [message];
     consoleErrors := consoleErrors w; isProcessing := isProcessing w;
     showApiKeyModal := showApiKeyModal w; requests := requests w;
     trace := trace w |}.

Definition consoleError (message : string) (w : World) : World :=
  {| store := store w; localPages := localPages w; alerts := alerts w;
     consoleErrors := consoleErrors w ++ [message];
     isProcessing := isProcessing w;
     showApiKeyModal := showApiKeyModal w; requests := requests w;
     trace := trace w |}.

Definition setIsProcessing (b : bool) (w : World) : World :=
  {| store := store w; localPages := localPages w; alerts := alerts w;
     consoleErrors := consoleErrors w; isProcessing := b;
     showApiKeyModal := showApiKeyModal w; requests := requests w;
     trace := trace w |}.

Definition setShowApiKeyModal (b : bool) (w : World) : World :=
  {| store := store w; localPages := localPages w; alerts := alerts w;
     consoleErrors := consoleErrors w; isProcessing := isProcessing w;
     showApiKeyModal := b; requests := requests w;
     trace := trace w |}.

Definition countRequest (w : World) : World :=
  {| store := store w; localPages := localPages w; alerts := alerts w;
     consoleErrors := consoleErrors w; isProcessing := isProcessing w;
     showApiKeyModal := showApiKeyModal w; requests := S (requests w);
     trace := trace w |}.

Definition record (c : Call) (w : World) : World :=
  {| store := store w; localPages := localPages w; alerts := alerts w;
     consoleErrors := consoleErrors w; isProcessing := isProcessing w;
     showApiKeyModal := showApiKeyModal w; requests := requests w;
     trace := trace w ++ [c] |}.

End Effects.
Import Effects.

(** ** services/freeTranslateService *)

Module FreeTranslate.

(** What [response.json()] gives: a rejection, or [data], of which the
    code reads [data[0]], the list of translated chunks ([part[0]] of
    each part); [None] stands for a falsy [data] or [data[0]]. *)
Inductive JsonBody :=
| JsonRejects (message : string)
| JsonData (data0 : option (list jsstring)).

(** What [fetch(url)] gives. *)
Inductive FetchOutcome :=
| FetchRejects (message : string)
| FetchResponse (ok : bool) (body : JsonBody).

Record VaultEntry := mkVaultEntry {
  isCode : bool;
  original : jsstring;
  processed : jsstring;
  tokens : list (jsstring * jsstring)
}.

Definition langMap : list (string * string) :=
  [ ("English", "en"); ("Português", "pt"); ("Español (Spanish)", "es");
    ("日本語 (Japanese)", "ja"); ("中文 (Chinese)", "zh") ]%string.

(** [langMap[lang] || dflt] *)
Definition langCode (lang dflt : string) : string :=
  match List.find (fun kv => String.eqb (fst kv) lang) langMap with
  | Some kv => snd kv
  | None => dflt
  end.

(** [arr.join(delimiter)] *)
Fixpoint join (delimiter : jsstring) (l : list jsstring) : jsstring :=
  match l with
  | [] => []
  | [s] => s
  | s :: l' => s ++ delimiter ++ join delimiter l'
  end.

Fixpoint isPrefix (p s : jsstring) : bool :=
  match p, s with
  | [], _ => true
  | a :: p', b :: s' => N.eqb a b && isPrefix p' s'
  | _ :: _, [] => false
  end.

(** The length of the match of [/\s?\|\|\|\s?/] at the head of [s]. *)
Definition matchDelimiter (s : jsstring) : option nat :=
  let bars := js "|||" in
  let tail (n : nat) (rest : jsstring) :=
    match rest with
    | c :: _ => if isWhiteSpace c then S n else n
    | [] => n
    end in
  match s with
  | c :: s' =>
      if isWhiteSpace c && isPrefix bars s'
      then Some (tail 4%nat (drop 3 s'))
      else if isPrefix bars s
           then Some (tail 3%nat (drop 3 s))
           else None
  | [] => None
  end.

(** [s.split(/\s?\|\|\|\s?/)]: [skip] counts the code units of the
    current match still to pass, [cur] holds the piece being read, last
    code unit first. *)
Fixpoint splitFrom (skip : nat) (cur : jsstring) (s : jsstring)
    : list jsstring :=
  match s with
  | [] => [rev cur]
  | c :: s' =>
      match skip with
      | S k => splitFrom k cur s'
      | O =>
          match matchDelimiter s with
          | Some n => rev cur :: splitFrom (n - 1) [] s'
          | None => splitFrom 0 (c :: cur) s'
          end
      end
  end.

Definition splitParts (s : jsstring) : list jsstring := splitFrom 0 [] s.

(** [s.replace(new RegExp(escapedToken, 'g'), value)] for a token that
    is not empty and a value without [$]: every occurrence of the
    token, left to right. *)
Fixpoint replaceFrom (token value : jsstring) (skip : nat) (s : jsstring)
    : jsstring :=
  match s with
  | [] => []
  | c :: s' =>
      match skip with
      | S k => replaceFrom token value k s'
      | O =>
          if isPrefix token s
          then value ++ replaceFrom token value (length token - 1) s'
          else c :: replaceFrom token value 0 s'
      end
  end.

Definition replaceAll (token value s : jsstring) : jsstring :=
  replaceFrom token value 0 s.

(** [Object.entries(v.tokens).forEach(...)] *)
Definition restoreTokens (tokens : list (jsstring * jsstring))
    (s : jsstring) : jsstring :=
  fold_left (fun finalStr kv => replaceAll (fst kv) (snd kv) finalStr)
            tokens s.

(** [translatedParts[i] || v.original] *)
Definition partOr (translatedParts : list jsstring) (i : nat)
    (dflt : jsstring) : jsstring :=
  match translatedParts !! i with
  | Some t => orElse t dflt
  | None => dflt
  end.

(** The callback of the final [vault.map]. *)
Definition mergePart (translatedParts : list jsstring) (i : nat)
    (v : VaultEntry) : jsstring :=
  if isCode v then original v
  else restoreTokens (tokens v) (partOr translatedParts i (original v)).

Section Service.
(** The two regular-expression heuristics, [isPureCode] and the
    replacement of the [TECHNICAL_PATTERNS] by tokens (the processed
    text and the token table), and the network. The first argument
    of [fetch] is the number of requests sent before. *)
Variable isPureCode : jsstring -> bool.
Variable protectTokens : jsstring -> jsstring * list (jsstring * jsstring).
Variable fetch : nat -> string -> string -> jsstring -> FetchOutcome.

Definition toVault (text : jsstring) : VaultEntry :=
  if isPureCode text
  then {| isCode := true; original := text; processed := text;
          tokens := [] |}
  else {| isCode := false; original := text;
          processed := fst (protectTokens text);
          tokens := snd (protectTokens text) |}.

Definition fetchM (sl tl : string) (q : jsstring) : M (bool * JsonBody) :=
  λ w,
  match fetch (requests w) sl tl q with
  | FetchRejects e => (Throws e, countRequest w)
  | FetchResponse ok body => (Returns (ok, body), countRequest w)
  end.

Definition translateFree (texts : list jsstring)
    (sourceLang targetLang : string) : M (list jsstring) :=
  let sl := langCode sourceLang "auto" in
  let tl := langCode targetLang "pt" in
  match texts with
  | [] => mret []
  | _ :: _ =>
      let vault := List.map toVault texts in
      let toTranslate :=
        List.map (fun v => if isCode v then js "---SKIP---"
                           else processed v) vault in
      tryCatch
        (let delimiter := js " ||| " in
         let combinedText := join delimiter toTranslate in
         response ← fetchM sl tl combinedText;
         if negb (fst response) then throw "Google API Error"
         else
           match snd response with
           | JsonRejects e => throw e
           | JsonData None => mret texts
           | JsonData (Some chunks) =>
               let fullTranslated := concat chunks in
               let translatedParts := splitParts fullTranslated in
               mret (imap (mergePart translatedParts) vault)
           end)
        (fun e =>
           modify (consoleError
                     ("Falha na tradução com proteção: " +:+ e)) ;;
           mret texts)
  end.
End Service.

End FreeTranslate.

(** ** services/geminiService *)

Module Gemini.

(** [JSON.parse(jsonStr)] for a response held to the response schema
    (an array of strings): a syntax error or the array. *)
Inductive JsonParse :=
| SyntaxError (message : string)
| JsonArray (a : list jsstring).

(** What [ai.models.generateContent] gives: a rejection, or a response
    whose [text] is empty ([None]) or parses as shown. *)
Inductive AiOutcome :=
| AiRejects (message : string)
| AiResponse (text : option JsonParse).

(** [manualKey || process.env.API_KEY], and its truthiness. *)
Definition pickApiKey (manualKey envKey : option string) : option string :=
  match manualKey with
  | Some k => if nonEmpty k then Some k
              else match envKey with
                   | Some e => if nonEmpty e then Some e else None
                   | None => None
                   end
  | None => match envKey with
            | Some e => if nonEmpty e then Some e else None
            | None => None
            end
  end.

Section Service.
Variable envApiKey : option string.
(** The model call; its first argument is the number of requests
    sent before. *)
Variable generateContent : nat -> string -> list jsstring -> AiOutcome.

Definition generateM (apiKey : string) (texts : list jsstring)
    : M (option JsonParse) :=
  λ w,
  match generateContent (requests w) apiKey texts with
  | AiRejects e => (Throws e, countRequest w)
  | AiResponse t => (Returns t, countRequest w)
  end.

Definition translateEconomic (texts : list jsstring)
    (sourceLang targetLang : string) (manualKey : option string)
    : M (list jsstring) :=
  match pickApiKey manualKey envApiKey with
  | None =>
      throw ("API_KEY não configurada. Por favor, insira sua chave no "
             +:+ "botão 'Configurar Chave' no topo da página.")
  | Some apiKey =>
      match texts with
      | [] => mret []
      | _ :: _ =>
          tryCatch
            (jsonStr ← generateM apiKey texts;
             match jsonStr with
             | None => throw "A IA retornou uma resposta vazia."
             | Some (SyntaxError e) => throw e
             | Some (JsonArray a) => mret a
             end)
            (fun e =>
               throw ("Falha na tradução IA: " +:+ e
                      +:+ ". Verifique se sua API Key é válida."))
      end
  end.
End Service.

End Gemini.

(** ** The application component: the translation pass *)

Module App.

(** What the PDF library gives for a page: the viewport at scale 1, the
    text items, and the base64 image [getPageImage] renders (the empty
    string when no drawing context is obtained). *)
Record PdfPage := mkPdfPage {
  pageViewport : Viewport;
  pageItems : list TextItem;
  pageImage : string
}.

(** The loaded document: [getPage] rejects for a page it does not have. *)
Definition Pdf := nat -> option PdfPage.

(** The collaborators of a pass. *)
Record Env := mkEnv {
  envApiKey : option string;
  generateContent : nat -> string -> list jsstring -> Gemini.AiOutcome;
  isPureCode : jsstring -> bool;
  protectTokens : jsstring -> jsstring * list (jsstring * jsstring);
  fetch : nat -> string -> string -> jsstring -> FreeTranslate.FetchOutcome
}.

(** The component state [startTranslation] reads; [rangeStart] and
    [rangeEnd] are [parseInt(rangeInput.start)] and
    [parseInt(rangeInput.end)], for inputs that parse to a natural
    number. *)
Record Config := mkConfig {
  pdfInstance : option Pdf;
  activeProjectId : option string;
  useAI : bool;
  hasStoredKey : bool;
  apiKeyInput : string;
  rangeStart : nat;
  rangeEnd : nat;
  numPages : nat;
  inputLanguage : string;
  outputLanguage : string
}.

Definition getPageM (pdf : Pdf) (n : nat) : M PdfPage :=
  match pdf n with
  | Some p => mret p
  | None => throw "Invalid page request."
  end.

Definition getPageImage (pdf : Pdf) (n : nat) : M string :=
  modify (record (CallGetPageImage n)) ;;
  p ← getPageM pdf n;
  mret (pageImage p).

Definition extractTextSegmentsM (pdf : Pdf) (n : nat)
    : M (list TextSegment) :=
  modify (record (CallExtractTextSegments n)) ;;
  p ← getPageM pdf n;
  mret (extractTextSegments (pageViewport p) (pageItems p)).

(** [translatedTexts[i] || s.text] *)
Definition translatedOr (translatedTexts : list jsstring) (i : nat)
    (dflt : jsstring) : jsstring :=
  match translatedTexts !! i with
  | Some t => orElse t dflt
  | None => dflt
  end.

(** [{ ...s, text: translatedTexts[i] || s.text, originalText: s.text }] *)
Definition mergeSegment (translatedTexts : list jsstring) (i : nat)
    (s : TextSegment) : TextSegment :=
  {| text := translatedOr translatedTexts i (text s);
     originalText := Some (text s);
     segWidth := segWidth s; segHeight := segHeight s;
     fontSize := fontSize s;
     xRatio := xRatio s; yRatio := yRatio s;
     widthRatio := widthRatio s; heightRatio := heightRatio s;
     viewportWidth := viewportWidth s; viewportHeight := viewportHeight s;
     segFontName := segFontName s |}.

Definition mergeSegments (segs : list TextSegment)
    (translatedTexts : list jsstring) : list TextSegment :=
  imap (mergeSegment translatedTexts) segs.

(** The [entry] built for page [n]. *)
Definition makeEntry (n : nat) (imgD : string) (segs : list TextSegment)
    (translatedTexts : list jsstring) : TranslatedPage :=
  let textsToTranslate := List.map text segs in
  {| pageNumber := n;
     pageOriginalText := FreeTranslate.join (js " ") textsToTranslate;
     translatedHtml := [];
     imageData := Some imgD;
     segments := Some (mergeSegments segs translatedTexts);
     mode := ORIGINAL_OVERLAY |}.

(** [db.savePage(projectId, entry)], for a transaction that completes.
    A transaction that fails rejects the promise ([transaction.onerror]);
    that outcome is not modelled, so that a round is followed here on
    the path where its save completes. *)
Definition savePageM (projectId : string) (entry : TranslatedPage) : M unit :=
  modify (record (CallSavePage (pageNumber entry))) ;;
  modify (withStore (Db.savePage projectId entry)).

(** [updateLocalState(n, entry)]: the pages of batch ['r'], kept unique
    by page number. *)
Definition updateLocalState (n : nat) (entry : TranslatedPage) : M unit :=
  modify (withLocalPages (λ m, <[n := entry]> m)).

(** [e.message || dflt] *)
Definition messageOr (message dflt : string) : string :=
  if nonEmpty message then message else dflt.

Section Pass.
Variable env : Env.
Variable cfg : Config.

Definition translate (n : nat) (textsToTranslate : list jsstring)
    : M (list jsstring) :=
  modify (record (CallTranslate n)) ;;
  let manualKey := if useAI cfg then Some (apiKeyInput cfg) else None in
  if useAI cfg
  then Gemini.translateEconomic (envApiKey env) (generateContent env)
         textsToTranslate (inputLanguage cfg) (outputLanguage cfg)
         manualKey
  else FreeTranslate.translateFree (isPureCode env) (protectTokens env)
         (fetch env)
         textsToTranslate (inputLanguage cfg) (outputLanguage cfg).

(** The body of the [for] loop. *)
Definition translatePage (pdf : Pdf) (projectId : string) (n : nat)
    : M unit :=
  imgD ← getPageImage pdf n;
  segs ← extractTextSegmentsM pdf n;
  let textsToTranslate := List.map text segs in
  translatedTexts ← translate n textsToTranslate;
  let entry := makeEntry n imgD segs translatedTexts in
  savePageM projectId entry ;;
  updateLocalState n entry.

Definition startTranslation : M unit :=
  match pdfInstance cfg, activeProjectId cfg with
  | Some pdf, Some projectId =>
      if negb (nonEmpty projectId) then mret tt
      else if useAI cfg && negb (hasStoredKey cfg)
      then modify (setShowApiKeyModal true)
      else
        let start := Nat.max 1 (rangeStart cfg) in
        let end_ := Nat.min (numPages cfg) (rangeEnd cfg) in
        modify (setIsProcessing true) ;;
        finally
          (tryCatch
             (forLoop (S end_ - start) start (translatePage pdf projectId))
             (fun e => modify (alert (messageOr e "Erro na tradução."))))
          (setIsProcessing false)
  | _, _ => mret tt
  end.
End Pass.

End App.

(** * Properties *)

(** ** Strings *)

Section TrimFacts.

Lemma trimStart_nil_iff (s : jsstring) :
  trimStart s = [] <-> Forall (fun c => isWhiteSpace c = true) s.
Proof.
  induction s as [|c s IH]; simpl.
  - split; [constructor | reflexivity].
  - destruct (isWhiteSpace c) eqn:Hc.
    + rewrite IH. split.
      * intros H. constructor; assumption.
      * intros H. inversion H; assumption.
    + split; [discriminate |].
      intros H. inversion H; congruence.
Qed.

Lemma trimStart_suffix (s : jsstring) :
  exists ws, s = ws ++ trimStart s
             /\ Forall (fun c => isWhiteSpace c = true) ws.
Proof.
  induction s as [|c s [ws [Heq Hws]]]; simpl.
  - exists []. split; [reflexivity | constructor].
  - destruct (isWhiteSpace c) eqn:Hc.
    + exists (c :: ws). split.
      * simpl. f_equal. exact Heq.
      * constructor; assumption.
    + exists []. split; [reflexivity | constructor].
Qed.

(** The trimmed string is empty exactly when the string holds white
    space only. *)
Lemma trim_nil_iff (s : jsstring) :
  trim s = [] <-> Forall (fun c => isWhiteSpace c = true) s.
Proof.
  unfold trim, trimEnd.
  destruct (trimStart_suffix s) as [ws [Heq Hws]].
  split.
  - intros H.
    assert (Hr : trimStart (rev (trimStart s)) = []).
    { destruct (trimStart (rev (trimStart s))) as [|c l] eqn:E;
        [reflexivity |].
      simpl in H. destruct (rev l); discriminate. }
    apply trimStart_nil_iff in Hr.
    rewrite Heq. apply Forall_app. split; [exact Hws |].
    apply Forall_rev in Hr. rewrite rev_involutive in Hr. exact Hr.
  - intros H.
    assert (Hs : trimStart s = []) by (apply trimStart_nil_iff; exact H).
    rewrite Hs. reflexivity.
Qed.

Lemma keepItem_spec (item : TextItem) :
  keepItem item = true <-> trim (str item) <> [].
Proof.
  unfold keepItem. rewrite andb_true_iff, Nat.ltb_lt. split.
  - intros [_ Hlen] Hnil. rewrite Hnil in Hlen. simpl in Hlen. lia.
  - intros Hne. split.
    + destruct (str item) eqn:E; [| reflexivity].
      exfalso. apply Hne. reflexivity.
    + destruct (trim (str item)); [congruence | simpl; lia].
Qed.

End TrimFacts.

(** ** Segment extraction *)

Section Extraction.
Open Scope R_scope.

Lemma filter_keepItem (items : list TextItem) :
  List.filter keepItem items
  = filter (λ it : TextItem, trim (str it) ≠ []) items.
Proof.
  induction items as [|it items IH]; [reflexivity |].
  simpl. rewrite filter_cons.
  destruct (keepItem it) eqn:Hk.
  - apply keepItem_spec in Hk.
    destruct (decide (trim (str it) ≠ [])); [| contradiction].
    f_equal. exact IH.
  - destruct (decide (trim (str it) ≠ [])) as [Hne|_]; [| exact IH].
    apply keepItem_spec in Hne. congruence.
Qed.

(** The relation between a text item and the segment made of it, as
    the specification words it. *)
Definition segmentOf (viewport : Viewport) (item : TextItem)
    (s : TextSegment) : Prop :=
  let a := t0 (transform item) in
  let b := t1 (transform item) in
  let tx := t4 (transform item) in
  let ty := t5 (transform item) in
  text s = str item
  /\ fontSize s = sqrt (a ^ 2 + b ^ 2)
  /\ xRatio s = tx / vwidth viewport
  /\ yRatio s = (vheight viewport - ty) / vheight viewport
  /\ widthRatio s = width item / vwidth viewport
  /\ heightRatio s = fontSize s / vheight viewport.

Lemma toSegment_segmentOf (viewport : Viewport) (item : TextItem) :
  segmentOf viewport item (toSegment viewport item).
Proof.
  unfold segmentOf, toSegment; simpl.
  repeat split; try reflexivity.
  f_equal. ring.
Qed.

(** C1. [extractTextSegments] yields one segment for each item whose
    trimmed string is not empty, in the order of the items, and each
    segment has [fontSize = sqrt (a² + b²)], [xRatio = tx / W],
    [yRatio = (H - ty) / H], [widthRatio = width / W] and
    [heightRatio = fontSize / H]. *)
Theorem extractTextSegments_spec (viewport : Viewport)
    (items : list TextItem) :
  Forall2 (segmentOf viewport)
          (filter (λ it : TextItem, trim (str it) ≠ []) items)
          (extractTextSegments viewport items).
Proof.
  unfold extractTextSegments. rewrite filter_keepItem.
  induction (filter (λ it : TextItem, trim (str it) ≠ []) items)
    as [|it kept IH]; simpl.
  - constructor.
  - constructor; [apply toSegment_segmentOf | exact IH].
Qed.

Lemma div_unit_range (x w : R) :
  0 < w -> (0 <= x / w <= 1 <-> 0 <= x <= w).
Proof.
  intros Hw. unfold Rdiv.
  assert (Hi : 0 < / w) by (apply Rinv_0_lt_compat; exact Hw).
  assert (Hwi : w * / w = 1) by (apply Rinv_r; lra).
  split; intros [H1 H2]; split; nra.
Qed.

(** A US-letter page and a text run that starts right of its edge. *)
Definition letterViewport : Viewport := {| vwidth := 612; vheight := 792 |}.

Definition offPageItem : TextItem :=
  {| str := js "x";
     transform := {| t0 := 12; t1 := 0; t2 := 0; t3 := 12;
                     t4 := 700; t5 := 100 |};
     width := 6;
     fontName := "g_d0_f1" |}.

Definition onPageItem : TextItem :=
  {| str := js "x";
     transform := {| t0 := 12; t1 := 0; t2 := 0; t3 := 12;
                     t4 := 72; t5 := 700 |};
     width := 6;
     fontName := "g_d0_f1" |}.

(** C8, as stated, fails: the ratios are plain quotients, and a run
    placed at [tx = 700] on a page 612 wide gets [xRatio > 1]. *)
Lemma xRatio_exceeds_one :
  exists s, extractTextSegments letterViewport [offPageItem] = [s]
            /\ ~ (0 <= xRatio s <= 1).
Proof.
  eexists. split; [reflexivity |].
  simpl. intros [_ H]. lra.
Qed.

(** C8, amended. On a viewport of positive size every segment comes
    from an item, and each of its ratios lies in [0,1] exactly when the
    quantity it stands for lies within the viewport: [0 <= tx <= W],
    [0 <= ty <= H], [0 <= width <= W], [fontSize <= H]. *)
Theorem ratios_in_unit_range (viewport : Viewport) (items : list TextItem)
    (s : TextSegment) :
  0 < vwidth viewport -> 0 < vheight viewport ->
  In s (extractTextSegments viewport items) ->
  exists item, In item items /\ segmentOf viewport item s
    /\ (0 <= xRatio s <= 1
        <-> 0 <= t4 (transform item) <= vwidth viewport)
    /\ (0 <= yRatio s <= 1
        <-> 0 <= t5 (transform item) <= vheight viewport)
    /\ (0 <= widthRatio s <= 1
        <-> 0 <= width item <= vwidth viewport)
    /\ (0 <= heightRatio s <= 1 <-> fontSize s <= vheight viewport).
Proof.
  intros HW HH Hin. unfold extractTextSegments in Hin.
  apply in_map_iff in Hin. destruct Hin as [item [Hs Hitem]].
  apply List.filter_In in Hitem. destruct Hitem as [Hitem _].
  exists item. subst s.
  split; [exact Hitem |]. split; [apply toSegment_segmentOf |].
  simpl. split; [| split; [| split]].
  - apply div_unit_range; assumption.
  - rewrite (div_unit_range _ _ HH). split; intros; lra.
  - apply div_unit_range; assumption.
  - rewrite (div_unit_range _ _ HH). split; [intros; lra |].
    intros H. split; [apply sqrt_pos | exact H].
Qed.

Lemma ratios_in_unit_range_witness :
  exists item, In item [onPageItem]
    /\ segmentOf letterViewport item (toSegment letterViewport onPageItem)
    /\ (0 <= xRatio (toSegment letterViewport onPageItem) <= 1
        <-> 0 <= t4 (transform item) <= vwidth letterViewport)
    /\ (0 <= yRatio (toSegment letterViewport onPageItem) <= 1
        <-> 0 <= t5 (transform item) <= vheight letterViewport)
    /\ (0 <= widthRatio (toSegment letterViewport onPageItem) <= 1
        <-> 0 <= width item <= vwidth letterViewport)
    /\ (0 <= heightRatio (toSegment letterViewport onPageItem) <= 1
        <-> fontSize (toSegment letterViewport onPageItem)
            <= vheight letterViewport).
Proof.
  apply (ratios_in_unit_range letterViewport [onPageItem]).
  - simpl; lra.
  - simpl; lra.
  - left; reflexivity.
Defined.

End Extraction.

(** ** Auto-fit text drawing *)

Section AutoFit.
Open Scope R_scope.

(** The browser's measurement, taken to scale with the font size: the
width at [f] pixels is [f] times the width at one pixel. *)
Variable measureText : R -> jsstring -> R.
Hypothesis measure_scales :
  forall (f : R) (t : jsstring), measureText f t = f * measureText 1 t.

Lemma drawAutoFitText_ops (ctx : Ctx) (t : jsstring) (x y B base : R) :
  let ctx' := drawAutoFitText measureText ctx t x y B base in
  ops ctx' = ops ctx ++ [FillText t x y (font ctx')].
Proof.
  unfold drawAutoFitText; simpl.
  destruct (bool_decide (measureText base t > B) && bool_decide (B > 0));
    reflexivity.
Qed.

Lemma drawAutoFitText_font (ctx : Ctx) (t : jsstring) (x y B base : R) :
  font (drawAutoFitText measureText ctx t x y B base)
  = if bool_decide (measureText base t > B) && bool_decide (B > 0)
    then base * (B / measureText base t) else base.
Proof.
  unfold drawAutoFitText; simpl.
  destruct (bool_decide (measureText base t > B) && bool_decide (B > 0));
    reflexivity.
Qed.

Lemma shrunk_width (t : jsstring) (B base : R) :
  measureText base t > B -> B > 0 ->
  measureText (base * (B / measureText base t)) t = B.
Proof.
  intros Hover HB.
  rewrite (measure_scales (base * (B / measureText base t))).
  assert (Hw : measureText base t = base * measureText 1 t)
    by apply measure_scales.
  set (w := measureText base t) in *.
  assert (Hw0 : w <> 0) by lra.
  replace (base * (B / w) * measureText 1 t)
    with ((base * measureText 1 t) * (B / w)) by ring.
  rewrite <- Hw. field. exact Hw0.
Qed.

(** C2, amended. [drawAutoFitText] draws the whole text once, on one
line.  For a box of positive width [B] the font size it draws at has a
measured width of at most [B]; when the width measured at the base size
is already at most [B] the base size is kept.  For [B <= 0] the guard
[maxWidth > 0] keeps the base size, whatever the measured width.  For a
segment the base size is the nominal
[fontSize * canvasWidth / viewportWidth] and the box is
[widthRatio * canvasWidth].  (The measurement is the ideal one, which
scales with the font size.) *)
Theorem autoFit_fits_box (ctx : Ctx) (t : jsstring) (x y B base : R) :
  let ctx' := drawAutoFitText measureText ctx t x y B base in
  ops ctx' = ops ctx ++ [FillText t x y (font ctx')]
  /\ (0 < B -> measureText (font ctx') t <= B)
  /\ (measureText base t <= B -> font ctx' = base)
  /\ (B <= 0 -> font ctx' = base)
  /\ forall (canvasWidth canvasHeight : R) (seg : TextSegment),
       drawSegmentText measureText canvasWidth canvasHeight ctx seg
       = drawAutoFitText measureText ctx (text seg)
           (xRatio seg * canvasWidth) (yRatio seg * canvasHeight)
           (widthRatio seg * canvasWidth)
           (fontSize seg * canvasWidth / viewportWidth seg).
Proof.
  intros ctx'. split; [apply drawAutoFitText_ops |].
  subst ctx'. rewrite drawAutoFitText_font.
  split; [| split; [| split]].
  - intros HB.
    destruct (bool_decide (measureText base t > B)) eqn:Hover; simpl.
    + apply bool_decide_eq_true in Hover.
      rewrite bool_decide_eq_true_2 by lra.
      rewrite shrunk_width by lra. lra.
    + apply bool_decide_eq_false in Hover. lra.
  - intros Hfit.
    rewrite (bool_decide_eq_false_2 (measureText base t > B)) by lra.
    reflexivity.
  - intros Hempty.
    rewrite (bool_decide_eq_false_2 (B > 0)) by lra.
    rewrite andb_false_r. reflexivity.
  - intros cw ch seg. unfold drawSegmentText. f_equal.
    unfold Rdiv. ring.
Qed.

End AutoFit.

Section AutoFitExamples.
Open Scope R_scope.

(** A measurement that scales: every code unit is as wide as the font
size. *)
Definition monoMeasure (f : R) (t : jsstring) : R := f * INR (length t).

Lemma monoMeasure_scales (f : R) (t : jsstring) :
  monoMeasure f t = f * monoMeasure 1 t.
Proof. unfold monoMeasure. ring. Qed.

Definition blankCtx : Ctx := {| font := 10; ops := [] |}.

(** C2, as stated, fails for a box of width 0 (a segment whose item has
width 0): the guard [maxWidth > 0] keeps the base size, and the text is
drawn wider than the box. *)
Lemma autoFit_overflows_empty_box :
  let ctx' := drawAutoFitText monoMeasure blankCtx (js "ab") 0 0 0 12 in
  ops ctx' = [FillText (js "ab") 0 0 12]
  /\ ~ (monoMeasure (font ctx') (js "ab") <= 0).
Proof.
  unfold drawAutoFitText; simpl.
  rewrite (bool_decide_eq_false_2 (0 > 0)) by lra.
  rewrite andb_false_r. simpl. split; [reflexivity |].
  unfold monoMeasure; simpl. lra.
Qed.

(** The text ["ab"], 24 wide at the base size 12: shrunk into a box 6
wide, left alone in a box 30 wide, and left alone, though wider, in a
box of width 0 or below. *)
Lemma autoFit_fits_box_witness :
  monoMeasure
    (font (drawAutoFitText monoMeasure blankCtx (js "ab") 0 0 6 12))
    (js "ab") <= 6
  /\ font (drawAutoFitText monoMeasure blankCtx (js "ab") 0 0 30 12) = 12
  /\ font (drawAutoFitText monoMeasure blankCtx (js "ab") 0 0 0 12) = 12
  /\ font (drawAutoFitText monoMeasure blankCtx (js "ab") 0 0 (-5) 12) = 12.
Proof.
  split; [| split; [| split]].
  - apply (proj1 (proj2 (autoFit_fits_box monoMeasure monoMeasure_scales
                           blankCtx (js "ab") 0 0 6 12))).
    lra.
  - apply (proj1 (proj2 (proj2 (autoFit_fits_box monoMeasure
                                  monoMeasure_scales
                                  blankCtx (js "ab") 0 0 30 12)))).
    unfold monoMeasure; simpl; lra.
  - apply (proj1 (proj2 (proj2 (proj2 (autoFit_fits_box monoMeasure
                                         monoMeasure_scales
                                         blankCtx (js "ab") 0 0 0 12))))).
    lra.
  - apply (proj1 (proj2 (proj2 (proj2 (autoFit_fits_box monoMeasure
                                         monoMeasure_scales
                                         blankCtx (js "ab") 0 0 (-5) 12))))).
    lra.
Defined.

End AutoFitExamples.

(** ** Selection: sets of indices *)

Section IndexSets.

Lemma setAdd_elem (acc : list Z) (v x : Z) :
  x ∈ setAdd acc v <-> x ∈ acc \/ x = v.
Proof.
  unfold setAdd. case_bool_decide as Hv.
  - split; [intros H; left; exact H |].
    intros [H | ->]; assumption.
  - rewrite elem_of_app, list_elem_of_singleton. reflexivity.
Qed.

Lemma setAdd_NoDup (acc : list Z) (v : Z) :
  NoDup acc -> NoDup (setAdd acc v).
Proof.
  intros Hnd. unfold setAdd. case_bool_decide as Hv; [exact Hnd |].
  apply NoDup_app. split; [exact Hnd |]. split.
  - intros x Hx Hx'. apply list_elem_of_singleton in Hx'. subst x.
    contradiction.
  - apply NoDup_singleton.
Qed.

Lemma fold_setAdd_elem (l acc : list Z) (x : Z) :
  x ∈ fold_left setAdd l acc <-> x ∈ acc \/ x ∈ l.
Proof.
  revert acc. induction l as [|v l IH]; intros acc; simpl.
  - split; [intros H; left; exact H |].
    intros [H | H]; [exact H | inversion H].
  - rewrite IH, setAdd_elem, elem_of_cons. tauto.
Qed.

Lemma fold_setAdd_NoDup (l acc : list Z) :
  NoDup acc -> NoDup (fold_left setAdd l acc).
Proof.
  revert acc. induction l as [|v l IH]; intros acc Hnd; simpl.
  - exact Hnd.
  - apply IH. apply setAdd_NoDup. exact Hnd.
Qed.

(** [Array.from(new Set(l))] has the elements of [l], once each. *)
Lemma arrayFromSet_elem (l : list Z) (x : Z) : x ∈ arrayFromSet l <-> x ∈ l.
Proof.
  unfold arrayFromSet. rewrite fold_setAdd_elem.
  split; [intros [H | H]; [inversion H | exact H] | intros H; right; exact H].
Qed.

Lemma arrayFromSet_NoDup (l : list Z) : NoDup (arrayFromSet l).
Proof. apply fold_setAdd_NoDup. apply NoDup_nil_2. Qed.

Lemma toggle_elem (sel : list Z) (best x : Z) :
  x ∈ toggle sel best
  <-> (x = best /\ best ∉ sel) \/ (x <> best /\ x ∈ sel).
Proof.
  unfold toggle. case_bool_decide as Hin.
  - rewrite list_elem_of_In, List.filter_In, <- list_elem_of_In.
    rewrite negb_true_iff, Z.eqb_neq. tauto.
  - rewrite elem_of_app, list_elem_of_singleton.
    destruct (decide (x = best)) as [-> | Hne]; tauto.
Qed.

(** Toggling the same index twice gives back the same set. *)
Lemma toggle_twice_elem (sel : list Z) (best x : Z) :
  x ∈ toggle (toggle sel best) best <-> x ∈ sel.
Proof.
  rewrite !toggle_elem.
  destruct (decide (x = best)) as [-> | Hne].
  - destruct (decide (best ∈ sel)); tauto.
  - tauto.
Qed.

(** When the index was not selected, the very same array comes back. *)
Lemma toggle_twice_fresh (sel : list Z) (best : Z) :
  best ∉ sel -> toggle (toggle sel best) best = sel.
Proof.
  intros Hnot. unfold toggle at 2.
  rewrite bool_decide_eq_false_2 by exact Hnot.
  unfold toggle. rewrite bool_decide_eq_true_2
    by (apply elem_of_app; right; apply list_elem_of_singleton; reflexivity).
  rewrite List.filter_app. simpl. rewrite Z.eqb_refl. simpl.
  rewrite app_nil_r.
  induction sel as [|a sel IH]; [reflexivity |].
  simpl. apply not_elem_of_cons in Hnot. destruct Hnot as [Hne Hnot].
  destruct (Z.eqb_spec a best) as [Heq | _]; [congruence |].
  simpl. f_equal. apply IH. exact Hnot.
Qed.

End IndexSets.

(** ** Selection: geometry *)

Section Geometry.
Open Scope R_scope.

(** An axis-aligned box, [y] growing downwards. *)
Record Box := mkBox { bleft : R; bright : R; btop : R; bbottom : R }.

(** The standard overlap test of two axis-aligned boxes. *)
Definition overlaps (a b : Box) : Prop :=
  bleft a < bright b /\ bright a > bleft b
  /\ btop a < bbottom b /\ bbottom a > btop b.

(** The bounding box of a segment:
[xRatio .. xRatio + widthRatio] by [yRatio - heightRatio .. yRatio]. *)
Definition segmentBox (s : TextSegment) : Box :=
  {| bleft := xRatio s; bright := xRatio s + widthRatio s;
     btop := yRatio s - heightRatio s; bbottom := yRatio s |}.

(** The box spanned by two points. *)
Definition spannedBox (p q : Point) : Box :=
  {| bleft := Rmin (px p) (px q); bright := Rmax (px p) (px q);
     btop := Rmin (py p) (py q); bbottom := Rmax (py p) (py q) |}.

(** The Euclidean distance of two points. *)
Definition dist (p q : Point) : R :=
  sqrt ((px p - px q) ^ 2 + (py p - py q) ^ 2).

(** The anchor point of a segment: the middle of its bounding box. *)
Definition anchor (s : TextSegment) : Point :=
  {| px := xRatio s + widthRatio s / 2; py := yRatio s - heightRatio s / 2 |}.

(** The segments of a page, none when the field is absent. *)
Definition pageSegments (pg : TranslatedPage) : list TextSegment :=
  match segments pg with Some segs => segs | None => [] end.

(** Two boxes of positive extent overlap exactly when some point lies
strictly inside both. *)
Lemma overlaps_common_point (a b : Box) :
  bleft a < bright a -> btop a < bbottom a ->
  bleft b < bright b -> btop b < bbottom b ->
  (overlaps a b
   <-> exists x y, bleft a < x < bright a /\ btop a < y < bbottom a
                   /\ bleft b < x < bright b /\ btop b < y < bbottom b).
Proof.
  intros Ha1 Ha2 Hb1 Hb2. unfold overlaps. split.
  - intros [H1 [H2 [H3 H4]]].
    exists ((Rmax (bleft a) (bleft b) + Rmin (bright a) (bright b)) / 2),
           ((Rmax (btop a) (btop b) + Rmin (bbottom a) (bbottom b)) / 2).
    unfold Rmax, Rmin.
    repeat destruct (Rle_dec _ _); repeat split; lra.
  - intros [x [y [Hx [Hy [Hx' Hy']]]]]. repeat split; lra.
Qed.

Lemma hitStep_elem (x1 x2 y1 y2 : R) (acc : list Z) (s : TextSegment)
    (i x : Z) :
  x ∈ hitStep x1 x2 y1 y2 acc s i
  <-> x ∈ acc
      \/ (x = i
          /\ overlaps (segmentBox s)
               {| bleft := x1; bright := x2; btop := y1; bbottom := y2 |}).
Proof.
  unfold hitStep, overlaps; simpl.
  destruct (bool_decide (xRatio s < x2) && bool_decide (xRatio s + widthRatio s > x1)
            && bool_decide (yRatio s - heightRatio s < y2)
            && bool_decide (yRatio s > y1)) eqn:Hb.
  - rewrite !andb_true_iff, !bool_decide_eq_true in Hb.
    rewrite elem_of_app, list_elem_of_singleton. tauto.
  - split; [intros H; left; exact H |].
    intros [H | [_ H]]; [exact H |].
    assert (Ht : bool_decide (xRatio s < x2)
                 && bool_decide (xRatio s + widthRatio s > x1)
                 && bool_decide (yRatio s - heightRatio s < y2)
                 && bool_decide (yRatio s > y1) = true).
    { rewrite !andb_true_iff, !bool_decide_eq_true. tauto. }
    congruence.
Qed.

Lemma reduce_hitStep_elem (x1 x2 y1 y2 : R) (segs : list TextSegment)
    (k : Z) (acc : list Z) (x : Z) :
  x ∈ reduceFrom (hitStep x1 x2 y1 y2) k segs acc
  <-> x ∈ acc
      \/ exists (n : nat) (s : TextSegment),
           segs !! n = Some s /\ x = (k + Z.of_nat n)%Z
           /\ overlaps (segmentBox s)
                {| bleft := x1; bright := x2; btop := y1; bbottom := y2 |}.
Proof.
  revert k acc. induction segs as [|s0 segs IH]; intros k acc; simpl.
  - split; [intros H; left; exact H |].
    intros [H | [n [s [Hl _]]]]; [exact H | discriminate].
  - rewrite IH, hitStep_elem. split.
    + intros [[H | [-> Hov]] | [n [s [Hl [-> Hov]]]]].
      * left; exact H.
      * right. exists 0%nat, s0. split; [reflexivity |].
        split; [lia | exact Hov].
      * right. exists (S n), s. split; [exact Hl |].
        split; [lia | exact Hov].
    + intros [H | [n [s [Hl [-> Hov]]]]].
      * left; left; exact H.
      * destruct n as [|n]; simpl in Hl.
        -- injection Hl as ->. left; right. split; [lia | exact Hov].
        -- right. exists n, s. split; [exact Hl |].
           split; [lia | exact Hov].
Qed.

(** The indices [boxHits] collects: those of the segments whose box
overlaps the box spanned by the two points. *)
Lemma boxHits_elem (pg : TranslatedPage) (p q : Point) (x : Z) :
  x ∈ boxHits pg p q
  <-> exists (n : nat) (s : TextSegment),
        pageSegments pg !! n = Some s /\ x = Z.of_nat n
        /\ overlaps (segmentBox s) (spannedBox p q).
Proof.
  unfold boxHits, pageSegments, reduce, spannedBox.
  destruct (segments pg) as [segs|].
  - rewrite reduce_hitStep_elem. split.
    + intros [H | [n [s [Hl [-> Hov]]]]]; [inversion H |].
      exists n, s. split; [exact Hl |]. split; [lia | exact Hov].
    + intros [n [s [Hl [-> Hov]]]]. right.
      exists n, s. split; [exact Hl |]. split; [lia | exact Hov].
  - split; [intros H; inversion H |].
    intros [n [s [Hl _]]]. discriminate.
Qed.

End Geometry.

(** ** Selection: the box gestures *)

Section BoxSelection.
Open Scope R_scope.

(** What a box selection reports: the page number, and a duplicate-free
array holding the previous selection together with exactly the indices
of the segments whose box overlaps the box spanned by [p] and [q]. *)
Definition isBoxSelection (props : Props) (p q : Point)
    (report : option (list Z * nat)) : Prop :=
  exists sel : list Z,
    report = Some (sel, pageNumber (page props))
    /\ NoDup sel
    /\ forall i : Z,
         i ∈ sel
         <-> i ∈ selectedIndices props
             \/ exists (n : nat) (s : TextSegment),
                  pageSegments (page props) !! n = Some s
                  /\ i = Z.of_nat n
                  /\ overlaps (segmentBox s) (spannedBox p q).

Lemma union_isBoxSelection (props : Props) (p q : Point) :
  isBoxSelection props p q
    (Some (arrayFromSet (selectedIndices props ++ boxHits (page props) p q),
           pageNumber (page props))).
Proof.
  eexists. split; [reflexivity |]. split; [apply arrayFromSet_NoDup |].
  intros i. rewrite arrayFromSet_elem, elem_of_app, boxHits_elem.
  reflexivity.
Qed.

Lemma handleMouseUp_points (props : Props) (g : Gesture) (e a : Point) :
  isEditMode props = true -> selectionMode props = points ->
  pointAnchor g = Some a ->
  handleMouseUp props g e
  = ({| dragStart := dragStart g; dragCurrent := dragCurrent g;
        pointAnchor := None |},
     Some (arrayFromSet (selectedIndices props ++ boxHits (page props) a e),
           pageNumber (page props))).
Proof.
  intros Hedit Hmode Ha. unfold handleMouseUp.
  rewrite Hedit, Hmode, Ha. reflexivity.
Qed.

Lemma handleMouseUp_area_drag (props : Props) (g : Gesture) (e d : Point) :
  isEditMode props = true -> selectionMode props = area ->
  dragStart g = Some d -> Rabs (px e - px d) > 0.01 ->
  handleMouseUp props g e
  = ({| dragStart := None; dragCurrent := None;
        pointAnchor := pointAnchor g |},
     Some (arrayFromSet (selectedIndices props ++ boxHits (page props) d e),
           pageNumber (page props))).
Proof.
  intros Hedit Hmode Hd Hdx. unfold handleMouseUp.
  rewrite Hedit, Hmode, Hd. simpl.
  rewrite (bool_decide_eq_true_2 _ Hdx). reflexivity.
Qed.

(** C3, amended. In edit mode, the second pointer-up of a [points]
gesture, and the pointer-up of an [area] drag with a recorded start and
a horizontal move of more than 0.01, report the previous selection
united, without duplicates, with exactly the indices of the segments
whose bounding box overlaps the box spanned by the two gesture points.
An [area] drag whose horizontal move is at most 0.01 reports no union:
it reports what the nearest-point picking gives at the release point.
A segment with ratios (0.2, 0.3, 0.1, 0.05) overlaps the box
(0.15,0.2)-(0.35,0.3) and does not overlap (0.5,0.5)-(0.6,0.6). *)
Theorem box_selection_reports_union (props : Props) (g : Gesture)
    (e : Point) :
  isEditMode props = true ->
  (selectionMode props = points ->
   forall a : Point, pointAnchor g = Some a ->
     isBoxSelection props a e (snd (handleMouseUp props g e)))
  /\ (selectionMode props = area ->
      forall d : Point, dragStart g = Some d ->
        Rabs (px e - px d) > 0.01 ->
        isBoxSelection props d e (snd (handleMouseUp props g e)))
  /\ (selectionMode props = area ->
      forall d : Point, dragStart g = Some d ->
        Rabs (px e - px d) <= 0.01 ->
        snd (handleMouseUp props g e) = pickNearest props e)
  /\ (forall s : TextSegment,
        xRatio s = 0.2 -> yRatio s = 0.3 ->
        widthRatio s = 0.1 -> heightRatio s = 0.05 ->
        overlaps (segmentBox s)
                 (spannedBox (mkPoint 0.15 0.2) (mkPoint 0.35 0.3))
        /\ ~ overlaps (segmentBox s)
                      (spannedBox (mkPoint 0.5 0.5) (mkPoint 0.6 0.6))).
Proof.
  intros Hedit. split; [| split; [| split]].
  - intros Hmode a Ha.
    rewrite (handleMouseUp_points props g e a Hedit Hmode Ha). simpl.
    apply union_isBoxSelection.
  - intros Hmode d Hd Hdx.
    rewrite (handleMouseUp_area_drag props g e d Hedit Hmode Hd Hdx). simpl.
    apply union_isBoxSelection.
  - intros Hmode d Hd Hdx. unfold handleMouseUp.
    rewrite Hedit, Hmode, Hd. simpl.
    rewrite (bool_decide_eq_false_2 (Rabs (px e - px d) > 0.01)) by lra.
    reflexivity.
  - intros s Hx Hy Hw Hh. unfold overlaps, segmentBox, spannedBox; simpl.
    rewrite Hx, Hy, Hw, Hh. unfold Rmin, Rmax.
    repeat destruct (Rle_dec _ _); split; try lra.
Qed.

(** The segment of the example, on page 1, with nothing selected. *)
Definition exampleSegment : TextSegment :=
  {| text := js "Hello"; originalText := Some (js "Hello");
     segWidth := 61.2; segHeight := 39.6; fontSize := 39.6;
     xRatio := 0.2; yRatio := 0.3; widthRatio := 0.1; heightRatio := 0.05;
     viewportWidth := 612; viewportHeight := 792;
     segFontName := "g_d0_f1" |}.

Definition examplePage : TranslatedPage :=
  {| pageNumber := 1; pageOriginalText := js "Hello"; translatedHtml := [];
     imageData := Some ""%string; segments := Some [exampleSegment];
     mode := ORIGINAL_OVERLAY |}.

Definition exampleProps (m : SelectionMode) (sel : list Z) : Props :=
  {| page := examplePage; isEditMode := true; selectionMode := m;
     selectedIndices := sel |}.

Definition idle : Gesture :=
  {| dragStart := None; dragCurrent := None; pointAnchor := None |}.

Definition dragFrom (p : Point) : Gesture :=
  {| dragStart := Some p; dragCurrent := None; pointAnchor := None |}.

Lemma Rabs_gt (x c : R) : c < x -> Rabs x > c.
Proof. intros H. unfold Rabs. destruct (Rcase_abs x); lra. Qed.

(** The second click of a [points] gesture. *)
Definition anchoredAt (p : Point) : Gesture :=
  {| dragStart := None; dragCurrent := None; pointAnchor := Some p |}.

Lemma box_selection_reports_union_witness :
  isBoxSelection (exampleProps area []) (mkPoint 0.15 0.2) (mkPoint 0.35 0.3)
    (snd (handleMouseUp (exampleProps area []) (dragFrom (mkPoint 0.15 0.2))
                        (mkPoint 0.35 0.3)))
  /\ isBoxSelection (exampleProps points [0%Z]) (mkPoint 0.5 0.5)
       (mkPoint 0.6 0.6)
       (snd (handleMouseUp (exampleProps points [0%Z])
                           (anchoredAt (mkPoint 0.5 0.5))
                           (mkPoint 0.6 0.6))).
Proof.
  split.
  - refine (proj1 (proj2 (box_selection_reports_union (exampleProps area [])
                            (dragFrom (mkPoint 0.15 0.2)) (mkPoint 0.35 0.3)
                            eq_refl))
                  eq_refl (mkPoint 0.15 0.2) eq_refl _).
    simpl. apply Rabs_gt. lra.
  - exact (proj1 (box_selection_reports_union (exampleProps points [0%Z])
                    (anchoredAt (mkPoint 0.5 0.5)) (mkPoint 0.6 0.6)
                    eq_refl)
                 eq_refl (mkPoint 0.5 0.5) eq_refl).
Defined.

End BoxSelection.

(** ** Selection: nearest-point picking *)

Section NearestPick.
Open Scope R_scope.

(** Index [n] is the segment the picking is about: its anchor is nearer
than 0.05 to [e], no anchor is nearer, and among the anchors equally near
it comes first. *)
Definition isNearest (segs : list TextSegment) (e : Point) (n : nat) : Prop :=
  exists s : TextSegment,
    segs !! n = Some s
    /\ dist e (anchor s) < 0.05
    /\ (forall (m : nat) (s' : TextSegment),
          segs !! m = Some s' -> dist e (anchor s) <= dist e (anchor s'))
    /\ (forall (m : nat) (s' : TextSegment),
          (m < n)%nat -> segs !! m = Some s' ->
          dist e (anchor s) < dist e (anchor s')).

Definition withSelection (props : Props) (sel : list Z) : Props :=
  {| page := page props; isEditMode := isEditMode props;
     selectionMode := selectionMode props; selectedIndices := sel |}.

Definition withMode (props : Props) (m : SelectionMode) : Props :=
  {| page := page props; isEditMode := isEditMode props;
     selectionMode := m; selectedIndices := selectedIndices props |}.

Lemma nearestStep_dist (e : Point) (st : Z * R) (s : TextSegment) (i : Z) :
  nearestStep e st s i
  = if bool_decide (dist e (anchor s) < snd st)
    then (i, dist e (anchor s)) else st.
Proof. reflexivity. Qed.

(** The search either keeps its initial state, no anchor being nearer
than the initial bound, or ends on the first of the nearest anchors. *)
Lemma reduce_nearestStep (e : Point) (segs : list TextSegment) (k best : Z)
    (minD : R) :
  (reduceFrom (nearestStep e) k segs (best, minD) = (best, minD)
   /\ forall (n : nat) (s : TextSegment),
        segs !! n = Some s -> minD <= dist e (anchor s))
  \/ exists (n : nat) (s : TextSegment),
       segs !! n = Some s
       /\ reduceFrom (nearestStep e) k segs (best, minD)
          = ((k + Z.of_nat n)%Z, dist e (anchor s))
       /\ dist e (anchor s) < minD
       /\ (forall (m : nat) (s' : TextSegment),
             segs !! m = Some s' -> dist e (anchor s) <= dist e (anchor s'))
       /\ (forall (m : nat) (s' : TextSegment),
             (m < n)%nat -> segs !! m = Some s' ->
             dist e (anchor s) < dist e (anchor s')).
Proof.
  revert k best minD.
  induction segs as [|s0 segs IH]; intros k best minD.
  - left. split; [reflexivity |]. intros n s Hl. discriminate.
  - simpl reduceFrom. rewrite nearestStep_dist. simpl snd.
    case_bool_decide as Hd.
    + destruct (IH (k + 1)%Z k (dist e (anchor s0)))
        as [[Hr Hall] | [n [s [Hl [Hr [Hlt [Hall Hfirst]]]]]]].
      * right. exists 0%nat, s0. split; [reflexivity |].
        split; [rewrite Hr; f_equal; lia |].
        split; [exact Hd |]. split.
        -- intros [|m] s' Hm; simpl in Hm.
           ++ injection Hm as <-. lra.
           ++ eapply Hall; exact Hm.
        -- intros m s' Hlt. lia.
      * right. exists (S n), s. split; [exact Hl |].
        split; [rewrite Hr; f_equal; lia |].
        split; [lra |]. split.
        -- intros [|m] s' Hm; simpl in Hm.
           ++ injection Hm as <-. lra.
           ++ eapply Hall; exact Hm.
        -- intros [|m] s' Hmn Hm; simpl in Hm.
           ++ injection Hm as <-. exact Hlt.
           ++ eapply Hfirst; [| exact Hm]. lia.
    + destruct (IH (k + 1)%Z best minD)
        as [[Hr Hall] | [n [s [Hl [Hr [Hlt [Hall Hfirst]]]]]]].
      * left. split; [exact Hr |].
        intros [|m] s' Hm; simpl in Hm.
        -- injection Hm as <-. lra.
        -- eapply Hall; exact Hm.
      * right. exists (S n), s. split; [exact Hl |].
        split; [rewrite Hr; f_equal; lia |].
        split; [exact Hlt |]. split.
        -- intros [|m] s' Hm; simpl in Hm.
           ++ injection Hm as <-. lra.
           ++ eapply Hall; exact Hm.
        -- intros [|m] s' Hmn Hm; simpl in Hm.
           ++ injection Hm as <-. lra.
           ++ eapply Hfirst; [| exact Hm]. lia.
Qed.

Lemma isNearest_unique (segs : list TextSegment) (e : Point) (n m : nat) :
  isNearest segs e n -> isNearest segs e m -> n = m.
Proof.
  intros [s [Hs [_ [Hall Hfirst]]]] [s' [Hs' [_ [Hall' Hfirst']]]].
  destruct (Nat.lt_trichotomy n m) as [Hlt | [Heq | Hgt]]; [| exact Heq |].
  - pose proof (Hfirst' n s Hlt Hs). pose proof (Hall m s' Hs'). lra.
  - pose proof (Hfirst m s' Hgt Hs'). pose proof (Hall' n s Hs). lra.
Qed.

(** What the search returns as [best]. *)
Lemma nearest_best (pg : TranslatedPage) (e : Point) :
  (fst (nearest pg e) = (-1)%Z
   /\ forall (n : nat) (s : TextSegment),
        pageSegments pg !! n = Some s -> ~ dist e (anchor s) < 0.05)
  \/ exists n : nat,
       fst (nearest pg e) = Z.of_nat n /\ isNearest (pageSegments pg) e n.
Proof.
  unfold nearest, pageSegments, reduce.
  destruct (segments pg) as [segs|].
  - destruct (reduce_nearestStep e segs 0 (-1) 0.05)
      as [[Hr Hall] | [n [s [Hl [Hr [Hlt [Hall Hfirst]]]]]]].
    + left. rewrite Hr. split; [reflexivity |].
      intros n s Hl Hlt. pose proof (Hall n s Hl). lra.
    + right. exists n. rewrite Hr. split; [simpl; lia |].
      exists s. repeat split; assumption.
  - left. split; [reflexivity |]. intros n s Hl. discriminate.
Qed.

Lemma pickNearest_none (props : Props) (e : Point) :
  (forall (n : nat) (s : TextSegment),
     pageSegments (page props) !! n = Some s -> ~ dist e (anchor s) < 0.05) ->
  pickNearest props e = None.
Proof.
  intros Hfar. unfold pickNearest.
  destruct (nearest_best (page props) e) as [[Hb _] | [n [_ [s [Hl [Hlt _]]]]]].
  - rewrite Hb. reflexivity.
  - exfalso. exact (Hfar n s Hl Hlt).
Qed.

Lemma pickNearest_some (props : Props) (e : Point) (n : nat) :
  isNearest (pageSegments (page props)) e n ->
  pickNearest props e
  = Some (toggle (selectedIndices props) (Z.of_nat n),
          pageNumber (page props)).
Proof.
  intros Hn. unfold pickNearest.
  destruct (nearest_best (page props) e) as [[_ Hfar] | [m [Hb Hm]]].
  - exfalso. destruct Hn as [s [Hl [Hlt _]]]. exact (Hfar n s Hl Hlt).
  - rewrite Hb. rewrite (isNearest_unique _ _ _ _ Hn Hm).
    destruct (Z.eqb_spec (Z.of_nat m) (-1)) as [Hneg | _]; [lia |].
    reflexivity.
Qed.

(** In [single] mode a pointer-up is the nearest-point picking. *)
Lemma handleMouseUp_single (props : Props) (g : Gesture) (e : Point) :
  isEditMode props = true -> selectionMode props = single ->
  snd (handleMouseUp props g e) = pickNearest props e.
Proof.
  intros Hedit Hmode. unfold handleMouseUp. rewrite Hedit, Hmode. simpl.
  destruct (dragStart g); reflexivity.
Qed.

End NearestPick.

Section SinglePick.
Open Scope R_scope.

(** C4. In edit mode and [single] mode a pointer-up at [e] reports
nothing when no segment anchor is nearer than 0.05 to [e]; otherwise it
toggles the membership of the nearest segment (the first of them when
several are equally near) and leaves all other indices as they were.  A
second pointer-up at the same point, on the selection the first one
reported, reports the initial selection again: the same set of indices,
and the very same array when the segment was not selected initially.
One of the two cases always applies. *)
Theorem single_pick_toggles (props : Props) (g : Gesture) (e : Point) :
  isEditMode props = true -> selectionMode props = single ->
  ((forall (n : nat) (s : TextSegment),
      pageSegments (page props) !! n = Some s -> ~ dist e (anchor s) < 0.05) ->
   snd (handleMouseUp props g e) = None)
  /\ (forall n : nat, isNearest (pageSegments (page props)) e n ->
      exists sel1 : list Z,
        snd (handleMouseUp props g e) = Some (sel1, pageNumber (page props))
        /\ (Z.of_nat n ∈ sel1 <-> Z.of_nat n ∉ selectedIndices props)
        /\ (forall i : Z, i <> Z.of_nat n ->
              (i ∈ sel1 <-> i ∈ selectedIndices props))
        /\ forall g' : Gesture, exists sel2 : list Z,
             snd (handleMouseUp (withSelection props sel1) g' e)
             = Some (sel2, pageNumber (page props))
             /\ (forall i : Z, i ∈ sel2 <-> i ∈ selectedIndices props)
             /\ (Z.of_nat n ∉ selectedIndices props ->
                 sel2 = selectedIndices props))
  /\ ((forall (n : nat) (s : TextSegment),
         pageSegments (page props) !! n = Some s ->
         ~ dist e (anchor s) < 0.05)
      \/ exists n : nat, isNearest (pageSegments (page props)) e n).
Proof.
  intros Hedit Hmode. split; [| split].
  - intros Hfar. rewrite handleMouseUp_single by assumption.
    apply pickNearest_none. exact Hfar.
  - intros n Hn. exists (toggle (selectedIndices props) (Z.of_nat n)).
    split.
    { rewrite handleMouseUp_single by assumption.
      apply pickNearest_some. exact Hn. }
    split.
    { rewrite toggle_elem. tauto. }
    split.
    { intros i Hi. rewrite toggle_elem. tauto. }
    intros g'.
    exists (toggle (toggle (selectedIndices props) (Z.of_nat n)) (Z.of_nat n)).
    split.
    { rewrite handleMouseUp_single by assumption.
      rewrite (pickNearest_some _ e n) by exact Hn. reflexivity. }
    split.
    { intros i. apply toggle_twice_elem. }
    apply toggle_twice_fresh.
  - destruct (nearest_best (page props) e) as [[_ Hfar] | [n [_ Hn]]].
    + left. exact Hfar.
    + right. exists n. exact Hn.
Qed.

Lemma dist_refl (p : Point) : dist p p = 0.
Proof.
  unfold dist.
  replace ((px p - px p) ^ 2 + (py p - py p) ^ 2) with 0 by ring.
  apply sqrt_0.
Qed.

Lemma exampleSegment_nearest :
  isNearest (pageSegments examplePage) (anchor exampleSegment) 0.
Proof.
  exists exampleSegment. split; [reflexivity |].
  rewrite dist_refl. split; [lra |]. split.
  - intros m s' Hm. unfold dist. apply sqrt_pos.
  - intros m s' Hlt. lia.
Qed.

Lemma single_pick_toggles_witness :
  exists sel1 : list Z,
    snd (handleMouseUp (exampleProps single []) idle (anchor exampleSegment))
    = Some (sel1, 1%nat)
    /\ (0%Z ∈ sel1 <-> 0%Z ∉ @nil Z)
    /\ (forall i : Z, i <> 0%Z -> (i ∈ sel1 <-> i ∈ @nil Z))
    /\ forall g' : Gesture, exists sel2 : list Z,
         snd (handleMouseUp (withSelection (exampleProps single []) sel1) g'
                            (anchor exampleSegment))
         = Some (sel2, 1%nat)
         /\ (forall i : Z, i ∈ sel2 <-> i ∈ @nil Z)
         /\ (0%Z ∉ @nil Z -> sel2 = []).
Proof.
  exact (proj1 (proj2 (single_pick_toggles (exampleProps single []) idle
                         (anchor exampleSegment) eq_refl eq_refl))
               0%nat exampleSegment_nearest).
Defined.

End SinglePick.

(** ** Selection: the dead zone of the area mode *)

Section DeadZone.
Open Scope R_scope.

Lemma handleMouseUp_area_click (props : Props) (g : Gesture) (e : Point) :
  isEditMode props = true -> selectionMode props = area ->
  (dragStart g = None
   \/ exists d : Point, dragStart g = Some d /\ Rabs (px e - px d) <= 0.01) ->
  snd (handleMouseUp props g e) = pickNearest props e.
Proof.
  intros Hedit Hmode Hg. unfold handleMouseUp. rewrite Hedit, Hmode. simpl.
  destruct Hg as [Hd | [d [Hd Hdx]]]; rewrite Hd; [reflexivity |].
  rewrite (bool_decide_eq_false_2 (Rabs (px e - px d) > 0.01)) by lra.
  reflexivity.
Qed.

Lemma pickNearest_withMode (props : Props) (m : SelectionMode) (e : Point) :
  pickNearest (withMode props m) e = pickNearest props e.
Proof. reflexivity. Qed.

(** The horizontal move is at most the distance moved. *)
Lemma Rabs_dx_le_dist (p q : Point) : Rabs (px p - px q) <= dist p q.
Proof.
  unfold dist. rewrite <- sqrt_Rsqr_abs. apply sqrt_le_1_alt.
  rewrite Rsqr_pow2.
  assert (0 <= (py p - py q) ^ 2) by (apply pow2_ge_0). lra.
Qed.

(** C7, amended. In edit mode and [area] mode, pointer-up performs the
box selection exactly when a drag start is recorded and the horizontal
move [|end.x - start.x|] exceeds 0.01; otherwise (no recorded start, or
a horizontal move of at most 0.01, whatever the vertical move) it
reports what [single] mode reports at that point.  Every drag whose
distance is at most 0.01 is of the second kind. *)
Theorem area_dead_zone (props : Props) (g : Gesture) (e : Point) :
  isEditMode props = true -> selectionMode props = area ->
  (forall d : Point, dragStart g = Some d ->
     Rabs (px e - px d) > 0.01 ->
     isBoxSelection props d e (snd (handleMouseUp props g e)))
  /\ (forall d : Point, dragStart g = Some d ->
        Rabs (px e - px d) <= 0.01 ->
        snd (handleMouseUp props g e)
        = snd (handleMouseUp (withMode props single) g e))
  /\ (dragStart g = None ->
      snd (handleMouseUp props g e)
      = snd (handleMouseUp (withMode props single) g e))
  /\ (forall d : Point, dist e d <= 0.01 -> Rabs (px e - px d) <= 0.01).
Proof.
  intros Hedit Hmode. split; [| split; [| split]].
  - intros d Hd Hdx.
    rewrite (handleMouseUp_area_drag props g e d Hedit Hmode Hd Hdx). simpl.
    apply union_isBoxSelection.
  - intros d Hd Hdx.
    rewrite (handleMouseUp_single (withMode props single))
      by (simpl; auto).
    rewrite pickNearest_withMode.
    apply handleMouseUp_area_click; try assumption.
    right. exists d. split; assumption.
  - intros Hd.
    rewrite (handleMouseUp_single (withMode props single))
      by (simpl; auto).
    rewrite pickNearest_withMode.
    apply handleMouseUp_area_click; try assumption.
    left. exact Hd.
  - intros d Hdist. pose proof (Rabs_dx_le_dist e d). lra.
Qed.

Lemma Rabs_le_bound (x c : R) : - c <= x <= c -> Rabs x <= c.
Proof. intros H. unfold Rabs. destruct (Rcase_abs x); lra. Qed.

Lemma sqrt_le_bound (c x : R) : 0 <= c -> x <= c ^ 2 -> sqrt x <= c.
Proof.
  intros Hc Hx. rewrite <- (sqrt_pow2 c Hc). apply sqrt_le_1_alt. exact Hx.
Qed.

(** Three drags over the example segment in [area] mode: one from
(0.1,0.26) to (0.4,0.29), 0.3 wide, taken as a box; one from
(0.245,0.2) to the anchor of the segment, 0.005 wide, taken as a pick
of the segment, as [single] mode does; and one of length 0.01, from
(0.25,0.27) to (0.256,0.278), which is too narrow for a box. *)
Lemma area_dead_zone_witness :
  isBoxSelection (exampleProps area []) (mkPoint 0.1 0.26) (mkPoint 0.4 0.29)
    (snd (handleMouseUp (exampleProps area []) (dragFrom (mkPoint 0.1 0.26))
                        (mkPoint 0.4 0.29)))
  /\ snd (handleMouseUp (exampleProps area [])
                        (dragFrom (mkPoint 0.245 0.2))
                        (anchor exampleSegment))
     = snd (handleMouseUp (withMode (exampleProps area []) single)
                          (dragFrom (mkPoint 0.245 0.2))
                          (anchor exampleSegment))
  /\ snd (handleMouseUp (withMode (exampleProps area []) single)
                        (dragFrom (mkPoint 0.245 0.2))
                        (anchor exampleSegment))
     = Some ([0%Z], 1%nat)
  /\ Rabs (px (mkPoint 0.256 0.278) - px (mkPoint 0.25 0.27)) <= 0.01.
Proof.
  split; [| split; [| split]].
  - refine (proj1 (area_dead_zone (exampleProps area [])
                     (dragFrom (mkPoint 0.1 0.26)) (mkPoint 0.4 0.29)
                     eq_refl eq_refl)
                  (mkPoint 0.1 0.26) eq_refl _).
    simpl. apply Rabs_gt. lra.
  - refine (proj1 (proj2 (area_dead_zone (exampleProps area [])
                            (dragFrom (mkPoint 0.245 0.2))
                            (anchor exampleSegment) eq_refl eq_refl))
                  (mkPoint 0.245 0.2) eq_refl _).
    simpl. apply Rabs_le_bound. lra.
  - rewrite handleMouseUp_single by reflexivity.
    rewrite (pickNearest_some (withMode (exampleProps area []) single)
               (anchor exampleSegment) 0%nat exampleSegment_nearest).
    reflexivity.
  - apply (proj2 (proj2 (proj2 (area_dead_zone (exampleProps area [])
                                  (dragFrom (mkPoint 0.25 0.27))
                                  (mkPoint 0.256 0.278) eq_refl eq_refl)))).
    unfold dist. simpl. apply sqrt_le_bound; [lra | nra].
Defined.

Lemma sqrt_ge (c x : R) : 0 <= c -> c ^ 2 <= x -> c <= sqrt x.
Proof.
  intros Hc Hx. rewrite <- (sqrt_pow2 c Hc). apply sqrt_le_1_alt. exact Hx.
Qed.

(** C7, as stated, fails: a vertical drag of length 0.8 across the
example segment exceeds any dead zone of 0.01, and the box it spans
overlaps the segment, yet pointer-up takes the picking branch and, no
anchor being near the release point, reports nothing. *)
Lemma vertical_drag_not_box_selection :
  let d := mkPoint 0.25 0.1 in
  let e := mkPoint 0.25 0.9 in
  dist d e > 0.01
  /\ overlaps (segmentBox exampleSegment) (spannedBox d e)
  /\ snd (handleMouseUp (exampleProps area []) (dragFrom d) e) = None
  /\ ~ isBoxSelection (exampleProps area []) d e
         (snd (handleMouseUp (exampleProps area []) (dragFrom d) e)).
Proof.
  intros d e.
  assert (Hnone : snd (handleMouseUp (exampleProps area []) (dragFrom d) e)
                  = None).
  { rewrite handleMouseUp_area_click; try reflexivity.
    - apply pickNearest_none. intros n s Hl.
      destruct n as [|n]; [| destruct n; discriminate].
      injection Hl as <-. intros Hlt.
      assert (0.6 <= dist e (anchor exampleSegment)).
      { unfold dist. apply sqrt_ge; [lra |]. simpl. nra. }
      lra.
    - right. exists d. split; [reflexivity |]. simpl.
      replace (0.25 - 0.25) with 0 by lra. rewrite Rabs_R0. lra. }
  split.
  { apply Rlt_gt. apply Rlt_le_trans with 0.8; [lra |].
    unfold dist. apply sqrt_ge; [lra |]. simpl. nra. }
  split.
  { unfold overlaps, segmentBox, spannedBox; simpl. unfold Rmin, Rmax.
    repeat destruct (Rle_dec _ _); lra. }
  split; [exact Hnone |].
  rewrite Hnone. intros [sel [Habs _]]. discriminate.
Qed.

End DeadZone.

(** Settles the comparisons of real constants left in the goal. *)
Ltac decide_comparisons :=
  repeat match goal with
         | |- context [bool_decide ?P] =>
             first [ rewrite (bool_decide_eq_true_2 P) by lra
                   | rewrite (bool_decide_eq_false_2 P) by lra ]
         end.

Section BoxExamples.
Open Scope R_scope.

(** The drag (0.15,0.2)-(0.35,0.3) selects the example segment. *)
Example area_drag_includes :
  snd (handleMouseUp (exampleProps area []) (dragFrom (mkPoint 0.15 0.2))
                     (mkPoint 0.35 0.3))
  = Some ([0%Z], 1%nat).
Proof.
  rewrite (handleMouseUp_area_drag _ _ _ (mkPoint 0.15 0.2));
    try reflexivity; [| simpl; apply Rabs_gt; lra].
  unfold boxHits, reduce, hitStep; simpl.
  rewrite !Rmin_left, !Rmax_right by lra.
  decide_comparisons. reflexivity.
Qed.

(** The drag (0.5,0.5)-(0.6,0.6) does not. *)
Example area_drag_excludes :
  snd (handleMouseUp (exampleProps area []) (dragFrom (mkPoint 0.5 0.5))
                     (mkPoint 0.6 0.6))
  = Some ([], 1%nat).
Proof.
  rewrite (handleMouseUp_area_drag _ _ _ (mkPoint 0.5 0.5));
    try reflexivity; [| simpl; apply Rabs_gt; lra].
  unfold boxHits, reduce, hitStep; simpl.
  rewrite !Rmin_left, !Rmax_right by lra.
  decide_comparisons. reflexivity.
Qed.

(** C3, as stated, fails for an [area] gesture that hardly moves
sideways: a drag of the example segment, selected, from (0.255,0.2) to
its anchor spans a box that overlaps the segment, so that the union
would keep index 0; the handler takes the picking branch instead and
reports the selection without it. *)
Lemma narrow_area_drag_unselects :
  let d := mkPoint 0.255 0.2 in
  let e := anchor exampleSegment in
  let report :=
    snd (handleMouseUp (exampleProps area [0%Z]) (dragFrom d) e) in
  overlaps (segmentBox exampleSegment) (spannedBox d e)
  /\ report = Some ([], 1%nat)
  /\ ~ isBoxSelection (exampleProps area [0%Z]) d e report.
Proof.
  intros d e report.
  assert (Hreport : report = Some ([], 1%nat)).
  { unfold report.
    rewrite handleMouseUp_area_click; try reflexivity.
    - rewrite (pickNearest_some (exampleProps area [0%Z]) e 0%nat
                 exampleSegment_nearest).
      reflexivity.
    - right. exists d. split; [reflexivity |]. simpl.
      apply Rabs_le_bound. lra. }
  split.
  { unfold overlaps, segmentBox, spannedBox; simpl. unfold Rmin, Rmax.
    repeat destruct (Rle_dec _ _); lra. }
  split; [exact Hreport |].
  rewrite Hreport. intros [sel [Heq [_ Hiff]]].
  injection Heq as <-.
  assert (Hin : (0%Z ∈ @nil Z)) by (apply Hiff; left; left).
  inversion Hin.
Qed.

End BoxExamples.

(** ** Storage *)

Section Storage.
Import Db.

Lemma fold_delete_lookup (keys : list string) (m : gmap string PageRec)
    (k : string) :
  fold_left (fun st key => delete key st) keys m !! k
  = if bool_decide (k ∈ keys) then None else m !! k.
Proof.
  revert m. induction keys as [|key keys IH]; intros m; simpl.
  - reflexivity.
  - rewrite IH. destruct (decide (k = key)) as [-> | Hne].
    + rewrite lookup_delete_eq.
      rewrite (bool_decide_eq_true_2 (key ∈ key :: keys))
        by (apply elem_of_cons; left; reflexivity).
      destruct (bool_decide (key ∈ keys)); reflexivity.
    + rewrite lookup_delete_ne by congruence.
      destruct (decide (k ∈ keys)) as [Hin | Hnin].
      * rewrite !bool_decide_eq_true_2;
          [reflexivity | apply elem_of_cons; right; exact Hin | exact Hin].
      * rewrite !bool_decide_eq_false_2; [reflexivity | | exact Hnin].
        intros Hc. apply elem_of_cons in Hc. destruct Hc; contradiction.
Qed.

Lemma indexGetAllKeys_elem (projectId : string) (m : gmap string PageRec)
    (k : string) :
  k ∈ indexGetAllKeys projectId m
  <-> exists r : PageRec, m !! k = Some r /\ pageProjectId r = projectId.
Proof.
  unfold indexGetAllKeys. rewrite list_elem_of_fmap. split.
  - intros [[k' r] [-> Hin]]. apply elem_of_map_to_list in Hin.
    apply map_lookup_filter_Some in Hin. destruct Hin as [Hl Hp].
    exists r. split; [exact Hl | exact Hp].
  - intros [r [Hl Hp]]. exists (k, r). split; [reflexivity |].
    apply elem_of_map_to_list. apply map_lookup_filter_Some.
    split; [exact Hl | exact Hp].
Qed.

Lemma indexGetAll_elem (projectId : string) (m : gmap string PageRec)
    (r : PageRec) :
  r ∈ indexGetAll projectId m
  <-> exists k : string, m !! k = Some r /\ pageProjectId r = projectId.
Proof.
  unfold indexGetAll. rewrite list_elem_of_fmap. split.
  - intros [[k r'] [-> Hin]]. apply elem_of_map_to_list in Hin.
    apply map_lookup_filter_Some in Hin. destruct Hin as [Hl Hp].
    exists k. split; [exact Hl | exact Hp].
  - intros [k [Hl Hp]]. exists (k, r). split; [reflexivity |].
    apply elem_of_map_to_list. apply map_lookup_filter_Some.
    split; [exact Hl | exact Hp].
Qed.

(** The pages of a project are gone from the store after the delete, and
the pages of the other projects are as before. *)
Lemma deleteProject_pages (projectId : string) (db : DB) (k : string) :
  pages (deleteProject projectId db) !! k
  = match pages db !! k with
    | Some r => if bool_decide (pageProjectId r = projectId)
                then None else Some r
    | None => None
    end.
Proof.
  unfold deleteProject; simpl. rewrite fold_delete_lookup.
  destruct (pages db !! k) as [r|] eqn:Hk.
  - case_bool_decide as Hin.
    + apply indexGetAllKeys_elem in Hin. destruct Hin as [r' [Hl Hp]].
      rewrite Hk in Hl. injection Hl as <-.
      rewrite bool_decide_eq_true_2 by exact Hp. reflexivity.
    + case_bool_decide as Hp; [| reflexivity].
      exfalso. apply Hin. apply indexGetAllKeys_elem.
      exists r. split; [exact Hk | exact Hp].
  - destruct (bool_decide _); reflexivity.
Qed.

(** C9. After [deleteProject] the project's record, its file and every
page whose [projectId] is the project's are gone from their stores, and
the lookups report it: no project of that id is in [getAllProjects]
(for a database whose records sit under their own keys), [getFile] gives
[null], and [getProjectPages] gives the empty list. *)
Theorem deleteProject_cascades (projectId : string) (db : DB) :
  keyed db ->
  let db' := deleteProject projectId db in
  projects db' !! projectId = None
  /\ files db' !! projectId = None
  /\ (forall (k : string) (r : PageRec),
        pages db !! k = Some r -> pageProjectId r = projectId ->
        pages db' !! k = None)
  /\ (forall p : Project, p ∈ getAllProjects db' -> projId p <> projectId)
  /\ getFile projectId db' = None
  /\ getProjectPages projectId db' = [].
Proof.
  intros [Hproj _] db'. subst db'.
  split; [apply lookup_delete_eq |].
  split; [apply lookup_delete_eq |].
  split.
  { intros k r Hk Hp. rewrite deleteProject_pages, Hk.
    rewrite bool_decide_eq_true_2 by exact Hp. reflexivity. }
  split.
  { intros p Hin Hid. unfold getAllProjects in Hin.
    apply list_elem_of_fmap in Hin. destruct Hin as [[k p'] [-> Hin]].
    apply elem_of_map_to_list in Hin. simpl in Hin, Hid.
    destruct (decide (k = projectId)) as [-> | Hne].
    - rewrite lookup_delete_eq in Hin. discriminate.
    - rewrite lookup_delete_ne in Hin by congruence.
      apply Hproj in Hin. congruence. }
  split.
  { unfold getFile. simpl. rewrite lookup_delete_eq. reflexivity. }
  unfold getProjectPages.
  destruct (indexGetAll projectId (pages (deleteProject projectId db)))
    as [|r rest] eqn:Hall; [reflexivity |].
  exfalso.
  assert (Hr : r ∈ indexGetAll projectId (pages (deleteProject projectId db)))
    by (rewrite Hall; apply elem_of_cons; left; reflexivity).
  apply indexGetAll_elem in Hr. destruct Hr as [k [Hl Hp]].
  rewrite deleteProject_pages in Hl.
  destruct (pages db !! k) as [r'|]; [| discriminate].
  case_bool_decide as Hp'; [discriminate |].
  injection Hl as ->. contradiction.
Qed.

(** Every [put] and [delete] keeps records under their own keys. *)
Lemma keyed_empty : keyed emptyDB.
Proof.
  repeat split; intros k x Hl; simpl in Hl; rewrite lookup_empty in Hl;
    discriminate.
Qed.

Lemma keyed_saveProject (p : Project) (db : DB) :
  keyed db -> keyed (saveProject p db).
Proof.
  intros [H1 [H2 H3]]. repeat split; simpl; try assumption.
  intros k q Hl. destruct (decide (projId p = k)) as [<- | Hne].
  - rewrite lookup_insert_eq in Hl. injection Hl as <-. reflexivity.
  - rewrite lookup_insert_ne in Hl by exact Hne. apply H1. exact Hl.
Qed.

Lemma keyed_saveFile (projectId : string) (data : list N) (db : DB) :
  keyed db -> keyed (saveFile projectId data db).
Proof.
  intros [H1 [H2 H3]]. repeat split; simpl; try assumption.
  intros k f Hl. destruct (decide (projectId = k)) as [<- | Hne].
  - rewrite lookup_insert_eq in Hl. injection Hl as <-. reflexivity.
  - rewrite lookup_insert_ne in Hl by exact Hne. apply H3. exact Hl.
Qed.

Lemma keyed_savePage (projectId : string) (pg : TranslatedPage) (db : DB) :
  keyed db -> keyed (savePage projectId pg db).
Proof.
  intros [H1 [H2 H3]]. repeat split; simpl; try assumption.
  intros k r Hl.
  destruct (decide (pageKey projectId (pageNumber pg) = k)) as [<- | Hne].
  - rewrite lookup_insert_eq in Hl. injection Hl as <-. reflexivity.
  - rewrite lookup_insert_ne in Hl by exact Hne. apply H2. exact Hl.
Qed.

Lemma keyed_deleteProject (projectId : string) (db : DB) :
  keyed db -> keyed (deleteProject projectId db).
Proof.
  intros [H1 [H2 H3]]. repeat split.
  - intros k p Hl. simpl in Hl. apply lookup_delete_Some in Hl.
    apply H1. tauto.
  - intros k r Hl. rewrite deleteProject_pages in Hl.
    destruct (pages db !! k) as [r'|] eqn:Hk; [| discriminate].
    case_bool_decide; [discriminate |]. injection Hl as <-.
    apply H2. exact Hk.
  - intros k f Hl. simpl in Hl. apply lookup_delete_Some in Hl.
    apply H3. tauto.
Qed.

End Storage.

Section StorageExamples.
Import Db.

Definition bookOne : Project :=
  {| projId := "p1"; projName := "Book one"; projFileName := "one.pdf";
     projNumPages := 2; projInputLanguage := "English";
     projOutputLanguage := "Português" |}.

Definition bookTwo : Project :=
  {| projId := "p2"; projName := "Book two"; projFileName := "two.pdf";
     projNumPages := 1; projInputLanguage := "English";
     projOutputLanguage := "Português" |}.

Definition exampleDb : DB :=
  savePage "p2" examplePage
    (savePage "p1" examplePage
       (saveFile "p1" [37; 80; 68; 70]%N
          (saveProject bookTwo (saveProject bookOne emptyDB)))).

Lemma exampleDb_keyed : keyed exampleDb.
Proof.
  unfold exampleDb.
  repeat first [ apply keyed_savePage | apply keyed_saveFile
               | apply keyed_saveProject | apply keyed_empty ].
Qed.

Lemma deleteProject_cascades_witness :
  let db' := deleteProject "p1" exampleDb in
  projects db' !! "p1"%string = None
  /\ files db' !! "p1"%string = None
  /\ (forall (k : string) (r : PageRec),
        pages exampleDb !! k = Some r -> pageProjectId r = "p1"%string ->
        pages db' !! k = None)
  /\ (forall p : Project, p ∈ getAllProjects db' -> projId p <> "p1"%string)
  /\ getFile "p1" db' = None
  /\ getProjectPages "p1" db' = [].
Proof.
  exact (deleteProject_cascades "p1" exampleDb exampleDb_keyed).
Defined.

(** The other project keeps its record and its page. *)
Example deleteProject_keeps_others :
  projects (deleteProject "p1" exampleDb) !! "p2"%string = Some bookTwo
  /\ (pageData <$> pages (deleteProject "p1" exampleDb) !! "p2_1"%string)
     = Some examplePage.
Proof.
  split.
  - unfold deleteProject, exampleDb; simpl.
    rewrite lookup_delete_ne by discriminate.
    rewrite lookup_insert_eq. reflexivity.
  - rewrite deleteProject_pages. unfold exampleDb; simpl.
    change (pageKey "p2" 1) with "p2_1"%string.
    rewrite lookup_insert_eq. reflexivity.
Qed.

End StorageExamples.

(** ** The translation pass *)

Section PassFacts.
Import App.

Variable env : Env.
Variable cfg : Config.

Lemma forLoop_step (count n : nat) (body : nat -> M unit) (w : World) :
  forLoop (S count) n body w
  = match body n w with
    | (Returns _, w') => forLoop count (S n) body w'
    | (Throws e, w') => (Throws e, w')
    end.
Proof. reflexivity. Qed.

(** A loop whose first [a] rounds return and whose next round throws
stops there. *)
Lemma forLoop_throws (a b n : nat) (body : nat -> M unit) (w w1 w2 : World)
    (e : string) :
  forLoop a n body w = (Returns tt, w1) ->
  body (n + a)%nat w1 = (Throws e, w2) ->
  forLoop (a + S b) n body w = (Throws e, w2).
Proof.
  revert n w. induction a as [|a IH]; intros n w Hpre Hthrow.
  - simpl in Hpre. injection Hpre as <-.
    rewrite Nat.add_0_r in Hthrow. simpl Nat.add. rewrite forLoop_step.
    rewrite Hthrow. reflexivity.
  - simpl Nat.add. rewrite forLoop_step. rewrite forLoop_step in Hpre.
    destruct (body n w) as [[[]|e'] w'] eqn:Hb; [| discriminate].
    apply IH; [exact Hpre |].
    replace (S n + a)%nat with (n + S a)%nat by lia. exact Hthrow.
Qed.

(** What a round of the loop does, given the page. *)
Lemma translatePage_run (pdf : Pdf) (projectId : string) (n : nat)
    (p : PdfPage) (w : World) :
  pdf n = Some p ->
  let segs := extractTextSegments (pageViewport p) (pageItems p) in
  let w1 := record (CallExtractTextSegments n)
              (record (CallGetPageImage n) w) in
  translatePage env cfg pdf projectId n w
  = match translate env cfg n (List.map text segs) w1 with
    | (Returns translatedTexts, w2) =>
        let entry := makeEntry n (pageImage p) segs translatedTexts in
        (Returns tt,
         withLocalPages (λ m, <[n := entry]> m)
           (withStore (Db.savePage projectId entry)
              (record (CallSavePage n) w2)))
    | (Throws e, w2) => (Throws e, w2)
    end.
Proof.
  intros Hp segs w1.
  unfold translatePage, getPageImage, extractTextSegmentsM, getPageM.
  rewrite Hp. unfold mbind, M_bind, mret, M_ret, modify. simpl.
  fold segs. fold w1.
  destruct (translate env cfg n (List.map text segs) w1) as [[tt_|e] w2];
    reflexivity.
Qed.

Lemma translatePage_no_page (pdf : Pdf) (projectId : string) (n : nat)
    (w : World) :
  pdf n = None ->
  translatePage env cfg pdf projectId n w
  = (Throws "Invalid page request.", record (CallGetPageImage n) w).
Proof.
  intros Hp.
  unfold translatePage, getPageImage, extractTextSegmentsM, getPageM.
  rewrite Hp. reflexivity.
Qed.

End PassFacts.

(** ** Merging the translated texts *)

Section Merge.
Import App.

Lemma orElse_nonempty (t dflt : jsstring) : t <> [] -> orElse t dflt = t.
Proof. intros Ht. destruct t; [contradiction | reflexivity]. Qed.

Lemma orElse_cases (t dflt : jsstring) :
  (t <> [] /\ orElse t dflt = t) \/ (t = [] /\ orElse t dflt = dflt).
Proof.
  destruct t as [|c t]; [right | left]; split; try reflexivity; discriminate.
Qed.

Lemma translatedOr_cases (translatedTexts : list jsstring) (i : nat)
    (dflt : jsstring) :
  (exists t, translatedTexts !! i = Some t /\ t <> []
             /\ translatedOr translatedTexts i dflt = t)
  \/ ((translatedTexts !! i = Some [] \/ translatedTexts !! i = None)
      /\ translatedOr translatedTexts i dflt = dflt).
Proof.
  unfold translatedOr. destruct (translatedTexts !! i) as [t|].
  - destruct (orElse_cases t dflt) as [[Hne Heq] | [-> Heq]].
    + left. exists t. repeat split; assumption.
    + right. split; [left; reflexivity | exact Heq].
  - right. split; [right; reflexivity | reflexivity].
Qed.

Lemma mergeSegments_lookup (segs : list TextSegment)
    (translatedTexts : list jsstring) (i : nat) :
  mergeSegments segs translatedTexts !! i
  = mergeSegment translatedTexts i <$> segs !! i.
Proof. unfold mergeSegments. apply list_lookup_imap. Qed.

Lemma mergeSegments_text (segs : list TextSegment)
    (translatedTexts : list jsstring) (i : nat) (s : TextSegment) :
  segs !! i = Some s ->
  text <$> mergeSegments segs translatedTexts !! i
  = Some (translatedOr translatedTexts i (text s)).
Proof. intros Hs. rewrite mergeSegments_lookup, Hs. reflexivity. Qed.


(** A segment like the example one, with another text. *)
Definition segmentWith (t : jsstring) : TextSegment :=
  {| text := t; originalText := None;
     segWidth := 61.2; segHeight := 39.6; fontSize := 39.6;
     xRatio := 0.2; yRatio := 0.3; widthRatio := 0.1; heightRatio := 0.05;
     viewportWidth := 612; viewportHeight := 792;
     segFontName := "g_d0_f1" |}.




(** C10. The saved segment at index [i] carries the response's string
only when that string is there and is not empty.  When the entry at [i]
is the empty string, whatever the length of the response, the segment
keeps the extracted text; so it does when there is no entry at [i]; and
a saved text that differs from the extracted one is the entry at [i],
which is not empty.  [translateFree] treats the parts of its split
response alike: for an empty or missing part it starts from the
original text. *)
Theorem empty_translation_falls_back (segs : list TextSegment)
    (translatedTexts : list jsstring) (i : nat) (s : TextSegment) :
  segs !! i = Some s ->
  let saved := mergeSegments segs translatedTexts in
  (translatedTexts !! i = Some [] -> text <$> saved !! i = Some (text s))
  /\ (translatedTexts !! i = None -> text <$> saved !! i = Some (text s))
  /\ (forall t : jsstring,
        translatedTexts !! i = Some t -> t <> [] ->
        text <$> saved !! i = Some t)
  /\ (forall t : jsstring,
        text <$> saved !! i = Some t -> t <> text s ->
        translatedTexts !! i = Some t /\ t <> [])
  /\ (forall (translatedParts : list jsstring)
             (v : FreeTranslate.VaultEntry),
        FreeTranslate.isCode v = false ->
        (translatedParts !! i = Some [] \/ translatedParts !! i = None) ->
        FreeTranslate.mergePart translatedParts i v
        = FreeTranslate.restoreTokens (FreeTranslate.tokens v)
            (FreeTranslate.original v)).
Proof.
  intros Hs saved. subst saved.
  rewrite (mergeSegments_text _ _ _ _ Hs).
  split.
  { intros Ht. unfold translatedOr. rewrite Ht. reflexivity. }
  split.
  { intros Ht. unfold translatedOr. rewrite Ht. reflexivity. }
  split.
  { intros t Ht Hne. unfold translatedOr. rewrite Ht.
    rewrite orElse_nonempty by exact Hne. reflexivity. }
  split.
  { intros t Ht Hne. injection Ht as Ht.
    destruct (translatedOr_cases translatedTexts i (text s))
      as [[t' [Hl [Hne' Heq]]] | [_ Heq]].
    - rewrite Heq in Ht. subst t'. split; assumption.
    - rewrite Heq in Ht. congruence. }
  intros parts v Hcode Hpart.
  unfold FreeTranslate.mergePart. rewrite Hcode.
  unfold FreeTranslate.partOr.
  destruct Hpart as [-> | ->]; reflexivity.
Qed.

(** A response as long as the input, with an empty first entry. *)
Lemma empty_translation_falls_back_witness :
  text <$> mergeSegments [segmentWith (js "a"); segmentWith (js "b")]
                         [js ""; js "y"] !! 0%nat
  = Some (js "a").
Proof.
  exact (proj1 (empty_translation_falls_back
                  [segmentWith (js "a"); segmentWith (js "b")]
                  [js ""; js "y"] 0%nat (segmentWith (js "a")) eq_refl)
               eq_refl).
Defined.

End Merge.

(** ** The translation pass: failures *)

Section PassFailure.
Import App.

(** The model call fails: it is rejected, or its response has no text,
or the text does not parse. *)
Definition aiFails (o : Gemini.AiOutcome) : Prop :=
  match o with
  | Gemini.AiRejects _ => True
  | Gemini.AiResponse None => True
  | Gemini.AiResponse (Some (Gemini.SyntaxError _)) => True
  | Gemini.AiResponse (Some (Gemini.JsonArray _)) => False
  end.

(** The request of [translateFree] fails: it is rejected, or the status
is not OK, or the body does not parse, or it has no [data[0]]. *)
Definition fetchFails (o : FreeTranslate.FetchOutcome) : Prop :=
  match o with
  | FreeTranslate.FetchRejects _ => True
  | FreeTranslate.FetchResponse false _ => True
  | FreeTranslate.FetchResponse true (FreeTranslate.JsonRejects _) => True
  | FreeTranslate.FetchResponse true (FreeTranslate.JsonData None) => True
  | FreeTranslate.FetchResponse true (FreeTranslate.JsonData (Some _)) => False
  end.

(** [toTranslate.join(delimiter)]: the text [translateFree] sends, the
placeholder standing for each text taken for code. *)
Definition combinedText (isPureCode : jsstring -> bool)
    (protectTokens : jsstring -> jsstring * list (jsstring * jsstring))
    (texts : list jsstring) : jsstring :=
  FreeTranslate.join (js " ||| ")
    (List.map
       (fun v => if FreeTranslate.isCode v then js "---SKIP---"
                 else FreeTranslate.processed v)
       (List.map (FreeTranslate.toVault isPureCode protectTokens) texts)).

(** What the network answers to the request [translateFree] makes for
[texts] in world [w]. *)
Definition freeRequest (env : Env) (cfg : Config) (texts : list jsstring)
    (w : World) : FreeTranslate.FetchOutcome :=
  fetch env (requests w)
    (FreeTranslate.langCode (inputLanguage cfg) "auto")
    (FreeTranslate.langCode (outputLanguage cfg) "pt")
    (combinedText (isPureCode env) (protectTokens env) texts).

(** What [translateFree] writes to the console for an answer: the
caught error of a rejected request, of a status that is not OK and of a
body that does not parse; nothing for a body without [data[0]], which
is returned from without an error. *)
Definition logged (o : FreeTranslate.FetchOutcome) : list string :=
  match o with
  | FreeTranslate.FetchRejects e =>
      [("Falha na tradução com proteção: " +:+ e)%string]
  | FreeTranslate.FetchResponse false _ =>
      [("Falha na tradução com proteção: " +:+ "Google API Error")%string]
  | FreeTranslate.FetchResponse true (FreeTranslate.JsonRejects e) =>
      [("Falha na tradução com proteção: " +:+ e)%string]
  | FreeTranslate.FetchResponse true (FreeTranslate.JsonData _) => []
  end.

Variable env : Env.
Variable cfg : Config.

(** The translation call touches neither the store nor the alerts, and
adds itself to the trace. *)
Lemma translate_frame (n : nat) (texts : list jsstring) (w : World) :
  let r := translate env cfg n texts w in
  store (snd r) = store w
  /\ alerts (snd r) = alerts w
  /\ localPages (snd r) = localPages w
  /\ trace (snd r) = trace w ++ [CallTranslate n].
Proof.
  unfold translate, Gemini.translateEconomic, FreeTranslate.translateFree,
    Gemini.generateM, FreeTranslate.fetchM, tryCatch, throw, modify,
    mbind, M_bind, mret, M_ret.
  simpl.
  destruct (useAI cfg).
  - destruct (Gemini.pickApiKey _ _); [| repeat split; reflexivity].
    destruct texts; [repeat split; reflexivity |].
    destruct (generateContent env _ _ _) as [e | [[e | a] |]];
      repeat split; reflexivity.
  - destruct texts; [repeat split; reflexivity |].
    destruct (fetch env _ _ _ _) as [e | [|] [e | [chunks |]]];
      repeat split; reflexivity.
Qed.

(** The model backend throws whenever its call fails. *)
Lemma translate_ai_throws (n : nat) (texts : list jsstring) (w : World)
    (apiKey : string) :
  useAI cfg = true ->
  Gemini.pickApiKey (Some (apiKeyInput cfg)) (envApiKey env) = Some apiKey ->
  texts <> [] ->
  aiFails (generateContent env (requests w) apiKey texts) ->
  exists (e : string) (w2 : World),
    translate env cfg n texts w = (Throws e, w2) /\ e <> ""%string.
Proof.
  intros Hai Hkey Hne Hfail.
  unfold translate, Gemini.translateEconomic, Gemini.generateM, tryCatch,
    throw, modify, mbind, M_bind, mret, M_ret.
  rewrite Hai, Hkey. destruct texts as [|t texts]; [contradiction |].
  simpl requests.
  destruct (generateContent env (requests w) apiKey (t :: texts))
    as [e | [[e | a] |]]; simpl in Hfail; try contradiction;
    eexists; eexists; (split; [reflexivity | discriminate]).
Qed.

(** The free backend when its request fails: the input texts come back,
no message is shown, the store is untouched, and the console gets the
caught error, if one was thrown. *)
Lemma translate_free_failed (n : nat) (texts : list jsstring) (w : World) :
  useAI cfg = false ->
  exists (r : list jsstring) (w2 : World),
    translate env cfg n texts w = (Returns r, w2)
    /\ alerts w2 = alerts w
    /\ store w2 = store w
    /\ (texts = [] -> r = texts /\ consoleErrors w2 = consoleErrors w)
    /\ (texts <> [] -> fetchFails (freeRequest env cfg texts w) ->
        r = texts
        /\ consoleErrors w2
           = consoleErrors w ++ logged (freeRequest env cfg texts w)).
Proof.
  intros Hfree.
  unfold translate, FreeTranslate.translateFree, FreeTranslate.fetchM,
    tryCatch, throw, modify, mbind, M_bind, mret, M_ret.
  rewrite Hfree. destruct texts as [|t texts].
  - eexists; eexists. split; [reflexivity |]. split; [reflexivity |].
    split; [reflexivity |]. split; [split; reflexivity |].
    intros Hne. contradiction.
  - simpl requests.
    change (fetch env (requests w)
              (FreeTranslate.langCode (inputLanguage cfg) "auto")
              (FreeTranslate.langCode (outputLanguage cfg) "pt")
              (FreeTranslate.join (js " ||| ")
                 (List.map
                    (fun v => if FreeTranslate.isCode v then js "---SKIP---"
                              else FreeTranslate.processed v)
                    (List.map
                       (FreeTranslate.toVault (isPureCode env)
                          (protectTokens env))
                       (t :: texts)))))
      with (freeRequest env cfg (t :: texts) w).
    destruct (freeRequest env cfg (t :: texts) w)
      as [e | [|] [e | [chunks |]]]; simpl;
      eexists; eexists; (split; [reflexivity |]); (split; [reflexivity |]);
      (split; [reflexivity |]); (split; [intros Habs; discriminate |]);
      intros _ Hfail; try contradiction;
      split; first [reflexivity | symmetry; apply app_nil_r].
Qed.

End PassFailure.

Section PassAbort.
Import App.

Variable env : Env.
Variable cfg : Config.
Variable pdf : Pdf.
Variable projectId : string.

Lemma pageKey_inj (n m : nat) :
  Db.pageKey projectId n = Db.pageKey projectId m -> n = m.
Proof.
  unfold Db.pageKey. intros H.
  apply (inj (String.app projectId)) in H.
  apply (inj (String.app "_")) in H.
  apply (inj pretty) in H. exact H.
Qed.

(** A round leaves the alerts alone; it changes the store by saving its
own page when it returns, and not at all when it throws. *)
Lemma translatePage_frame (n : nat) (w : World) :
  let r := translatePage env cfg pdf projectId n w in
  alerts (snd r) = alerts w
  /\ match fst r with
     | Returns _ =>
         exists entry : TranslatedPage,
           pageNumber entry = n
           /\ store (snd r) = Db.savePage projectId entry (store w)
     | Throws _ => store (snd r) = store w
     end.
Proof.
  destruct (pdf n) as [p|] eqn:Hp.
  - rewrite (translatePage_run env cfg pdf projectId n p w Hp).
    set (segs := extractTextSegments (pageViewport p) (pageItems p)).
    set (w1 := record (CallExtractTextSegments n)
                 (record (CallGetPageImage n) w)).
    destruct (translate_frame env cfg n (List.map text segs) w1)
      as [Hst [Hal _]].
    destruct (translate env cfg n (List.map text segs) w1) as [[tt_|e] w2];
      simpl in *.
    + split; [exact Hal |].
      exists (makeEntry n (pageImage p) segs tt_). split; [reflexivity |].
      rewrite Hst. reflexivity.
    + split; [exact Hal | exact Hst].
  - rewrite (translatePage_no_page env cfg pdf projectId n w Hp). simpl.
    split; reflexivity.
Qed.

(** The rounds for the pages from [s] on leave the records of the
earlier pages alone. *)
Lemma forLoop_keeps_earlier (a s : nat) (w : World) (n : nat) :
  (n < s)%nat ->
  Db.pages (store (snd (forLoop a s (translatePage env cfg pdf projectId) w)))
    !! Db.pageKey projectId n
  = Db.pages (store w) !! Db.pageKey projectId n.
Proof.
  revert s w. induction a as [|a IH]; intros s w Hn; [reflexivity |].
  rewrite forLoop_step.
  pose proof (translatePage_frame s w) as [_ Hst].
  destruct (translatePage env cfg pdf projectId s w) as [[[]|e] w'];
    simpl in Hst.
  - rewrite IH by lia. destruct Hst as [entry [Hnum ->]]. simpl.
    rewrite lookup_insert_ne; [reflexivity |].
    rewrite Hnum. intros Heq. apply pageKey_inj in Heq. lia.
  - simpl. rewrite Hst. reflexivity.
Qed.

(** After the rounds for [a] pages have all returned, each of these
pages is in the store, under its key. *)
Lemma forLoop_persists (a s : nat) (w w1 : World) (n : nat) :
  forLoop a s (translatePage env cfg pdf projectId) w = (Returns tt, w1) ->
  (s <= n < s + a)%nat ->
  exists r : Db.PageRec,
    Db.pages (store w1) !! Db.pageKey projectId n = Some r
    /\ Db.pageProjectId r = projectId
    /\ pageNumber (Db.pageData r) = n.
Proof.
  revert s w. induction a as [|a IH]; intros s w Hrun Hn; [lia |].
  rewrite forLoop_step in Hrun.
  pose proof (translatePage_frame s w) as [_ Hst].
  destruct (translatePage env cfg pdf projectId s w) as [[[]|e] w'] eqn:Hround;
    [| discriminate].
  simpl in Hst. destruct Hst as [entry [Hnum Hst]].
  destruct (decide (n = s)) as [-> | Hne].
  - pose proof (forLoop_keeps_earlier a (S s) w' s (Nat.lt_succ_diag_r s))
      as Hkeep.
    rewrite Hrun in Hkeep. simpl in Hkeep. rewrite Hkeep, Hst. simpl.
    rewrite Hnum, lookup_insert_eq. eexists. split; [reflexivity |].
    split; [reflexivity | exact Hnum].
  - apply (IH (S s) w'); [exact Hrun | lia].
Qed.

Lemma startTranslation_run (w : World) :
  pdfInstance cfg = Some pdf -> activeProjectId cfg = Some projectId ->
  nonEmpty projectId = true ->
  useAI cfg && negb (hasStoredKey cfg) = false ->
  startTranslation env cfg w
  = match forLoop (S (Nat.min (numPages cfg) (rangeEnd cfg))
                   - Nat.max 1 (rangeStart cfg))
                  (Nat.max 1 (rangeStart cfg))
                  (translatePage env cfg pdf projectId)
                  (setIsProcessing true w) with
    | (Returns _, w') => (Returns tt, setIsProcessing false w')
    | (Throws e, w') =>
        (Returns tt,
         setIsProcessing false (alert (messageOr e "Erro na tradução.") w'))
    end.
Proof.
  intros Hpdf Hproj Hid Hgate. unfold startTranslation.
  rewrite Hpdf, Hproj, Hid, Hgate.
  unfold finally, tryCatch, modify, mbind, M_bind. simpl.
  destruct (forLoop _ _ _ _) as [[[]|e] w']; reflexivity.
Qed.

(** The rounds of the loop show no message. *)
Lemma forLoop_alerts (a s : nat) (w : World) :
  alerts (snd (forLoop a s (translatePage env cfg pdf projectId) w))
  = alerts w.
Proof.
  revert s w. induction a as [|a IH]; intros s w; [reflexivity |].
  rewrite forLoop_step.
  pose proof (translatePage_frame s w) as [Hal _].
  destruct (translatePage env cfg pdf projectId s w) as [[[]|e] w'];
    simpl in Hal.
  - rewrite IH. exact Hal.
  - exact Hal.
Qed.

(** Merged with its own texts, a list of segments keeps them. *)
Lemma mergeSegments_same_texts (segs : list TextSegment) :
  text <$> mergeSegments segs (List.map text segs) = text <$> segs.
Proof.
  apply list_eq. intros i. rewrite !list_lookup_fmap.
  destruct (segs !! i) as [s|] eqn:Hs.
  - pose proof (mergeSegments_text segs (List.map text segs) i s Hs) as Hm.
    rewrite Hm. simpl. f_equal. unfold translatedOr.
    change (List.map text segs) with (text <$> segs).
    rewrite list_lookup_fmap, Hs. simpl.
    unfold orElse. destruct (truthy (text s)); reflexivity.
  - rewrite mergeSegments_lookup, Hs. reflexivity.
Qed.

(** C6, amended. When the translation call made for page [k] of a pass
throws, the pages before [k] having completed, the pass ends there:
[startTranslation] returns, one alert with the error's message is shown,
the store is as the completed pages left it, each of them under its key,
and after them only page [k] was read and sent to translation, not
saved.  The model backend, with a key and texts to send, throws whenever
its call fails (rejected, no text, text that does not parse).  The free
backend does not: it never throws and shows no message, and when its
request fails it returns the input texts; a rejected request, a status
that is not OK and a body that does not parse are caught and logged to
the console, a body without [data[0]] is returned from without a log.
The round then saves the page with its extracted texts and the pass goes
on with the next page. *)
Theorem pass_aborts_when_translation_throws :
  (forall (k : nat) (p : PdfPage) (w w1 w2 : World) (e : string),
     pdfInstance cfg = Some pdf -> activeProjectId cfg = Some projectId ->
     nonEmpty projectId = true ->
     useAI cfg && negb (hasStoredKey cfg) = false ->
     (Nat.max 1 (rangeStart cfg) <= k
      <= Nat.min (numPages cfg) (rangeEnd cfg))%nat ->
     forLoop (k - Nat.max 1 (rangeStart cfg)) (Nat.max 1 (rangeStart cfg))
       (translatePage env cfg pdf projectId) (setIsProcessing true w)
     = (Returns tt, w1) ->
     pdf k = Some p ->
     translate env cfg k
       (List.map text (extractTextSegments (pageViewport p) (pageItems p)))
       (record (CallExtractTextSegments k) (record (CallGetPageImage k) w1))
     = (Throws e, w2) ->
     exists w' : World,
       startTranslation env cfg w = (Returns tt, w')
       /\ alerts w' = alerts w ++ [messageOr e "Erro na tradução."]
       /\ store w' = store w1
       /\ (forall n : nat,
             (Nat.max 1 (rangeStart cfg) <= n < k)%nat ->
             exists r : Db.PageRec,
               Db.pages (store w') !! Db.pageKey projectId n = Some r
               /\ Db.pageProjectId r = projectId
               /\ pageNumber (Db.pageData r) = n)
       /\ trace w'
          = trace w1 ++ [CallGetPageImage k; CallExtractTextSegments k;
                         CallTranslate k]
       /\ isProcessing w' = false)
  /\ (forall (n : nat) (texts : list jsstring) (w : World) (apiKey : string),
        useAI cfg = true ->
        Gemini.pickApiKey (Some (apiKeyInput cfg)) (envApiKey env)
        = Some apiKey ->
        texts <> [] ->
        aiFails (generateContent env (requests w) apiKey texts) ->
        exists (e : string) (w2 : World),
          translate env cfg n texts w = (Throws e, w2) /\ e <> ""%string)
  /\ (forall (n : nat) (texts : list jsstring) (w : World),
        useAI cfg = false ->
        exists (r : list jsstring) (w2 : World),
          translate env cfg n texts w = (Returns r, w2)
          /\ alerts w2 = alerts w
          /\ store w2 = store w
          /\ (texts <> [] -> fetchFails (freeRequest env cfg texts w) ->
              r = texts
              /\ consoleErrors w2
                 = consoleErrors w ++ logged (freeRequest env cfg texts w)))
  /\ (forall (k : nat) (p : PdfPage) (w : World),
        useAI cfg = false -> pdf k = Some p ->
        let segs := extractTextSegments (pageViewport p) (pageItems p) in
        fetchFails (freeRequest env cfg (List.map text segs) w) ->
        exists w' : World,
          translatePage env cfg pdf projectId k w = (Returns tt, w')
          /\ alerts w' = alerts w
          /\ (exists r : Db.PageRec,
                Db.pages (store w') !! Db.pageKey projectId k = Some r
                /\ Db.pageProjectId r = projectId
                /\ pageNumber (Db.pageData r) = k
                /\ text <$> pageSegments (Db.pageData r) = text <$> segs)
          /\ forall a : nat,
               forLoop (S a) k (translatePage env cfg pdf projectId) w
               = forLoop a (S k) (translatePage env cfg pdf projectId) w').
Proof.
  split; [| split; [| split]].
  - intros k p w w1 w2 e Hpdf Hproj Hid Hgate Hk Hpre Hp Hthrow.
    set (start := Nat.max 1 (rangeStart cfg)) in *.
    set (end_ := Nat.min (numPages cfg) (rangeEnd cfg)) in *.
    assert (Hround : translatePage env cfg pdf projectId k w1
                     = (Throws e, w2)).
    { rewrite (translatePage_run env cfg pdf projectId k p w1 Hp).
      simpl. rewrite Hthrow. reflexivity. }
    pose proof (translate_frame env cfg k
                  (List.map text
                     (extractTextSegments (pageViewport p) (pageItems p)))
                  (record (CallExtractTextSegments k)
                          (record (CallGetPageImage k) w1)))
      as [Hst [Hal [_ Htr]]].
    rewrite Hthrow in Hst, Hal, Htr. simpl in Hst, Hal, Htr.
    assert (Hloop : forLoop (S end_ - start) start
                      (translatePage env cfg pdf projectId)
                      (setIsProcessing true w)
                    = (Throws e, w2)).
    { replace (S end_ - start)%nat
        with ((k - start) + S (end_ - k))%nat by lia.
      apply (forLoop_throws _ _ _ _ _ w1); [exact Hpre |].
      replace (start + (k - start))%nat with k by lia. exact Hround. }
    eexists. split.
    { rewrite (startTranslation_run w Hpdf Hproj Hid Hgate).
      fold start. fold end_. rewrite Hloop. reflexivity. }
    simpl. split.
    { rewrite Hal. f_equal.
      pose proof (forLoop_alerts (k - start) start (setIsProcessing true w))
        as Hquiet.
      rewrite Hpre in Hquiet. exact Hquiet. }
    split; [exact Hst |].
    split.
    { intros n Hn. rewrite Hst.
      apply (forLoop_persists (k - start) start (setIsProcessing true w) w1);
        [exact Hpre | lia]. }
    split; [| reflexivity].
    rewrite Htr. rewrite <- !app_assoc. reflexivity.
  - intros n texts w apiKey. apply translate_ai_throws.
  - intros n texts w Hfree.
    destruct (translate_free_failed env cfg n texts w Hfree)
      as [r [w2 [Hrun [Hal [Hst [_ Hfail]]]]]].
    exists r, w2. split; [exact Hrun |]. split; [exact Hal |].
    split; [exact Hst | exact Hfail].
  - intros k p w Hfree Hp segs Hfail.
    set (w1 := record (CallExtractTextSegments k)
                 (record (CallGetPageImage k) w)).
    destruct (translate_free_failed env cfg k (List.map text segs) w1 Hfree)
      as [r [w2 [Htr [Hal [_ [Hnil Hne]]]]]].
    assert (Hr : r = List.map text segs).
    { destruct (decide (List.map text segs = [])) as [He | He].
      - apply Hnil. exact He.
      - apply Hne; [exact He | exact Hfail]. }
    subst r.
    assert (Hround :
              translatePage env cfg pdf projectId k w
              = (Returns tt,
                 withLocalPages
                   (fun m => <[k := makeEntry k (pageImage p) segs
                                      (List.map text segs)]> m)
                   (withStore
                      (Db.savePage projectId
                         (makeEntry k (pageImage p) segs
                            (List.map text segs)))
                      (record (CallSavePage k) w2)))).
    { rewrite (translatePage_run env cfg pdf projectId k p w Hp).
      cbv zeta. fold segs. fold w1. rewrite Htr. reflexivity. }
    eexists. split; [exact Hround |].
    split; [simpl; exact Hal |].
    split.
    { eexists. split; [simpl; apply lookup_insert_eq |].
      split; [reflexivity |]. split; [reflexivity |].
      simpl. apply mergeSegments_same_texts. }
    intros a. rewrite forLoop_step, Hround. reflexivity.
Qed.

End PassAbort.

Section PassExamples.
Import App.

Definition bookPage : PdfPage :=
  {| pageViewport := letterViewport; pageItems := [onPageItem];
     pageImage := "/9j/4AAQSkZJRg" |}.

(** A document of two pages. *)
Definition twoPagePdf : Pdf :=
  fun n => match n with
           | 1%nat | 2%nat => Some bookPage
           | _ => None
           end.

(** No network: every request is rejected. *)
Definition offlineEnv : Env :=
  {| envApiKey := None;
     generateContent := fun _ _ _ => Gemini.AiRejects "Failed to fetch";
     isPureCode := fun _ => false;
     protectTokens := fun t => (t, []);
     fetch := fun _ _ _ _ => FreeTranslate.FetchRejects "Failed to fetch" |}.

Definition passConfig (ai : bool) : Config :=
  {| pdfInstance := Some twoPagePdf; activeProjectId := Some "p1"%string;
     useAI := ai; hasStoredKey := true; apiKeyInput := "AIza-key";
     rangeStart := 1; rangeEnd := 2; numPages := 2;
     inputLanguage := "English"; outputLanguage := "Português" |}.

Definition freshWorld : World :=
  {| store := Db.saveProject bookOne Db.emptyDB; localPages := ∅;
     alerts := []; consoleErrors := []; isProcessing := false;
     showApiKeyModal := false; requests := 0; trace := [] |}.

(** C6, as stated, fails for the free backend: with every request
rejected, the call for page 1 fails, yet the pass shows no message and
goes on to read, translate and save page 2. *)
Lemma free_backend_failure_does_not_abort :
  let w' := snd (startTranslation offlineEnv (passConfig false) freshWorld) in
  fetchFails (fetch offlineEnv 0 "en" "pt" (js "x"))
  /\ alerts w' = []
  /\ trace w'
     = [CallGetPageImage 1; CallExtractTextSegments 1; CallTranslate 1;
        CallSavePage 1;
        CallGetPageImage 2; CallExtractTextSegments 2; CallTranslate 2;
        CallSavePage 2]
  /\ (forall n : nat, (1 <= n < 3)%nat ->
      exists r : Db.PageRec,
        Db.pages (store w') !! Db.pageKey "p1" n = Some r
        /\ (text <$> default [] (segments (Db.pageData r))) = [js "x"]).
Proof.
  intros w'. split; [exact I |].
  split; [reflexivity |]. split; [reflexivity |].
  intros n Hn. subst w'.
  rewrite (startTranslation_run offlineEnv (passConfig false) twoPagePdf "p1")
    by reflexivity.
  simpl Nat.sub. simpl Nat.max.
  rewrite forLoop_step.
  rewrite (translatePage_run _ _ _ _ 1 bookPage) by reflexivity.
  cbv zeta.
  destruct (translate offlineEnv (passConfig false) 1 _ _)
    as [[r1|e1] w1] eqn:H1; [| discriminate].
  injection H1 as <- <-.
  rewrite forLoop_step.
  rewrite (translatePage_run _ _ _ _ 2 bookPage) by reflexivity.
  cbv zeta.
  destruct (translate offlineEnv (passConfig false) 2 _ _)
    as [[r2|e2] w2] eqn:H2; [| discriminate].
  injection H2 as <- <-.
  destruct (decide (n = 1%nat)) as [-> | Hne].
  - eexists. split.
    + simpl. rewrite lookup_insert_ne
        by (intros Heq; apply pageKey_inj in Heq; discriminate).
      apply lookup_insert_eq.
    + reflexivity.
  - assert (n = 2%nat) as -> by lia.
    eexists. split.
    + simpl. apply lookup_insert_eq.
    + reflexivity.
Qed.

(** A model backend that answers the first request and is out of
reach from the second on. *)
Definition flakyEnv : Env :=
  {| envApiKey := None;
     generateContent :=
       fun sent _ _ =>
         match sent with
         | O => Gemini.AiResponse (Some (Gemini.JsonArray [js "y"]))
         | S _ => Gemini.AiRejects "Failed to fetch"
         end;
     isPureCode := fun _ => false;
     protectTokens := fun t => (t, []);
     fetch := fun _ _ _ _ => FreeTranslate.FetchRejects "Failed to fetch" |}.

(** With the model backend, page 1 is translated and saved and the call
for page 2 throws: one alert, page 1 in the store, page 2 read and sent
but not saved.  With the free backend and no network, the round for
page 1 logs the failure, saves the page with its extracted text and
hands over to the round for page 2. *)
Lemma pass_aborts_when_translation_throws_witness :
  (exists w' : World,
     startTranslation flakyEnv (passConfig true) freshWorld
     = (Returns tt, w')
     /\ alerts w'
        = [("Falha na tradução IA: Failed to fetch"
            +:+ ". Verifique se sua API Key é válida.")%string]
     /\ (exists r : Db.PageRec,
           Db.pages (store w') !! Db.pageKey "p1" 1 = Some r
           /\ Db.pageProjectId r = "p1"%string
           /\ pageNumber (Db.pageData r) = 1%nat)
     /\ trace w'
        = [CallGetPageImage 1; CallExtractTextSegments 1; CallTranslate 1;
           CallSavePage 1;
           CallGetPageImage 2; CallExtractTextSegments 2; CallTranslate 2]
     /\ isProcessing w' = false)
  /\ (exists w' : World,
        translatePage offlineEnv (passConfig false) twoPagePdf "p1" 1
          freshWorld = (Returns tt, w')
        /\ alerts w' = alerts freshWorld
        /\ (exists r : Db.PageRec,
              Db.pages (store w') !! Db.pageKey "p1" 1 = Some r
              /\ Db.pageProjectId r = "p1"%string
              /\ pageNumber (Db.pageData r) = 1%nat
              /\ text <$> pageSegments (Db.pageData r) = [js "x"])
        /\ forall a : nat,
             forLoop (S a) 1
               (translatePage offlineEnv (passConfig false) twoPagePdf "p1")
               freshWorld
             = forLoop a 2
                 (translatePage offlineEnv (passConfig false) twoPagePdf
                    "p1") w').
Proof.
  split.
  - destruct (proj1 (pass_aborts_when_translation_throws flakyEnv
                       (passConfig true) twoPagePdf "p1")
                    2%nat bookPage freshWorld _ _ _
                    eq_refl eq_refl eq_refl eq_refl
                    (conj (le_S 1 1 (le_n 1)) (le_n 2))
                    eq_refl eq_refl eq_refl)
      as [w' [Hrun [Halerts [_ [Hpages [Htrace Hproc]]]]]].
    exists w'. split; [exact Hrun |]. split; [exact Halerts |].
    split; [exact (Hpages 1%nat (conj (le_n 1) (le_n 2))) |].
    split; [exact Htrace | exact Hproc].
  - exact (proj2 (proj2 (proj2 (pass_aborts_when_translation_throws
                                  offlineEnv (passConfig false) twoPagePdf
                                  "p1")))
                 1%nat bookPage freshWorld eq_refl eq_refl I).
Defined.

End PassExamples.

Section FreeBackendExamples.
Import App.

Example splitParts_two : FreeTranslate.splitParts (js "x ||| y") = [js "x"; js "y"].
Proof. reflexivity. Qed.

Example splitParts_tight :
  FreeTranslate.splitParts (js "uno|||dos |||  tres")
  = [js "uno"; js "dos"; js " tres"].
Proof. reflexivity. Qed.

Example restoreTokens_example :
  FreeTranslate.restoreTokens [(js "[[_0_]]", js "npm install")]
    (js "Execute [[_0_]] agora")
  = js "Execute npm install agora".
Proof. reflexivity. Qed.

(** A network that answers every request with the two parts "x" and "y". *)
Definition shortAnswerEnv : Env :=
  {| envApiKey := None;
     generateContent :=
       fun _ _ _ =>
         Gemini.AiResponse (Some (Gemini.JsonArray [js "x"; js "y"]));
     isPureCode := fun _ => false;
     protectTokens := fun t => (t, []);
     fetch :=
       fun _ _ _ _ =>
         FreeTranslate.FetchResponse true
           (FreeTranslate.JsonData (Some [js "x ||| "; js "y"])) |}.

(** With either backend, input ["a","b","c"] and the short answer
["x","y"] end as the texts ["x","y","c"]. *)
Example short_answer_free :
  fst (translate shortAnswerEnv (passConfig false) 1
         [js "a"; js "b"; js "c"] freshWorld)
  = Returns [js "x"; js "y"; js "c"].
Proof. reflexivity. Qed.

Example short_answer_ai :
  let segs := [segmentWith (js "a"); segmentWith (js "b");
               segmentWith (js "c")] in
  fst (translate shortAnswerEnv (passConfig true) 1 (List.map text segs)
         freshWorld)
  = Returns [js "x"; js "y"]
  /\ text <$> mergeSegments segs [js "x"; js "y"] = [js "x"; js "y"; js "c"].
Proof. split; reflexivity. Qed.

End FreeBackendExamples.

Section GestureExamples.
Open Scope R_scope.

(** An area gesture from press to release: the drag selects the example
segment and clears the drag state. *)
Example area_gesture :
  let props := exampleProps area [] in
  let g1 := handleMouseDown props idle (mkPoint 0.15 0.2) in
  let g2 := handleMouseMove g1 (mkPoint 0.35 0.3) in
  g2 = {| dragStart := Some (mkPoint 0.15 0.2);
          dragCurrent := Some (mkPoint 0.35 0.3); pointAnchor := None |}
  /\ handleMouseUp props g2 (mkPoint 0.35 0.3) = (idle, Some ([0%Z], 1%nat)).
Proof.
  split; [reflexivity |].
  rewrite (handleMouseUp_area_drag _ _ _ (mkPoint 0.15 0.2));
    try reflexivity; [| simpl; apply Rabs_gt; lra].
  unfold boxHits, reduce, hitStep; simpl.
  rewrite !Rmin_left, !Rmax_right by lra.
  decide_comparisons. reflexivity.
Qed.

(** A points gesture: the first pointer-up sets the anchor and reports
nothing, the second reports the box selection and clears the anchor. *)
Example points_gesture :
  let props := exampleProps points [] in
  handleMouseUp props idle (mkPoint 0.35 0.3)
  = ({| dragStart := None; dragCurrent := None;
        pointAnchor := Some (mkPoint 0.35 0.3) |}, None)
  /\ handleMouseUp props (fst (handleMouseUp props idle (mkPoint 0.35 0.3)))
                   (mkPoint 0.15 0.2)
     = (idle, Some ([0%Z], 1%nat)).
Proof.
  split; [reflexivity |].
  rewrite (handleMouseUp_points _ _ _ (mkPoint 0.35 0.3)); try reflexivity.
  unfold boxHits, reduce, hitStep; simpl.
  rewrite !Rmin_right, !Rmax_left by lra.
  decide_comparisons. reflexivity.
Qed.

(** Outside edit mode a pointer-up does nothing. *)
Example not_edit_mode (g : Gesture) (e : Point) (m : SelectionMode) :
  handleMouseUp {| page := examplePage; isEditMode := false;
                   selectionMode := m; selectedIndices := [] |} g e
  = (g, None).
Proof. reflexivity. Qed.

End GestureExamples.

Section ExtractionExamples.

Example trim_spaces : trim (js "  a b  ") = js "a b".
Proof. reflexivity. Qed.

Example trim_no_break_space : trim [160; 97; 8232]%N = js "a".
Proof. reflexivity. Qed.

(** A run of blanks is dropped, the runs around it are kept in order. *)
Example extract_drops_blank_runs :
  let blank := {| str := js "   "; transform := transform onPageItem;
                  width := 9; fontName := "g_d0_f1" |} in
  text <$> extractTextSegments letterViewport
             [onPageItem; blank; offPageItem]
  = [js "x"; js "x"]
  /\ length (extractTextSegments letterViewport [blank]) = 0%nat.
Proof. split; reflexivity. Qed.

End ExtractionExamples.

(** * Further properties of the code *)

(** ** The selection held by the application component *)

Module AppSelection.

(** [activeEditPageNumber] and [selectedIndices] of the application
component. *)
Record SelectionState := mkSelectionState {
  activeEditPageNumber : option nat;
  appSelectedIndices : list Z
}.

(** [selectedIndices={isEditingThisPage ? selectedIndices : []}], with
[isEditingThisPage = activeEditPageNumber === n]. *)
Definition selectedIndicesFor (st : SelectionState) (n : nat) : list Z :=
  if bool_decide (activeEditPageNumber st = Some n)
  then appSelectedIndices st else [].

(** [onSelectionChange={(indices, pNum) =>
      { setActiveEditPageNumber(pNum); setSelectedIndices(indices); }}] *)
Definition onSelectionChange (indices : list Z) (pNum : nat)
    : SelectionState :=
  {| activeEditPageNumber := Some pNum; appSelectedIndices := indices |}.

(** The props of the canvas component rendered for page number [n]. *)
Definition propsFor (st : SelectionState) (n : nat) (pg : TranslatedPage)
    (editMode : bool) (mode : SelectionMode) : Props :=
  {| page := pg; isEditMode := editMode; selectionMode := mode;
     selectedIndices := selectedIndicesFor st n |}.

(** A pointer-up on the canvas of page number [n]: the handler runs on
the props above and its callback, if called, sets the selection. *)
Definition pointerUpOn (st : SelectionState) (n : nat) (pg : TranslatedPage)
    (editMode : bool) (mode : SelectionMode) (g : Gesture) (e : Point)
    : SelectionState * Gesture :=
  let r := handleMouseUp (propsFor st n pg editMode mode) g e in
  (match snd r with
   | Some (indices, pNum) => onSelectionChange indices pNum
   | None => st
   end, fst r).

(** The clear and close buttons:
[setSelectedIndices([]); setActiveEditPageNumber(null)]. *)
Definition clearSelection : SelectionState :=
  {| activeEditPageNumber := None; appSelectedIndices := [] |}.

End AppSelection.
Import AppSelection.

Section SelectionInvariant.
Open Scope R_scope.

(** [i] is the index of a segment of the page. *)
Definition validIndex (pg : TranslatedPage) (i : Z) : Prop :=
  (0 <= i < Z.of_nat (length (pageSegments pg)))%Z.

Lemma toggle_NoDup (sel : list Z) (best : Z) :
  NoDup sel -> NoDup (toggle sel best).
Proof.
  intros Hnd. unfold toggle. case_bool_decide as Hin.
  - apply NoDup_ListNoDup. apply List.NoDup_filter.
    apply NoDup_ListNoDup. exact Hnd.
  - apply NoDup_app. split; [exact Hnd |]. split.
    + intros x Hx Hx'. apply list_elem_of_singleton in Hx'. subst x.
      contradiction.
    + apply NoDup_singleton.
Qed.

Lemma boxHits_valid (pg : TranslatedPage) (p q : Point) (i : Z) :
  i ∈ boxHits pg p q -> validIndex pg i.
Proof.
  intros Hi. apply boxHits_elem in Hi. destruct Hi as [n [s [Hl [-> _]]]].
  apply lookup_lt_Some in Hl. unfold validIndex. lia.
Qed.

Lemma isNearest_valid (pg : TranslatedPage) (e : Point) (n : nat) :
  isNearest (pageSegments pg) e n -> validIndex pg (Z.of_nat n).
Proof.
  intros [s [Hl _]]. apply lookup_lt_Some in Hl. unfold validIndex. lia.
Qed.

(** What a pointer-up can report: a box selection or a toggle of the
nearest segment, for the page of the component. *)
Lemma handleMouseUp_report (props : Props) (g : Gesture) (e : Point)
    (sel : list Z) (p : nat) :
  snd (handleMouseUp props g e) = Some (sel, p) ->
  p = pageNumber (page props)
  /\ ((exists a : Point,
         sel = arrayFromSet (selectedIndices props
                             ++ boxHits (page props) a e))
      \/ (exists n : nat,
            isNearest (pageSegments (page props)) e n
            /\ sel = toggle (selectedIndices props) (Z.of_nat n))).
Proof.
  assert (Hpick : pickNearest props e = Some (sel, p) ->
      p = pageNumber (page props)
      /\ exists n : nat,
           isNearest (pageSegments (page props)) e n
           /\ sel = toggle (selectedIndices props) (Z.of_nat n)).
  { intros Hp.
    destruct (nearest_best (page props) e) as [[_ Hfar] | [n [_ Hn]]].
    - rewrite pickNearest_none in Hp by exact Hfar. discriminate.
    - rewrite (pickNearest_some props e n Hn) in Hp.
      injection Hp as <- <-. split; [reflexivity |]. exists n.
      split; [exact Hn | reflexivity]. }
  unfold handleMouseUp.
  destruct (isEditMode props); simpl; [| discriminate].
  case_bool_decide as Hpoints.
  - destruct (pointAnchor g) as [a|]; simpl; [| discriminate].
    intros H. injection H as <- <-. split; [reflexivity |].
    left. exists a. reflexivity.
  - simpl. destruct (dragStart g) as [d|].
    + destruct (bool_decide (selectionMode props = area)
                && bool_decide (Rabs (px e - px d) > 0.01)).
      * intros H. injection H as <- <-. split; [reflexivity |].
        left. exists d. reflexivity.
      * intros H. destruct (Hpick H) as [Hp Hn].
        split; [exact Hp | right; exact Hn].
    + intros H. destruct (Hpick H) as [Hp Hn].
      split; [exact Hp | right; exact Hn].
Qed.

(** A reported selection is for the page of the component, and is a
duplicate-free list of valid indices when the previous one was. *)
Lemma report_valid (props : Props) (g : Gesture) (e : Point)
    (sel : list Z) (p : nat) :
  NoDup (selectedIndices props) ->
  (forall i : Z, i ∈ selectedIndices props -> validIndex (page props) i) ->
  snd (handleMouseUp props g e) = Some (sel, p) ->
  p = pageNumber (page props)
  /\ NoDup sel
  /\ forall i : Z, i ∈ sel -> validIndex (page props) i.
Proof.
  intros Hnd Hvalid Hrep.
  destruct (handleMouseUp_report props g e sel p Hrep)
    as [Hp [[a ->] | [n [Hn ->]]]].
  - split; [exact Hp |]. split; [apply arrayFromSet_NoDup |].
    intros i Hi. rewrite arrayFromSet_elem, elem_of_app in Hi.
    destruct Hi as [Hi | Hi].
    + apply Hvalid. exact Hi.
    + eapply boxHits_valid. exact Hi.
  - split; [exact Hp |]. split; [apply toggle_NoDup; exact Hnd |].
    intros i Hi. rewrite toggle_elem in Hi.
    destruct Hi as [[-> _] | [_ Hi]].
    + eapply isNearest_valid. exact Hn.
    + apply Hvalid. exact Hi.
Qed.

(** X1. Whatever the mode and the gesture, a pointer-up that reports a
selection reports it for the page of the component, and keeps the
selection a duplicate-free list of indices of segments of that page. *)
Theorem handleMouseUp_keeps_selection_valid (props : Props) (g : Gesture)
    (e : Point) (sel : list Z) (p : nat) :
  NoDup (selectedIndices props) ->
  (forall i : Z, i ∈ selectedIndices props -> validIndex (page props) i) ->
  snd (handleMouseUp props g e) = Some (sel, p) ->
  p = pageNumber (page props)
  /\ NoDup sel
  /\ forall i : Z, i ∈ sel -> validIndex (page props) i.
Proof. exact (report_valid props g e sel p). Qed.

Lemma handleMouseUp_keeps_selection_valid_witness :
  1%nat = pageNumber examplePage
  /\ NoDup [0%Z]
  /\ forall i : Z, i ∈ [0%Z] -> validIndex examplePage i.
Proof.
  exact (handleMouseUp_keeps_selection_valid (exampleProps area [])
           (dragFrom (mkPoint 0.15 0.2)) (mkPoint 0.35 0.3) [0%Z] 1%nat
           (NoDup_nil_2 (A:=Z))
           (fun i Hi => False_ind _ (not_elem_of_nil i Hi))
           area_drag_includes).
Defined.

End SelectionInvariant.

Section GestureSymmetry.
Open Scope R_scope.

Lemma spannedBox_sym (p q : Point) : spannedBox p q = spannedBox q p.
Proof.
  unfold spannedBox.
  rewrite (Rmin_comm (px p)), (Rmax_comm (px p)),
          (Rmin_comm (py p)), (Rmax_comm (py p)).
  reflexivity.
Qed.

Lemma boxHits_sym (pg : TranslatedPage) (p q : Point) :
  boxHits pg p q = boxHits pg q p.
Proof.
  unfold boxHits.
  rewrite (Rmin_comm (px p)), (Rmax_comm (px p)),
          (Rmin_comm (py p)), (Rmax_comm (py p)).
  reflexivity.
Qed.

(** X2. A box gesture selects the same segments whichever of its two
corners comes first: the two clicks of a [points] gesture can be swapped,
and an [area] drag can be made from either end. *)
Theorem box_gesture_direction_irrelevant (props : Props) (g g' : Gesture)
    (a e : Point) :
  isEditMode props = true ->
  (selectionMode props = points ->
   pointAnchor g = Some a -> pointAnchor g' = Some e ->
   snd (handleMouseUp props g e) = snd (handleMouseUp props g' a))
  /\ (selectionMode props = area ->
      dragStart g = Some a -> dragStart g' = Some e ->
      Rabs (px e - px a) > 0.01 ->
      snd (handleMouseUp props g e) = snd (handleMouseUp props g' a)).
Proof.
  intros Hedit. split.
  - intros Hmode Ha He.
    rewrite (handleMouseUp_points props g e a Hedit Hmode Ha).
    rewrite (handleMouseUp_points props g' a e Hedit Hmode He).
    simpl. rewrite (boxHits_sym (page props) a e). reflexivity.
  - intros Hmode Ha He Hdx.
    rewrite (handleMouseUp_area_drag props g e a Hedit Hmode Ha Hdx).
    rewrite (handleMouseUp_area_drag props g' a e Hedit Hmode He).
    + simpl. rewrite (boxHits_sym (page props) a e). reflexivity.
    + rewrite Rabs_minus_sym. exact Hdx.
Qed.

Lemma box_gesture_direction_irrelevant_witness :
  snd (handleMouseUp (exampleProps area []) (dragFrom (mkPoint 0.15 0.2))
                     (mkPoint 0.35 0.3))
  = snd (handleMouseUp (exampleProps area []) (dragFrom (mkPoint 0.35 0.3))
                       (mkPoint 0.15 0.2)).
Proof.
  refine (proj2 (box_gesture_direction_irrelevant (exampleProps area [])
                   (dragFrom (mkPoint 0.15 0.2)) (dragFrom (mkPoint 0.35 0.3))
                   (mkPoint 0.15 0.2) (mkPoint 0.35 0.3) eq_refl)
                eq_refl eq_refl eq_refl _).
  simpl. apply Rabs_gt. lra.
Defined.

End GestureSymmetry.

Section PageIsolation.

(** The application's selection is sound for the pages [pages] (the
[allPagesMap] of the component): when a page is being edited, it is one
of the pages, and the selection is a duplicate-free list of indices of
its segments. *)
Definition selectionSound (pages : gmap nat TranslatedPage)
    (st : SelectionState) : Prop :=
  match activeEditPageNumber st with
  | Some m =>
      exists pg : TranslatedPage,
        pages !! m = Some pg
        /\ NoDup (appSelectedIndices st)
        /\ forall i : Z, i ∈ appSelectedIndices st -> validIndex pg i
  | None => True
  end.

(** X3. Every pointer-up, on the canvas of any displayed page, in any
mode, keeps the application's selection sound.  In particular a gesture
on a page other than the one being edited does not carry the other
page's indices over: the new selection holds indices of the new page
only. *)
Theorem pointerUp_keeps_selection_sound (pages : gmap nat TranslatedPage)
    (st : SelectionState) (n : nat) (pg : TranslatedPage) (editMode : bool)
    (mode : SelectionMode) (g : Gesture) (e : Point) :
  pages !! n = Some pg -> pageNumber pg = n ->
  selectionSound pages st ->
  selectionSound pages (fst (pointerUpOn st n pg editMode mode g e)).
Proof.
  intros Hpg Hn Hsound. unfold pointerUpOn. simpl.
  destruct (snd (handleMouseUp (propsFor st n pg editMode mode) g e))
    as [[indices pNum]|] eqn:Hrep; [| exact Hsound].
  assert (Hprev : NoDup (selectedIndicesFor st n)
                  /\ forall i : Z, i ∈ selectedIndicesFor st n ->
                                   validIndex pg i).
  { unfold selectedIndicesFor. case_bool_decide as Hact.
    - unfold selectionSound in Hsound. rewrite Hact in Hsound.
      destruct Hsound as [pg' [Hpg' [Hnd Hval]]].
      rewrite Hpg in Hpg'. injection Hpg' as <-. split; assumption.
    - split; [apply NoDup_nil_2 |]. intros i Hi. inversion Hi. }
  destruct Hprev as [Hnd Hval].
  destruct (report_valid (propsFor st n pg editMode mode) g e indices pNum
              Hnd Hval Hrep) as [Hp [Hnd' Hval']].
  simpl in Hp. unfold selectionSound, onSelectionChange. simpl.
  exists pg. rewrite Hp, Hn. split; [exact Hpg |]. split; assumption.
Qed.

Definition examplePages : gmap nat TranslatedPage :=
  {[ 1%nat := examplePage ]}.

Lemma pointerUp_keeps_selection_sound_witness :
  selectionSound examplePages
    (fst (pointerUpOn clearSelection 1 examplePage true area
            (dragFrom (mkPoint 0.15 0.2)) (mkPoint 0.35 0.3))).
Proof.
  exact (pointerUp_keeps_selection_sound examplePages clearSelection 1
           examplePage true area (dragFrom (mkPoint 0.15 0.2))
           (mkPoint 0.35 0.3) (lookup_singleton_eq 1%nat examplePage)
           eq_refl I).
Defined.

End PageIsolation.

(** ** Auto-fit: shrink only, and independence of the canvas size *)

Section AutoFitMore.
Open Scope R_scope.

Variable measureText : R -> jsstring -> R.

(** X4. Auto-fit only ever shrinks: for a base size that is not
negative, the size the text is drawn at lies between 0 and the base size,
whatever the browser measures. *)
Theorem autoFit_only_shrinks (ctx : Ctx) (t : jsstring) (x y B base : R) :
  0 <= base ->
  0 <= font (drawAutoFitText measureText ctx t x y B base) <= base.
Proof.
  intros Hbase. rewrite drawAutoFitText_font.
  destruct (bool_decide (measureText base t > B)) eqn:Hover; simpl;
    [| lra].
  destruct (bool_decide (B > 0)) eqn:HB; simpl; [| lra].
  apply bool_decide_eq_true in Hover. apply bool_decide_eq_true in HB.
  set (w := measureText base t) in *.
  assert (Hw : 0 < w) by lra.
  assert (Hr : 0 < B / w < 1).
  { split.
    - apply Rdiv_lt_0_compat; lra.
    - apply (Rmult_lt_reg_r w); [exact Hw |].
      unfold Rdiv. rewrite Rmult_assoc, Rinv_l by lra. lra. }
  split; nra.
Qed.

Hypothesis measure_scales :
  forall (f : R) (t : jsstring), measureText f t = f * measureText 1 t.

Lemma drawSegmentText_font (cw ch : R) (ctx : Ctx) (seg : TextSegment) :
  font (drawSegmentText measureText cw ch ctx seg)
  = let base := fontSize seg * (cw / viewportWidth seg) in
    let B := widthRatio seg * cw in
    if bool_decide (measureText base (text seg) > B) && bool_decide (B > 0)
    then base * (B / measureText base (text seg)) else base.
Proof. unfold drawSegmentText. apply drawAutoFitText_font. Qed.

(** X5. The overlay is independent of the canvas size: on a canvas [k]
times as wide and high ([k > 0]), a segment's text is drawn at [k] times
the position and at [k] times the font size, shrunk or not alike (for a
measurement that scales with the font size).  So the export canvas, 1600
wide, shows the layout of the 1200 wide display canvas. *)
Theorem overlay_scales_with_canvas (k cw ch : R) (ctx ctx' : Ctx)
    (seg : TextSegment) :
  0 < k ->
  exists (x y f : R),
    ops (drawSegmentText measureText cw ch ctx seg)
    = ops ctx ++ [FillText (text seg) x y f]
    /\ ops (drawSegmentText measureText (k * cw) (k * ch) ctx' seg)
       = ops ctx' ++ [FillText (text seg) (k * x) (k * y) (k * f)].
Proof.
  intros Hk.
  exists (xRatio seg * cw), (yRatio seg * ch),
         (font (drawSegmentText measureText cw ch ctx seg)).
  split; [apply drawAutoFitText_ops |].
  unfold drawSegmentText. rewrite drawAutoFitText_ops.
  rewrite !drawAutoFitText_font.
  set (base := fontSize seg * (cw / viewportWidth seg)).
  set (B := widthRatio seg * cw).
  replace (fontSize seg * (k * cw / viewportWidth seg)) with (k * base)
    by (unfold base, Rdiv; ring).
  replace (widthRatio seg * (k * cw)) with (k * B) by (unfold B; ring).
  assert (Hm : measureText (k * base) (text seg)
               = k * measureText base (text seg)).
  { rewrite (measure_scales (k * base)), (measure_scales base). ring. }
  rewrite Hm. set (w := measureText base (text seg)).
  assert (Hc1 : bool_decide (k * w > k * B) = bool_decide (w > B)).
  { apply bool_decide_ext. split; intros H; nra. }
  assert (Hc2 : bool_decide (k * B > 0) = bool_decide (B > 0)).
  { apply bool_decide_ext. split; intros H; nra. }
  rewrite Hc1, Hc2.
  destruct (bool_decide (w > B)) eqn:Hover; simpl.
  - destruct (bool_decide (B > 0)) eqn:HB; simpl.
    + apply bool_decide_eq_true in Hover. apply bool_decide_eq_true in HB.
      do 3 f_equal; [ring | ring |]. field. split; lra.
    + do 3 f_equal; ring.
  - do 3 f_equal; ring.
Qed.

End AutoFitMore.

Section AutoFitMoreWitnesses.
Open Scope R_scope.

Lemma autoFit_only_shrinks_witness :
  0 <= font (drawAutoFitText monoMeasure blankCtx (js "ab") 0 0 6 12) <= 12.
Proof.
  apply (autoFit_only_shrinks monoMeasure blankCtx (js "ab") 0 0 6 12).
  lra.
Defined.

Lemma overlay_scales_with_canvas_witness :
  exists (x y f : R),
    ops (drawSegmentText monoMeasure 1200 1553 blankCtx exampleSegment)
    = ops blankCtx ++ [FillText (text exampleSegment) x y f]
    /\ ops (drawSegmentText monoMeasure (4 / 3 * 1200) (4 / 3 * 1553)
              blankCtx exampleSegment)
       = ops blankCtx
         ++ [FillText (text exampleSegment) (4 / 3 * x) (4 / 3 * y)
                      (4 / 3 * f)].
Proof.
  apply (overlay_scales_with_canvas monoMeasure monoMeasure_scales (4 / 3)
           1200 1553 blankCtx blankCtx exampleSegment).
  lra.
Defined.

End AutoFitMoreWitnesses.

(** ** The free translation service *)

Section FreeService.
Import FreeTranslate.

Variable isPureCode : jsstring -> bool.
Variable protectTokens : jsstring -> jsstring * list (jsstring * jsstring).
Variable fetch : nat -> string -> string -> jsstring -> FetchOutcome.

(** The ways [translateFree] can end: with the input texts (nothing to
translate, or a failed request), or with the merged parts of the
response. *)
Lemma translateFree_cases (texts : list jsstring) (sl tl : string)
    (w : World) :
  exists (r : list jsstring) (w' : World),
    translateFree isPureCode protectTokens fetch texts sl tl w
    = (Returns r, w')
    /\ alerts w' = alerts w /\ store w' = store w
    /\ trace w' = trace w /\ localPages w' = localPages w
    /\ (requests w' <= S (requests w))%nat
    /\ (texts = [] -> w' = w)
    /\ (r = texts
        \/ exists translatedParts : list jsstring,
             r = imap (mergePart translatedParts)
                      (List.map (toVault isPureCode protectTokens) texts)).
Proof.
  unfold translateFree, fetchM, tryCatch, throw, modify,
    mbind, M_bind, mret, M_ret.
  destruct texts as [|t texts].
  - exists [], w. repeat split; auto.
  - destruct (fetch (requests w) _ _ _) as [e | [|] [e | [chunks |]]];
      simpl; eexists; eexists; (split; [reflexivity |]);
      repeat (split; [first [reflexivity | simpl; lia | discriminate] |]);
      first [ left; reflexivity | right; eexists; reflexivity ].
Qed.

(** X6. [translateFree] never throws and shows no message, whatever the
network does; it sends at most one request, and none for an empty list;
and its result always has as many entries as its input. *)
Theorem translateFree_returns_same_length (texts : list jsstring)
    (sl tl : string) (w : World) :
  exists (r : list jsstring) (w' : World),
    translateFree isPureCode protectTokens fetch texts sl tl w
    = (Returns r, w')
    /\ length r = length texts
    /\ alerts w' = alerts w
    /\ store w' = store w
    /\ (requests w' <= S (requests w))%nat
    /\ (texts = [] -> requests w' = requests w).
Proof.
  destruct (translateFree_cases texts sl tl w)
    as [r [w' [Hrun [Hal [Hst [_ [_ [Hreq [Hnil Hr]]]]]]]]].
  exists r, w'. split; [exact Hrun |]. split.
  { destruct Hr as [-> | [parts ->]]; [reflexivity |].
    rewrite length_imap, length_map. reflexivity. }
  split; [exact Hal |]. split; [exact Hst |]. split; [exact Hreq |].
  intros Hnone. rewrite (Hnil Hnone). reflexivity.
Qed.

(** X7. A text that [isPureCode] takes for code comes back unchanged,
whatever the service answers.  It is sent as the placeholder: the text
of the request is the join of one piece for each input text, the piece
of a text taken for code being ["---SKIP---"], and [translateFree]
reads the network only through the answer to the request with that
text. *)
Theorem translateFree_keeps_code (texts : list jsstring) (sl tl : string)
    (w : World) (i : nat) (t : jsstring) :
  texts !! i = Some t -> isPureCode t = true ->
  (exists (r : list jsstring) (w' : World),
     translateFree isPureCode protectTokens fetch texts sl tl w
     = (Returns r, w')
     /\ r !! i = Some t)
  /\ (exists pieces : list jsstring,
        combinedText isPureCode protectTokens texts
        = join (js " ||| ") pieces
        /\ length pieces = length texts
        /\ pieces !! i = Some (js "---SKIP---"))
  /\ (forall fetch' : nat -> string -> string -> jsstring -> FetchOutcome,
        fetch' (requests w) (langCode sl "auto") (langCode tl "pt")
          (combinedText isPureCode protectTokens texts)
        = fetch (requests w) (langCode sl "auto") (langCode tl "pt")
            (combinedText isPureCode protectTokens texts) ->
        translateFree isPureCode protectTokens fetch' texts sl tl w
        = translateFree isPureCode protectTokens fetch texts sl tl w).
Proof.
  intros Ht Hcode. split; [| split].
  - destruct (translateFree_cases texts sl tl w)
      as [r [w' [Hrun [_ [_ [_ [_ [_ [_ Hr]]]]]]]]].
    exists r, w'. split; [exact Hrun |].
    destruct Hr as [-> | [parts ->]]; [exact Ht |].
    rewrite list_lookup_imap.
    change (List.map (toVault isPureCode protectTokens) texts)
      with (toVault isPureCode protectTokens <$> texts).
    rewrite list_lookup_fmap, Ht. simpl.
    unfold mergePart, toVault. rewrite Hcode. reflexivity.
  - eexists. split; [reflexivity |]. split.
    + rewrite !length_map. reflexivity.
    + change (List.map ?f ?l) with (f <$> l).
      rewrite !list_lookup_fmap, Ht. simpl.
      unfold toVault. rewrite Hcode. reflexivity.
  - intros fetch' Hsame.
    unfold translateFree, fetchM, tryCatch, mbind, M_bind.
    destruct texts as [|t0 texts0]; [reflexivity |].
    fold (combinedText isPureCode protectTokens (t0 :: texts0)).
    rewrite Hsame. reflexivity.
Qed.

End FreeService.

Section FreeServiceWitness.
Import FreeTranslate.

Lemma translateFree_keeps_code_witness :
  let isPureCode := fun t : jsstring => isPrefix (js "npm") t in
  let protectTokens :=
    fun t : jsstring => (t, @nil (jsstring * jsstring)) in
  let fetch :=
    fun (_ : nat) (_ _ : string) (_ : jsstring) =>
      FetchResponse true (JsonData (Some [js "x ||| y"])) in
  let texts := [js "npm install"; js "b"] in
  (exists (r : list jsstring) (w' : World),
     translateFree isPureCode protectTokens fetch texts "English"
       "Português" freshWorld = (Returns r, w')
     /\ r !! 0%nat = Some (js "npm install"))
  /\ (exists pieces : list jsstring,
        combinedText isPureCode protectTokens texts
        = join (js " ||| ") pieces
        /\ length pieces = length texts
        /\ pieces !! 0%nat = Some (js "---SKIP---"))
  /\ (forall fetch' : nat -> string -> string -> jsstring -> FetchOutcome,
        fetch' (requests freshWorld) (langCode "English" "auto")
          (langCode "Português" "pt")
          (combinedText isPureCode protectTokens texts)
        = fetch (requests freshWorld) (langCode "English" "auto")
            (langCode "Português" "pt")
            (combinedText isPureCode protectTokens texts) ->
        translateFree isPureCode protectTokens fetch' texts "English"
          "Português" freshWorld
        = translateFree isPureCode protectTokens fetch texts "English"
            "Português" freshWorld).
Proof.
  intros isPureCode protectTokens fetch texts.
  exact (translateFree_keeps_code isPureCode protectTokens fetch texts
           "English" "Português" freshWorld 0 (js "npm install")
           eq_refl eq_refl).
Defined.

End FreeServiceWitness.

Section SplitJoin.
Import FreeTranslate.

(** [tok] occurs in [s]. *)
Definition occursIn (tok s : jsstring) : Prop :=
  exists a b : jsstring, s = a ++ tok ++ b.

Lemma isPrefix_spec (p s : jsstring) :
  isPrefix p s = true <-> exists b : jsstring, s = p ++ b.
Proof.
  revert s. induction p as [|a p IH]; intros s; simpl.
  - split; [intros _; exists s; reflexivity | reflexivity].
  - destruct s as [|c s].
    + split; [discriminate | intros [b Hb]; discriminate].
    + rewrite andb_true_iff, N.eqb_eq, IH. split.
      * intros [-> [b ->]]. exists b. reflexivity.
      * intros [b Hb]. injection Hb as -> ->. split; [reflexivity |].
        exists b. reflexivity.
Qed.

Lemma occursIn_tail (tok : jsstring) (c : N) (s : jsstring) :
  occursIn tok s -> occursIn tok (c :: s).
Proof. intros [a [b ->]]. exists (c :: a), b. reflexivity. Qed.

(** The same, computed. *)
Fixpoint occursInb (tok s : jsstring) : bool :=
  isPrefix tok s
  || match s with
     | [] => false
     | _ :: s' => occursInb tok s'
     end.

Lemma occursInb_spec (tok s : jsstring) :
  occursIn tok s <-> occursInb tok s = true.
Proof.
  induction s as [|c s IH].
  - simpl. rewrite orb_false_r, isPrefix_spec. split.
    + intros [a [b Hab]]. destruct a; [| discriminate].
      exists b. exact Hab.
    + intros [b Hb]. exists [], b. exact Hb.
  - simpl occursInb. rewrite orb_true_iff, <- IH, isPrefix_spec. split.
    + intros [a [b Hab]]. destruct a as [|c' a].
      * left. exists b. exact Hab.
      * right. injection Hab as _ Hab. exists a, b. exact Hab.
    + intros [[b Hb] | Hocc].
      * exists [], b. exact Hb.
      * apply occursIn_tail. exact Hocc.
Qed.

(** What follows a part in the joined text: nothing, or the delimiter,
which starts with a space. *)
Definition afterPart (rest : jsstring) : Prop :=
  rest = [] \/ exists x : jsstring, rest = 32%N :: x.

Lemma bars_not_prefix (u rest : jsstring) :
  ~ occursIn (js "|||") u -> afterPart rest ->
  isPrefix (js "|||") (u ++ rest) = false.
Proof.
  intros Hfree Hrest.
  destruct (isPrefix (js "|||") (u ++ rest)) eqn:Hp; [| reflexivity].
  exfalso. apply isPrefix_spec in Hp. destruct Hp as [b Hb].
  destruct u as [|c1 [|c2 [|c3 u]]]; simpl in Hb.
  - destruct Hrest as [-> | [x ->]]; discriminate.
  - injection Hb as -> Hb. destruct Hrest as [-> | [x ->]]; discriminate.
  - injection Hb as -> -> Hb. destruct Hrest as [-> | [x ->]]; discriminate.
  - injection Hb as -> -> -> Hb. apply Hfree. exists [], u. reflexivity.
Qed.

Lemma matchDelimiter_inside (c : N) (u rest : jsstring) :
  ~ occursIn (js "|||") (c :: u) -> afterPart rest ->
  matchDelimiter (c :: u ++ rest) = None.
Proof.
  intros Hfree Hrest. unfold matchDelimiter.
  rewrite (bars_not_prefix u rest); [| | exact Hrest].
  - rewrite andb_false_r.
    change (c :: u ++ rest) with ((c :: u) ++ rest).
    rewrite (bars_not_prefix (c :: u) rest Hfree Hrest). reflexivity.
  - intros Hocc. apply Hfree. apply occursIn_tail. exact Hocc.
Qed.

(** Reading through a part that holds no ["|||"]. *)
Lemma splitFrom_part (u cur rest : jsstring) :
  ~ occursIn (js "|||") u -> afterPart rest ->
  splitFrom 0 cur (u ++ rest) = splitFrom 0 (rev u ++ cur) rest.
Proof.
  revert cur. induction u as [|c u IH]; intros cur Hfree Hrest.
  - reflexivity.
  - change ((c :: u) ++ rest) with (c :: u ++ rest).
    assert (Hstep : splitFrom 0 cur (c :: u ++ rest)
                    = splitFrom 0 (c :: cur) (u ++ rest)).
    { change (splitFrom 0 cur (c :: u ++ rest))
        with (match matchDelimiter (c :: u ++ rest) with
              | Some n => rev cur :: splitFrom (n - 1) [] (u ++ rest)
              | None => splitFrom 0 (c :: cur) (u ++ rest)
              end).
      rewrite (matchDelimiter_inside c u rest Hfree Hrest).
      reflexivity. }
    rewrite Hstep. rewrite IH; [| | exact Hrest].
    + simpl. rewrite <- app_assoc. reflexivity.
    + intros Hocc. apply Hfree. apply occursIn_tail. exact Hocc.
Qed.

(** Reading the delimiter closes the piece. *)
Lemma splitFrom_delimiter (cur x : jsstring) :
  splitFrom 0 cur (js " ||| " ++ x) = rev cur :: splitFrom 0 [] x.
Proof. reflexivity. Qed.

(** X8. Splitting undoes joining: texts that hold no ["|||"], joined
with the delimiter [" ||| "] and split by the service's regular
expression, come back as they were (for a list that is not empty). *)
Theorem split_join_roundtrip (parts : list jsstring) :
  parts <> [] ->
  Forall (fun p => ~ occursIn (js "|||") p) parts ->
  splitParts (join (js " ||| ") parts) = parts.
Proof.
  intros Hne Hfree. unfold splitParts.
  induction parts as [|p parts IH]; [contradiction |].
  inversion Hfree as [|p' parts' Hp Hparts]; subst.
  destruct parts as [|q parts].
  - simpl. rewrite <- (app_nil_r p) at 1.
    rewrite (splitFrom_part p [] [] Hp (or_introl eq_refl)).
    simpl. rewrite app_nil_r, rev_involutive. reflexivity.
  - change (join (js " ||| ") (p :: q :: parts))
      with (p ++ js " ||| " ++ join (js " ||| ") (q :: parts)).
    rewrite (splitFrom_part p []);
      [| exact Hp | right; eexists; reflexivity].
    rewrite splitFrom_delimiter, app_nil_r, rev_involutive.
    f_equal. apply IH; [discriminate | exact Hparts].
Qed.

Lemma split_join_roundtrip_witness :
  splitParts (join (js " ||| ") [js "a | b"; js ""; js " c "])
  = [js "a | b"; js ""; js " c "].
Proof.
  apply split_join_roundtrip; [discriminate |].
  repeat (apply Forall_cons; split;
          [intros H; apply occursInb_spec in H; discriminate |]).
  apply Forall_nil_2.
Defined.

End SplitJoin.

Section TokenRestore.
Import FreeTranslate.

Lemma replaceAll_absent (token value s : jsstring) :
  ~ occursIn token s -> replaceAll token value s = s.
Proof.
  unfold replaceAll. induction s as [|c s IH]; intros Habs; [reflexivity |].
  simpl.
  destruct (isPrefix token (c :: s)) eqn:Hp.
  - exfalso. apply Habs. apply isPrefix_spec in Hp. destruct Hp as [b Hb].
    exists [], b. exact Hb.
  - f_equal. apply IH. intros Hocc. apply Habs.
    apply occursIn_tail. exact Hocc.
Qed.

Lemma restoreTokens_absent (tokens : list (jsstring * jsstring))
    (s : jsstring) :
  Forall (fun kv => ~ occursIn (fst kv) s) tokens ->
  restoreTokens tokens s = s.
Proof.
  unfold restoreTokens. induction tokens as [|kv tokens IH]; intros Habs;
    [reflexivity |].
  inversion Habs as [|kv' tokens' Hkv Hrest]; subst. simpl.
  rewrite (replaceAll_absent _ _ _ Hkv). apply IH. exact Hrest.
Qed.

(** X9. When the part of the response for a text is missing or empty,
[translateFree]'s merge gives the text itself back, provided the text is
code or none of its tokens occurs in it. *)
Theorem mergePart_falls_back_to_original (translatedParts : list jsstring)
    (i : nat) (v : VaultEntry) :
  (translatedParts !! i = None \/ translatedParts !! i = Some []) ->
  (isCode v = true
   \/ Forall (fun kv => ~ occursIn (fst kv) (original v)) (tokens v)) ->
  mergePart translatedParts i v = original v.
Proof.
  intros Hpart Hv. unfold mergePart.
  destruct (isCode v); [reflexivity |].
  destruct Hv as [Hcode | Habs]; [discriminate |].
  unfold partOr. destruct Hpart as [-> | ->]; simpl;
    apply restoreTokens_absent; exact Habs.
Qed.

Lemma mergePart_falls_back_to_original_witness :
  mergePart [js "x"] 1
    {| isCode := false; original := js "run the build";
       processed := js "run the [[_0_]]";
       tokens := [(js "[[_0_]]", js "build")] |}
  = js "run the build".
Proof.
  apply (mergePart_falls_back_to_original [js "x"] 1
           {| isCode := false; original := js "run the build";
              processed := js "run the [[_0_]]";
              tokens := [(js "[[_0_]]", js "build")] |}).
  - left. reflexivity.
  - right. apply Forall_cons. split; [| apply Forall_nil_2].
    intros H. apply occursInb_spec in H. discriminate.
Defined.

End TokenRestore.

Section RequestAccounting.
Import App.

Variable env : Env.
Variable cfg : Config.

(** X10. A translation call of the pass sends at most one request to a
backend; it sends none for a page without text, and none when the model
backend is chosen and no key is available: it then throws before
anything is sent. *)
Theorem translate_sends_at_most_one_request (n : nat)
    (texts : list jsstring) (w : World) :
  let r := translate env cfg n texts w in
  (requests w <= requests (snd r) <= S (requests w))%nat
  /\ (texts = [] -> requests (snd r) = requests w)
  /\ (useAI cfg = true ->
      Gemini.pickApiKey (Some (apiKeyInput cfg)) (envApiKey env) = None ->
      requests (snd r) = requests w /\ exists e : string, fst r = Throws e).
Proof.
  intros r. subst r.
  remember (Gemini.pickApiKey (Some (apiKeyInput cfg)) (envApiKey env))
    as picked eqn:Hpicked.
  unfold translate, Gemini.translateEconomic, FreeTranslate.translateFree,
    Gemini.generateM, FreeTranslate.fetchM, tryCatch, throw, modify,
    mbind, M_bind, mret, M_ret.
  destruct (useAI cfg).
  - rewrite <- Hpicked. destruct picked as [key|].
    + destruct texts as [|t texts].
      * simpl. split; [lia |]. split; [reflexivity | intros; discriminate].
      * simpl requests.
        destruct (generateContent env _ _ _) as [e | [[e | a] |]]; simpl;
          (split; [lia |]); (split; intros; discriminate).
    + simpl. split; [lia |]. split; [reflexivity |].
      intros _ _. split; [reflexivity |]. eexists. reflexivity.
  - destruct texts as [|t texts].
    + simpl. split; [lia |]. split; [reflexivity | intros; discriminate].
    + simpl requests.
      destruct (fetch env _ _ _ _) as [e | [|] [e | [chunks |]]]; simpl;
        (split; [lia |]); (split; intros; discriminate).
Qed.

End RequestAccounting.

Section RequestAccountingWitness.
Import App.

Lemma translate_sends_at_most_one_request_witness :
  requests (snd (translate offlineEnv (passConfig true) 1 [] freshWorld))
  = requests freshWorld.
Proof.
  exact (proj1 (proj2 (translate_sends_at_most_one_request offlineEnv
                         (passConfig true) 1 [] freshWorld))
               eq_refl).
Defined.

End RequestAccountingWitness.

(** ** Storage: keys, frames and round trips *)

Section PageKeys.
Import Db.

Fixpoint hasUnderscore (s : string) : bool :=
  match s with
  | EmptyString => false
  | String c s' => Ascii.eqb c "_" || hasUnderscore s'
  end.

Lemma pretty_N_char_no_underscore (x : N) :
  Ascii.eqb (pretty_N_char x) "_" = false.
Proof. unfold pretty_N_char. repeat case_match; reflexivity. Qed.

Lemma pretty_N_go_no_underscore (x : N) (s : string) :
  hasUnderscore s = false -> hasUnderscore (pretty_N_go x s) = false.
Proof.
  revert s. induction (N.lt_wf_0 x) as [x _ IH]; intros s Hs.
  assert (x = 0 \/ 0 < x)%N as [-> | Hpos] by lia.
  - rewrite pretty_N_go_0. exact Hs.
  - rewrite pretty_N_go_step by exact Hpos. apply IH.
    + apply N.div_lt; [exact Hpos | reflexivity].
    + simpl. rewrite pretty_N_char_no_underscore. exact Hs.
Qed.

(** The decimal numeral of a page number holds no underscore. *)
Lemma pretty_nat_no_underscore (n : nat) : hasUnderscore (pretty n) = false.
Proof.
  unfold pretty, pretty_nat, pretty, pretty_N.
  case_decide; [reflexivity |].
  apply pretty_N_go_no_underscore. reflexivity.
Qed.

Lemma underscore_split (a b d1 d2 : string) :
  hasUnderscore d1 = false -> hasUnderscore d2 = false ->
  (a +:+ String "_" d1)%string = (b +:+ String "_" d2)%string ->
  a = b /\ d1 = d2.
Proof.
  intros H1 H2. revert b. induction a as [|c a IH]; intros b Heq.
  - destruct b as [|c' b]; simpl in Heq.
    + injection Heq as ->. split; reflexivity.
    + injection Heq as <- ->. exfalso.
      clear -H1. induction b as [|c b IHb]; simpl in H1.
      * discriminate.
      * apply orb_false_iff in H1. destruct H1 as [_ H1]. auto.
  - destruct b as [|c' b]; simpl in Heq.
    + injection Heq as -> <-. exfalso.
      clear -H2. induction a as [|c a IHa]; simpl in H2.
      * discriminate.
      * apply orb_false_iff in H2. destruct H2 as [_ H2]. auto.
    + injection Heq as -> Heq. destruct (IH b Heq) as [-> ->].
      split; reflexivity.
Qed.

Lemma pageKey_eq (p1 p2 : string) (n1 n2 : nat) :
  pageKey p1 n1 = pageKey p2 n2 -> p1 = p2 /\ n1 = n2.
Proof.
  unfold pageKey. intros Heq.
  destruct (underscore_split p1 p2 (pretty n1) (pretty n2)
              (pretty_nat_no_underscore n1) (pretty_nat_no_underscore n2)
              Heq) as [Hp Hn].
  split; [exact Hp |]. apply (inj pretty). exact Hn.
Qed.

(** X11. The key of a page determines its project and its number: no
two pages, of the same project or of different ones, share a key, even
when project ids themselves hold underscores and digits. *)
Theorem pageKey_determines_page (p1 p2 : string) (n1 n2 : nat) :
  pageKey p1 n1 = pageKey p2 n2 <-> p1 = p2 /\ n1 = n2.
Proof.
  split; [apply pageKey_eq | intros [-> ->]; reflexivity].
Qed.

End PageKeys.

Section StorageFrames.
Import Db.

(** Every page record sits under the key made of its own project id and
page number: what [savePage] establishes. *)
Definition pagesKeyed (db : DB) : Prop :=
  forall (k : string) (r : PageRec),
    pages db !! k = Some r ->
    k = pageKey (pageProjectId r) (pageNumber (pageData r)).

Lemma indexGetAll_agree (projectId : string) (m m' : gmap string PageRec) :
  (forall (k : string) (r : PageRec),
     pageProjectId r = projectId -> (m' !! k = Some r <-> m !! k = Some r)) ->
  indexGetAll projectId m' = indexGetAll projectId m.
Proof.
  intros Hagree. unfold indexGetAll. f_equal. f_equal.
  apply map_eq. intros k.
  destruct (filter _ m !! k) as [r|] eqn:Hm.
  - apply map_lookup_filter_Some in Hm. destruct Hm as [Hl Hp].
    apply map_lookup_filter_Some. split; [| exact Hp].
    apply Hagree; [exact Hp | exact Hl].
  - destruct (filter _ m' !! k) as [r|] eqn:Hm'; [| reflexivity].
    apply map_lookup_filter_Some in Hm'. destruct Hm' as [Hl Hp].
    assert (Hin : filter (λ kv : string * PageRec,
                            pageProjectId kv.2 = projectId) m !! k = Some r).
    { apply map_lookup_filter_Some. split; [| exact Hp].
      apply Hagree; [exact Hp | exact Hl]. }
    congruence.
Qed.

(** X12. [deleteProject] touches nothing of the other projects: their
records, their files and their pages are as before, and so are the
settings. *)
Theorem deleteProject_keeps_other_projects (projectId : string) (db : DB) :
  let db' := deleteProject projectId db in
  settings db' = settings db
  /\ forall q : string, q <> projectId ->
       projects db' !! q = projects db !! q
       /\ getFile q db' = getFile q db
       /\ getProjectPages q db' = getProjectPages q db
       /\ forall (k : string) (r : PageRec),
            pages db !! k = Some r -> pageProjectId r = q ->
            pages db' !! k = Some r.
Proof.
  intros db'. subst db'. split; [reflexivity |].
  intros q Hq. split.
  { simpl. apply lookup_delete_ne. congruence. }
  split.
  { unfold getFile. simpl. rewrite lookup_delete_ne by congruence.
    reflexivity. }
  split.
  { unfold getProjectPages. apply indexGetAll_agree.
    intros k r Hr. rewrite deleteProject_pages.
    destruct (pages db !! k) as [r'|]; [| split; discriminate].
    case_bool_decide as Hp.
    - split; [discriminate |]. intros H. injection H as ->. congruence.
    - reflexivity. }
  intros k r Hk Hr. rewrite deleteProject_pages, Hk.
  rewrite bool_decide_eq_false_2 by congruence. reflexivity.
Qed.

Lemma deleteProject_keeps_other_projects_witness :
  projects (deleteProject "p1" exampleDb) !! "p2"%string
  = projects exampleDb !! "p2"%string
  /\ getFile "p2" (deleteProject "p1" exampleDb) = getFile "p2" exampleDb
  /\ getProjectPages "p2" (deleteProject "p1" exampleDb)
     = getProjectPages "p2" exampleDb
  /\ forall (k : string) (r : PageRec),
       pages exampleDb !! k = Some r -> pageProjectId r = "p2"%string ->
       pages (deleteProject "p1" exampleDb) !! k = Some r.
Proof.
  apply (proj2 (deleteProject_keeps_other_projects "p1" exampleDb) "p2"%string).
  discriminate.
Defined.

Lemma pagesKeyed_savePage (projectId : string) (pg : TranslatedPage)
    (db : DB) :
  pagesKeyed db -> pagesKeyed (savePage projectId pg db).
Proof.
  intros Hk k r. unfold savePage. simpl.
  destruct (decide (pageKey projectId (pageNumber pg) = k)) as [<- | Hne].
  - rewrite lookup_insert_eq. intros H. injection H as <-. reflexivity.
  - rewrite lookup_insert_ne by exact Hne. apply Hk.
Qed.

Lemma pagesKeyed_empty : pagesKeyed emptyDB.
Proof. intros k r Hl. simpl in Hl. rewrite lookup_empty in Hl. discriminate. Qed.

(** X13. After [savePage] the page is among the project's pages, and it
is the only one of its number there (a page saved before under that
number is replaced); the project's pages of other numbers, and all pages
of other projects, are as before. *)
Theorem savePage_replaces_page (projectId : string) (pg : TranslatedPage)
    (db : DB) :
  pagesKeyed db ->
  let db' := savePage projectId pg db in
  pagesKeyed db'
  /\ (exists r : PageRec,
        r ∈ getProjectPages projectId db' /\ pageData r = pg)
  /\ (forall r : PageRec,
        r ∈ getProjectPages projectId db' ->
        pageNumber (pageData r) = pageNumber pg -> pageData r = pg)
  /\ (forall r : PageRec,
        pageNumber (pageData r) <> pageNumber pg ->
        (r ∈ getProjectPages projectId db'
         <-> r ∈ getProjectPages projectId db))
  /\ (forall q : string, q <> projectId ->
        getProjectPages q db' = getProjectPages q db).
Proof.
  intros Hk db'. subst db'.
  split; [apply pagesKeyed_savePage; exact Hk |].
  unfold getProjectPages, savePage. simpl.
  split.
  { exists {| pageId := pageKey projectId (pageNumber pg);
              pageProjectId := projectId; pageData := pg |}.
    split; [| reflexivity].
    apply indexGetAll_elem. eexists. split; [apply lookup_insert_eq |].
    reflexivity. }
  split.
  { intros r Hr Hnum. apply indexGetAll_elem in Hr.
    destruct Hr as [k [Hl Hp]].
    destruct (decide (pageKey projectId (pageNumber pg) = k)) as [<- | Hne].
    - rewrite lookup_insert_eq in Hl. injection Hl as <-. reflexivity.
    - rewrite lookup_insert_ne in Hl by exact Hne.
      apply Hk in Hl. rewrite Hp, Hnum in Hl. congruence. }
  split.
  { intros r Hnum. rewrite !indexGetAll_elem.
    split; intros [k [Hl Hp]]; exists k; (split; [| exact Hp]).
    - destruct (decide (pageKey projectId (pageNumber pg) = k))
        as [<- | Hne].
      + rewrite lookup_insert_eq in Hl. injection Hl as <-.
        simpl in Hnum. contradiction.
      + rewrite lookup_insert_ne in Hl by exact Hne. exact Hl.
    - rewrite lookup_insert_ne; [exact Hl |].
      intros Heq. pose proof (Hk k r Hl) as Hkey. rewrite <- Heq in Hkey.
      apply pageKey_eq in Hkey. destruct Hkey as [_ Hn].
      congruence. }
  intros q Hq. apply indexGetAll_agree. intros k r Hr.
  destruct (decide (pageKey projectId (pageNumber pg) = k)) as [<- | Hne].
  - rewrite lookup_insert_eq. split.
    + intros H. injection H as <-. simpl in Hr. congruence.
    + intros Hl. apply Hk in Hl. apply pageKey_eq in Hl.
      destruct Hl as [Hp _]. congruence.
  - rewrite lookup_insert_ne by exact Hne. reflexivity.
Qed.

End StorageFrames.

Section StorageMore.
Import Db.

Lemma savePage_replaces_page_witness :
  exists r : PageRec,
    r ∈ getProjectPages "p1" (savePage "p1" examplePage emptyDB)
    /\ pageData r = examplePage.
Proof.
  exact (proj1 (proj2 (savePage_replaces_page "p1" examplePage emptyDB
                         pagesKeyed_empty))).
Defined.

Lemma fold_delete_keys (projectId : string) (pageNumbers : list nat)
    (m : gmap string PageRec) :
  fold_left (fun st num => delete (pageKey projectId num) st) pageNumbers m
  = fold_left (fun st key => delete key st)
              (pageKey projectId <$> pageNumbers) m.
Proof.
  revert m. induction pageNumbers as [|n l IH]; intros m; [reflexivity |].
  simpl. apply IH.
Qed.

(** The pages [deletePagesFromProject] removes. *)
Lemma deletePagesFromProject_pages (projectId : string)
    (pageNumbers : list nat) (db : DB) (k : string) :
  pages (deletePagesFromProject projectId pageNumbers db) !! k
  = if bool_decide (k ∈ pageKey projectId <$> pageNumbers)
    then None else pages db !! k.
Proof.
  unfold deletePagesFromProject. simpl.
  rewrite fold_delete_keys. apply fold_delete_lookup.
Qed.

(** X14. [deletePagesFromProject] removes the project's pages of the
given numbers and nothing else: afterwards the project's pages are those
it had whose number is not in the list, the pages of other projects are
as before, and projects, files and settings are untouched. *)
Theorem deletePagesFromProject_removes_exactly (projectId : string)
    (pageNumbers : list nat) (db : DB) :
  pagesKeyed db ->
  let db' := deletePagesFromProject projectId pageNumbers db in
  pagesKeyed db'
  /\ projects db' = projects db /\ files db' = files db
  /\ settings db' = settings db
  /\ (forall r : PageRec,
        r ∈ getProjectPages projectId db'
        <-> r ∈ getProjectPages projectId db
            /\ pageNumber (pageData r) ∉ pageNumbers)
  /\ (forall q : string, q <> projectId ->
        getProjectPages q db' = getProjectPages q db).
Proof.
  intros Hk db'. subst db'.
  split.
  { intros k r Hl. rewrite deletePagesFromProject_pages in Hl.
    case_bool_decide; [discriminate |]. apply Hk. exact Hl. }
  split; [reflexivity |]. split; [reflexivity |]. split; [reflexivity |].
  split.
  { intros r. unfold getProjectPages. rewrite !indexGetAll_elem. split.
    - intros [k [Hl Hp]]. rewrite deletePagesFromProject_pages in Hl.
      case_bool_decide as Hin; [discriminate |].
      split; [exists k; split; assumption |].
      intros Hnum. apply Hin. apply list_elem_of_fmap.
      exists (pageNumber (pageData r)). split; [| exact Hnum].
      rewrite (Hk k r Hl), Hp. reflexivity.
    - intros [[k [Hl Hp]] Hnum]. exists k. split; [| exact Hp].
      rewrite deletePagesFromProject_pages.
      rewrite bool_decide_eq_false_2; [exact Hl |].
      intros Hin. apply list_elem_of_fmap in Hin.
      destruct Hin as [n [Hkey Hn]]. rewrite (Hk k r Hl) in Hkey.
      apply pageKey_eq in Hkey. destruct Hkey as [_ Heq].
      rewrite Heq in Hnum. contradiction. }
  intros q Hq. unfold getProjectPages. apply indexGetAll_agree.
  intros k r Hr. rewrite deletePagesFromProject_pages.
  case_bool_decide as Hin; [| reflexivity].
  split; [discriminate |]. intros Hl. exfalso.
  apply list_elem_of_fmap in Hin. destruct Hin as [n [Hkey _]].
  rewrite (Hk k r Hl) in Hkey. apply pageKey_eq in Hkey.
  destruct Hkey as [Hp _]. congruence.
Qed.

Lemma deletePagesFromProject_removes_exactly_witness :
  getProjectPages "p2" (deletePagesFromProject "p1" [1%nat]
                          (savePage "p1" examplePage emptyDB))
  = getProjectPages "p2" (savePage "p1" examplePage emptyDB).
Proof.
  refine (proj2 (proj2 (proj2 (proj2 (proj2
            (deletePagesFromProject_removes_exactly "p1" [1%nat]
               (savePage "p1" examplePage emptyDB)
               (pagesKeyed_savePage "p1" examplePage emptyDB
                  pagesKeyed_empty))))))
            "p2"%string _).
  discriminate.
Defined.

(** X15. Settings and files read back what was written: [getSetting]
after [setSetting] gives the value, [getFile] after [saveFile] gives the
data, a later write to the same key wins, other keys are not affected,
and neither write touches projects or pages. *)
Theorem settings_and_files_round_trip (key : string) (value : option string)
    (projectId : string) (data : list N) (db : DB) :
  getSetting key (setSetting key value db) = value
  /\ (forall value' : option string,
        getSetting key (setSetting key value' (setSetting key value db))
        = value')
  /\ (forall key' : string, key' <> key ->
        getSetting key' (setSetting key value db) = getSetting key' db)
  /\ getFile projectId (saveFile projectId data db) = Some data
  /\ (forall data' : list N,
        getFile projectId (saveFile projectId data'
                             (saveFile projectId data db)) = Some data')
  /\ (forall q : string, q <> projectId ->
        getFile q (saveFile projectId data db) = getFile q db)
  /\ projects (saveFile projectId data (setSetting key value db))
     = projects db
  /\ pages (saveFile projectId data (setSetting key value db)) = pages db.
Proof.
  unfold getSetting, setSetting, getFile, saveFile. simpl.
  split; [rewrite lookup_insert_eq; reflexivity |].
  split; [intros v'; rewrite lookup_insert_eq; reflexivity |].
  split; [intros k' Hk'; rewrite lookup_insert_ne by congruence;
          reflexivity |].
  split; [rewrite lookup_insert_eq; reflexivity |].
  split; [intros d'; rewrite lookup_insert_eq; reflexivity |].
  split; [intros q Hq; rewrite lookup_insert_ne by congruence;
          reflexivity |].
  split; reflexivity.
Qed.

End StorageMore.

(** ** The translation pass as a whole *)

Section PassFrame.
Import App.

Variable env : Env.
Variable cfg : Config.
Variable pdf : Pdf.
Variable projectId : string.

(** The store [db'] differs from [db] at most by pages of the project
with numbers from [lo] up to, not including, [hi], saved under their
keys. *)
Definition savedPagesOnly (lo hi : nat) (db db' : Db.DB) : Prop :=
  Db.projects db' = Db.projects db
  /\ Db.files db' = Db.files db
  /\ Db.settings db' = Db.settings db
  /\ forall k : string,
       Db.pages db' !! k = Db.pages db !! k
       \/ exists (n : nat) (r : Db.PageRec),
            (lo <= n < hi)%nat /\ k = Db.pageKey projectId n
            /\ Db.pages db' !! k = Some r
            /\ Db.pageProjectId r = projectId
            /\ pageNumber (Db.pageData r) = n.

Lemma savedPagesOnly_refl (lo hi : nat) (db : Db.DB) :
  savedPagesOnly lo hi db db.
Proof. repeat split. intros k. left. reflexivity. Qed.

Lemma savedPagesOnly_weaken (lo hi lo' hi' : nat) (db db' : Db.DB) :
  (forall n : nat, (lo <= n < hi)%nat -> (lo' <= n < hi')%nat) ->
  savedPagesOnly lo hi db db' -> savedPagesOnly lo' hi' db db'.
Proof.
  intros Hsub [Hp [Hf [Hs Hpages]]].
  split; [exact Hp |]. split; [exact Hf |]. split; [exact Hs |].
  intros k. destruct (Hpages k) as [Heq | [n [r [Hn Hrest]]]].
  - left. exact Heq.
  - right. exists n, r. split; [apply Hsub; exact Hn | exact Hrest].
Qed.

Lemma savedPagesOnly_step (lo hi : nat) (db db1 : Db.DB)
    (entry : TranslatedPage) :
  (lo <= pageNumber entry < hi)%nat ->
  savedPagesOnly lo hi db db1 ->
  savedPagesOnly lo hi db (Db.savePage projectId entry db1).
Proof.
  intros Hn [Hp [Hf [Hs Hpages]]]. unfold Db.savePage. simpl.
  split; [exact Hp |]. split; [exact Hf |]. split; [exact Hs |].
  intros k. cbn [Db.pages].
  destruct (decide (Db.pageKey projectId (pageNumber entry) = k))
    as [<- | Hne].
  - right. eexists (pageNumber entry), _. split; [exact Hn |].
    split; [reflexivity |]. split; [apply lookup_insert_eq |].
    split; reflexivity.
  - rewrite lookup_insert_ne by exact Hne. apply Hpages.
Qed.

Lemma forLoop_frame (a s lo hi : nat) (w : World) :
  (lo <= s)%nat -> (s + a <= hi)%nat ->
  let r := forLoop a s (translatePage env cfg pdf projectId) w in
  alerts (snd r) = alerts w
  /\ forall db : Db.DB,
       savedPagesOnly lo hi db (store w) ->
       savedPagesOnly lo hi db (store (snd r)).
Proof.
  revert s w. induction a as [|a IH]; intros s w Hlo Hhi.
  - simpl. split; [reflexivity | auto].
  - cbv zeta. rewrite forLoop_step.
    pose proof (translatePage_frame env cfg pdf projectId s w)
      as [Hal Hst].
    destruct (translatePage env cfg pdf projectId s w) as [[[]|e] w'];
      simpl in Hal, Hst.
    + destruct (IH (S s) w' ltac:(lia) ltac:(lia)) as [Hal' Hfr'].
      split; [rewrite Hal'; exact Hal |].
      intros db Hdb. apply Hfr'.
      destruct Hst as [entry [Hnum ->]].
      apply savedPagesOnly_step; [lia | exact Hdb].
    + simpl. split; [exact Hal |]. intros db Hdb. rewrite Hst. exact Hdb.
Qed.

(** X17. A pass changes the store only by saving pages of the active
project with numbers in the requested range: projects, files and
settings are untouched, and every page record that differs afterwards
sits under the key of such a page and belongs to the project. *)
Theorem pass_saves_only_range_pages (w : World) :
  pdfInstance cfg = Some pdf -> activeProjectId cfg = Some projectId ->
  savedPagesOnly (Nat.max 1 (rangeStart cfg))
                 (S (Nat.min (numPages cfg) (rangeEnd cfg)))
                 (store w) (store (snd (startTranslation env cfg w))).
Proof.
  intros Hpdf Hpid. unfold startTranslation. rewrite Hpdf, Hpid.
  destruct (nonEmpty projectId); [| apply savedPagesOnly_refl].
  destruct (useAI cfg && negb (hasStoredKey cfg));
    [apply savedPagesOnly_refl |].
  unfold finally, tryCatch, modify, mbind, M_bind. simpl.
  set (start := Nat.max 1 (rangeStart cfg)).
  set (end_ := Nat.min (numPages cfg) (rangeEnd cfg)).
  destruct (forLoop_frame (S end_ - start) start start
              (start + (S end_ - start)) (setIsProcessing true w)
              (le_n _) (le_n _))
    as [_ Hframe].
  specialize (Hframe (store w) (savedPagesOnly_refl _ _ _)).
  apply (savedPagesOnly_weaken start (start + (S end_ - start)));
    [intros n Hn; lia |].
  destruct (forLoop _ _ _ _) as [[[]|e] w1]; exact Hframe.
Qed.

(** X18. A pass none of whose rounds throws ends without a message,
with [isProcessing] off, and with every page of the requested range in
the store under its key: the round of a later page does not overwrite
the page of an earlier one. *)
Theorem completed_pass_saves_every_page (w w1 : World) :
  pdfInstance cfg = Some pdf -> activeProjectId cfg = Some projectId ->
  nonEmpty projectId = true ->
  useAI cfg && negb (hasStoredKey cfg) = false ->
  forLoop (S (Nat.min (numPages cfg) (rangeEnd cfg))
           - Nat.max 1 (rangeStart cfg))
          (Nat.max 1 (rangeStart cfg))
          (translatePage env cfg pdf projectId) (setIsProcessing true w)
  = (Returns tt, w1) ->
  startTranslation env cfg w = (Returns tt, setIsProcessing false w1)
  /\ alerts w1 = alerts w
  /\ forall n : nat,
       (Nat.max 1 (rangeStart cfg) <= n
        <= Nat.min (numPages cfg) (rangeEnd cfg))%nat ->
       exists r : Db.PageRec,
         Db.pages (store w1) !! Db.pageKey projectId n = Some r
         /\ Db.pageProjectId r = projectId
         /\ pageNumber (Db.pageData r) = n.
Proof.
  intros Hpdf Hpid Hid Hgate Hloop.
  rewrite (startTranslation_run env cfg pdf projectId w Hpdf Hpid Hid Hgate).
  set (start := Nat.max 1 (rangeStart cfg)) in *.
  set (end_ := Nat.min (numPages cfg) (rangeEnd cfg)) in *.
  destruct (forLoop_frame (S end_ - start) start start
              (start + (S end_ - start)) (setIsProcessing true w)
              (le_n _) (le_n _))
    as [Hal _].
  rewrite Hloop in Hal |- *. simpl in Hal.
  split; [reflexivity |]. split; [exact Hal |].
  intros n Hn.
  apply (forLoop_persists env cfg pdf projectId (S end_ - start) start
           (setIsProcessing true w) w1 n Hloop). lia.
Qed.

(** X16. The guards and the cleanup of [startTranslation].  Without a
document, or without an active project, it returns at once and changes
nothing; with the model backend chosen and no stored key it only opens
the key dialog.  Otherwise it runs the pass and, however the pass ends,
[isProcessing] is off afterwards and at most one message has been
shown. *)
Theorem startTranslation_guards_and_cleanup (w : World) :
  (pdfInstance cfg = None \/ activeProjectId cfg = None
   \/ activeProjectId cfg = Some ""%string ->
   startTranslation env cfg w = (Returns tt, w))
  /\ (pdfInstance cfg = Some pdf -> activeProjectId cfg = Some projectId ->
      nonEmpty projectId = true ->
      (useAI cfg = true -> hasStoredKey cfg = false ->
       startTranslation env cfg w = (Returns tt, setShowApiKeyModal true w))
      /\ (useAI cfg && negb (hasStoredKey cfg) = false ->
          let w' := snd (startTranslation env cfg w) in
          isProcessing w' = false
          /\ (alerts w' = alerts w
              \/ exists m : string, alerts w' = alerts w ++ [m]))).
Proof.
  split.
  - unfold startTranslation. intros [Hno | [Hno | Hno]]; rewrite Hno.
    + reflexivity.
    + destruct (pdfInstance cfg); reflexivity.
    + destruct (pdfInstance cfg); reflexivity.
  - intros Hpdf Hpid Hid. split.
    + intros Hai Hkey. unfold startTranslation.
      rewrite Hpdf, Hpid, Hid, Hai, Hkey. reflexivity.
    + intros Hgate. cbv zeta.
      rewrite (startTranslation_run env cfg pdf projectId w Hpdf Hpid Hid
                 Hgate).
      set (start := Nat.max 1 (rangeStart cfg)).
      set (end_ := Nat.min (numPages cfg) (rangeEnd cfg)).
      destruct (forLoop_frame (S end_ - start) start start
                  (start + (S end_ - start)) (setIsProcessing true w)
                  (le_n _) (le_n _))
        as [Hal _].
      destruct (forLoop _ _ _ _) as [[[]|e] w1]; simpl in *.
      * split; [reflexivity |]. left. exact Hal.
      * split; [reflexivity |]. right. eexists. rewrite Hal. reflexivity.
Qed.

End PassFrame.

Section PassFrameWitnesses.
Import App.

Lemma pass_saves_only_range_pages_witness :
  savedPagesOnly "p1" 1 3 (store freshWorld)
    (store (snd (startTranslation offlineEnv (passConfig false) freshWorld))).
Proof.
  exact (pass_saves_only_range_pages offlineEnv (passConfig false) twoPagePdf
           "p1" freshWorld eq_refl eq_refl).
Defined.

Lemma completed_pass_saves_every_page_witness :
  exists w1 : World,
    forLoop 2 1 (translatePage offlineEnv (passConfig false) twoPagePdf "p1")
      (setIsProcessing true freshWorld)
    = (Returns tt, w1)
    /\ startTranslation offlineEnv (passConfig false) freshWorld
       = (Returns tt, setIsProcessing false w1)
    /\ alerts w1 = alerts freshWorld
    /\ forall n : nat, (1 <= n <= 2)%nat ->
         exists r : Db.PageRec,
           Db.pages (store w1) !! Db.pageKey "p1" n = Some r
           /\ Db.pageProjectId r = "p1"%string
           /\ pageNumber (Db.pageData r) = n.
Proof.
  eexists. split; [reflexivity |].
  apply (completed_pass_saves_every_page offlineEnv (passConfig false)
           twoPagePdf "p1" freshWorld); reflexivity.
Defined.

(** The model backend chosen and no key stored. *)
Definition keylessConfig : Config :=
  {| pdfInstance := Some twoPagePdf; activeProjectId := Some "p1"%string;
     useAI := true; hasStoredKey := false; apiKeyInput := "";
     rangeStart := 1; rangeEnd := 2; numPages := 2;
     inputLanguage := "English"; outputLanguage := "Português" |}.

(** No document loaded. *)
Definition closedConfig : Config :=
  {| pdfInstance := None; activeProjectId := Some "p1"%string;
     useAI := false; hasStoredKey := false; apiKeyInput := "";
     rangeStart := 1; rangeEnd := 2; numPages := 2;
     inputLanguage := "English"; outputLanguage := "Português" |}.

Lemma startTranslation_guards_and_cleanup_witness :
  startTranslation offlineEnv closedConfig freshWorld
  = (Returns tt, freshWorld)
  /\ startTranslation offlineEnv keylessConfig freshWorld
     = (Returns tt, setShowApiKeyModal true freshWorld)
  /\ (let w' :=
        snd (startTranslation offlineEnv (passConfig true) freshWorld) in
      isProcessing w' = false
      /\ (alerts w' = alerts freshWorld
          \/ exists m : string, alerts w' = alerts freshWorld ++ [m])).
Proof.
  split; [| split].
  - apply (proj1 (startTranslation_guards_and_cleanup offlineEnv
                    closedConfig twoPagePdf "p1" freshWorld)).
    left. reflexivity.
  - exact (proj1 (proj2 (startTranslation_guards_and_cleanup offlineEnv
                           keylessConfig twoPagePdf "p1" freshWorld)
                        eq_refl eq_refl eq_refl)
                 eq_refl eq_refl).
  - exact (proj2 (proj2 (startTranslation_guards_and_cleanup offlineEnv
                           (passConfig true) twoPagePdf "p1" freshWorld)
                        eq_refl eq_refl eq_refl)
                 eq_refl).
Defined.

End PassFrameWitnesses.

Section SavedPage.
Import App.
Open Scope R_scope.

(** What the pass saves for a text item: the geometry extraction gives,
the item's string as [originalText], and a text that is not empty. *)
Definition savedSegmentOf (viewport : Viewport) (item : TextItem)
    (s : TextSegment) : Prop :=
  originalText s = Some (str item)
  /\ text s <> []
  /\ fontSize s = sqrt (t0 (transform item) ^ 2 + t1 (transform item) ^ 2)
  /\ xRatio s = t4 (transform item) / vwidth viewport
  /\ yRatio s = (vheight viewport - t5 (transform item)) / vheight viewport
  /\ widthRatio s = width item / vwidth viewport
  /\ heightRatio s = fontSize s / vheight viewport
  /\ viewportWidth s = vwidth viewport
  /\ viewportHeight s = vheight viewport.

Lemma translatedOr_nonempty (translatedTexts : list jsstring) (i : nat)
    (dflt : jsstring) :
  dflt <> [] -> translatedOr translatedTexts i dflt <> [].
Proof.
  intros Hd.
  destruct (translatedOr_cases translatedTexts i dflt)
    as [[t [_ [Hne ->]]] | [_ ->]]; assumption.
Qed.

Lemma mergeSegment_saved (viewport : Viewport) (item : TextItem)
    (translatedTexts : list jsstring) (i : nat) :
  trim (str item) <> [] ->
  savedSegmentOf viewport item
    (mergeSegment translatedTexts i (toSegment viewport item)).
Proof.
  intros Hkeep.
  destruct (toSegment_segmentOf viewport item)
    as [Ht [Hf [Hx [Hy [Hw Hh]]]]].
  unfold savedSegmentOf, mergeSegment; simpl.
  split; [reflexivity |]. split.
  { apply translatedOr_nonempty. intros Hnil. apply Hkeep.
    rewrite Hnil. reflexivity. }
  split; [exact Hf |]. repeat split; reflexivity.
Qed.

(** X19. The page a round of the pass saves holds, for each text item
of the PDF page whose trimmed string is not empty and in their order,
one segment with the item's string as [originalText], the ratios and
font size extraction computes from the item, and a text that is never
empty; the saved image is the one rendered for the page. *)
Theorem saved_page_mirrors_items (env : Env) (cfg : Config) (pdf : Pdf)
    (projectId : string) (n : nat) (p : PdfPage) (w w' : World) :
  pdf n = Some p ->
  translatePage env cfg pdf projectId n w = (Returns tt, w') ->
  exists (r : Db.PageRec) (saved : list TextSegment),
    Db.pages (store w') !! Db.pageKey projectId n = Some r
    /\ pageNumber (Db.pageData r) = n
    /\ imageData (Db.pageData r) = Some (pageImage p)
    /\ segments (Db.pageData r) = Some saved
    /\ Forall2 (savedSegmentOf (pageViewport p))
               (filter (λ it : TextItem, trim (str it) ≠ []) (pageItems p))
               saved.
Proof.
  intros Hp Hrun.
  rewrite (translatePage_run env cfg pdf projectId n p w Hp) in Hrun.
  cbv zeta in Hrun.
  destruct (translate env cfg n _ _) as [[tt_|e] w2]; [| discriminate].
  injection Hrun as <-. eexists. eexists.
  split; [simpl; apply lookup_insert_eq |].
  split; [reflexivity |]. split; [reflexivity |]. split; [reflexivity |].
  unfold mergeSegments, extractTextSegments. rewrite filter_keepItem.
  set (kept := filter (λ it : TextItem, trim (str it) ≠ []) (pageItems p)).
  assert (Hkept : Forall (fun it : TextItem => trim (str it) <> []) kept).
  { apply Forall_forall. intros it Hin. unfold kept in Hin.
    apply list_elem_of_filter in Hin. tauto. }
  apply Forall2_same_length_lookup. split.
  - rewrite length_imap, length_map. reflexivity.
  - intros i item s Hitem Hs.
    rewrite list_lookup_imap, list_lookup_fmap, Hitem in Hs. simpl in Hs.
    injection Hs as <-. apply mergeSegment_saved.
    rewrite Forall_forall in Hkept. apply Hkept.
    eapply list_elem_of_lookup_2. exact Hitem.
Qed.

Lemma saved_page_mirrors_items_witness :
  exists (r : Db.PageRec) (saved : list TextSegment),
    Db.pages (store (snd (translatePage offlineEnv (passConfig false)
                            twoPagePdf "p1" 1 freshWorld)))
      !! Db.pageKey "p1" 1 = Some r
    /\ pageNumber (Db.pageData r) = 1%nat
    /\ imageData (Db.pageData r) = Some (pageImage bookPage)
    /\ segments (Db.pageData r) = Some saved
    /\ Forall2 (savedSegmentOf (pageViewport bookPage))
               (filter (λ it : TextItem, trim (str it) ≠ [])
                       (pageItems bookPage))
               saved.
Proof.
  apply (saved_page_mirrors_items offlineEnv (passConfig false) twoPagePdf
           "p1" 1 bookPage freshWorld); reflexivity.
Defined.

End SavedPage.

(** ** The application component: pages held in memory and their views *)

Module AppState.

(** [TranslationBatch] *)
Record TranslationBatch := mkBatch {
  batchId : string;
  startPage : nat;
  endPage : nat;
  batchPages : list TranslatedPage;
  timestamp : nat
}.

Inductive ViewMode := viewFeed | viewSingle | viewGrid.

(** [arr.sort((a, b) => key(a) - key(b))]: the stable ascending sort. *)
Fixpoint insertBy {A : Type} (key : A -> nat) (x : A) (l : list A) : list A :=
  match l with
  | [] => [x]
  | y :: l' => if (key x <=? key y)%nat then x :: y :: l'
               else y :: insertBy key x l'
  end.

Fixpoint sortBy {A : Type} (key : A -> nat) (l : list A) : list A :=
  match l with
  | [] => []
  | x :: l' => insertBy key x (sortBy key l')
  end.

(** [x => x.id === 'r'] *)
Definition isR (b : TranslationBatch) : bool := String.eqb (batchId b) "r".

Definition withPages (b : TranslationBatch) (ps : list TranslatedPage)
    : TranslationBatch :=
  {| batchId := batchId b; startPage := startPage b; endPage := endPage b;
     batchPages := ps; timestamp := timestamp b |}.

(** The change made to the first batch a predicate finds. *)
Fixpoint updateFirst (f : TranslationBatch -> bool)
    (g : TranslationBatch -> TranslationBatch) (bs : list TranslationBatch)
    : list TranslationBatch :=
  match bs with
  | [] => []
  | b :: bs' => if f b then g b :: bs' else b :: updateFirst f g bs'
  end.

(** [x => x.pageNumber !== pageNumber] *)
Definition otherPage (n : nat) (x : TranslatedPage) : bool :=
  negb (Nat.eqb (pageNumber x) n).

(** [updateLocalState(pageNumber, entry)] on [s.batches], with
[numPages = s.numPages]. *)
Definition updateLocalState (n : nat) (entry : option TranslatedPage)
    (numPages : nat) (batches : list TranslationBatch)
    : list TranslationBatch :=
  let b :=
    match List.find isR batches with
    | Some _ => batches
    | None => batches ++ [ {| batchId := "r"; startPage := 1;
                              endPage := numPages; batchPages := [];
                              timestamp := 0 |} ]
    end in
  updateFirst isR
    (fun m =>
       withPages m
         match entry with
         | Some e =>
             sortBy pageNumber (List.filter (otherPage n) (batchPages m) ++ [e])
         | None => List.filter (otherPage n) (batchPages m)
         end)
    b.

(** [bulkDeleteLocalPages(pageNumbers)] on [s.batches] and
[s.selectedPages]. *)
Definition notListed (pageNumbers : list nat) (n : nat) : bool :=
  negb (bool_decide (n ∈ pageNumbers)).

Definition bulkDeleteBatches (pageNumbers : list nat)
    (batches : list TranslationBatch) : list TranslationBatch :=
  List.map
    (fun b =>
       if isR b
       then withPages b
              (List.filter (fun p => notListed pageNumbers (pageNumber p))
                           (batchPages b))
       else b)
    batches.

Definition bulkDeleteSelected (pageNumbers : list nat)
    (selectedPages : list nat) : list nat :=
  List.filter (notListed pageNumbers) selectedPages.

(** [allPagesMap]: every page of every batch, set under its number, a
later one replacing an earlier one. *)
Definition allPagesMap (batches : list TranslationBatch)
    : gmap nat TranslatedPage :=
  fold_left
    (fun m b =>
       fold_left (fun m p => <[pageNumber p := p]> m) (batchPages b) m)
    batches ∅.

(** [state.selectedPages.filter(n => allPagesMap.has(n))] *)
Definition translatedInSelection (pagesMap : gmap nat TranslatedPage)
    (selectedPages : list nat) : list nat :=
  List.filter (fun n => bool_decide (is_Some (pagesMap !! n))) selectedPages.

Definition translatedSelectedCount (pagesMap : gmap nat TranslatedPage)
    (selectedPages : list nat) : nat :=
  length (translatedInSelection pagesMap selectedPages).

(** [Array.from(allPagesMap.keys()).sort((a, b) => a - b)]; the keys
of a map are distinct, so that the sorted array does not depend on the
order they are listed in. *)
Definition translatedPageNumbers (pagesMap : gmap nat TranslatedPage)
    : list nat :=
  sortBy (fun n : nat => n) (map_to_list pagesMap).*1.

(** [arr[i]] for a number [i]. *)
Definition at_ {A : Type} (l : list A) (i : Z) : option A :=
  if (i <? 0)%Z then None else l !! Z.to_nat i.

(** [visiblePageNumbers]; in the single view a page number 0 counts as
absent ([translatedPageNumbers[singlePageViewIndex] ? ... : []]). *)
Definition visiblePageNumbers (numbers : list nat) (mode : ViewMode)
    (visiblePagesCount : nat) (singlePageViewIndex : Z) : list nat :=
  match mode with
  | viewFeed => take visiblePagesCount numbers
  | viewSingle =>
      match at_ numbers singlePageViewIndex with
      | Some n => if Nat.eqb n 0 then [] else [n]
      | None => []
      end
  | viewGrid => numbers
  end.

(** [arr.indexOf(x)] *)
Fixpoint indexOfFrom (i : Z) (x : nat) (l : list nat) : Z :=
  match l with
  | [] => (-1)%Z
  | y :: l' => if Nat.eqb y x then i else indexOfFrom (i + 1)%Z x l'
  end.

Definition indexOf (x : nat) (l : list nat) : Z := indexOfFrom 0 x l.

(** The view state [jumpToPage] and the page buttons act on. *)
Record View := mkView {
  viewMode : ViewMode;
  singlePageViewIndex_ : Z;
  viewAlerts : list string;
  scrolledTo : option nat
}.

(** [jumpToPage(num)]. [hasAnchor num] tells whether the document holds
the element [page-anchor-num]; scrolling to it is recorded in
[scrolledTo]. *)
Definition jumpToPage (hasAnchor : nat -> bool) (numbers : list nat)
    (num : nat) (v : View) : View :=
  let idx := indexOf num numbers in
  if negb (Z.eqb idx (-1)) then
    match viewMode v with
    | viewSingle | viewGrid =>
        {| viewMode := viewSingle; singlePageViewIndex_ := idx;
           viewAlerts := viewAlerts v; scrolledTo := scrolledTo v |}
    | viewFeed =>
        {| viewMode := viewMode v;
           singlePageViewIndex_ := singlePageViewIndex_ v;
           viewAlerts := viewAlerts v;
           scrolledTo := if hasAnchor num then Some num else scrolledTo v |}
    end
  else
    {| viewMode := viewMode v;
       singlePageViewIndex_ := singlePageViewIndex_ v;
       viewAlerts := viewAlerts v
                     ++ ["Página não encontrada ou ainda não traduzida."];
       scrolledTo := scrolledTo v |}.

(** [prev => Math.max(0, prev - 1)] *)
Definition previousPage (prev : Z) : Z := Z.max 0 (prev - 1).

(** [prev => Math.min(translatedPageNumbers.length - 1, prev + 1)] *)
Definition nextPage (numbers : list nat) (prev : Z) : Z :=
  Z.min (Z.of_nat (length numbers) - 1) (prev + 1).

End AppState.
Import AppState.

(** ** Properties of the pages held in memory *)

Section LocalPages.

(** The pages of one batch, set on a map in order. *)
Definition setPages (m : gmap nat TranslatedPage) (ps : list TranslatedPage)
    : gmap nat TranslatedPage :=
  fold_left (fun m p => <[pageNumber p := p]> m) ps m.

Definition hasNumber (n : nat) (p : TranslatedPage) : bool :=
  Nat.eqb (pageNumber p) n.

Lemma setPages_snoc (m : gmap nat TranslatedPage) (ps : list TranslatedPage)
    (p : TranslatedPage) :
  setPages m (ps ++ [p]) = <[pageNumber p := p]> (setPages m ps).
Proof. unfold setPages. rewrite fold_left_app. reflexivity. Qed.

(** The page found under a number is the last one set with it. *)
Lemma setPages_lookup (m : gmap nat TranslatedPage)
    (ps : list TranslatedPage) (n : nat) :
  setPages m ps !! n
  = match last (List.filter (hasNumber n) ps) with
    | Some p => Some p
    | None => m !! n
    end.
Proof.
  induction ps as [|p ps IH] using rev_ind; [reflexivity |].
  rewrite setPages_snoc, List.filter_app. simpl. unfold hasNumber at 2.
  destruct (Nat.eqb_spec (pageNumber p) n) as [Heq | Hne].
  - rewrite last_snoc. subst n. apply lookup_insert_eq.
  - rewrite app_nil_r, lookup_insert_ne by exact Hne. exact IH.
Qed.

Lemma allPagesMap_fold (bs : list TranslationBatch)
    (m : gmap nat TranslatedPage) :
  fold_left
    (fun m b =>
       fold_left (fun m p => <[pageNumber p := p]> m) (batchPages b) m)
    bs m
  = setPages m (concat (List.map batchPages bs)).
Proof.
  revert m. induction bs as [|b bs IH]; intros m; [reflexivity |].
  simpl. rewrite IH. unfold setPages. rewrite fold_left_app. reflexivity.
Qed.

Lemma allPagesMap_lookup (bs : list TranslationBatch) (n : nat) :
  allPagesMap bs !! n
  = last (List.filter (hasNumber n) (concat (List.map batchPages bs))).
Proof.
  unfold allPagesMap. rewrite allPagesMap_fold, setPages_lookup.
  destruct (last _); [reflexivity | apply lookup_empty].
Qed.

(** The sort is stable: the elements with one key keep their order. *)
Lemma insertBy_filter {A : Type} (key : A -> nat) (n : nat) (x : A)
    (l : list A) :
  List.filter (fun y => Nat.eqb (key y) n) (insertBy key x l)
  = List.filter (fun y => Nat.eqb (key y) n) (x :: l).
Proof.
  induction l as [|y l IH]; [reflexivity |].
  simpl. destruct (Nat.leb_spec (key x) (key y)) as [Hle | Hgt];
    [reflexivity |].
  simpl. simpl in IH. rewrite IH.
  destruct (Nat.eqb_spec (key x) n) as [Hx | Hx];
    destruct (Nat.eqb_spec (key y) n) as [Hy | Hy]; try reflexivity.
  lia.
Qed.

Lemma sortBy_filter {A : Type} (key : A -> nat) (n : nat) (l : list A) :
  List.filter (fun y => Nat.eqb (key y) n) (sortBy key l)
  = List.filter (fun y => Nat.eqb (key y) n) l.
Proof.
  induction l as [|x l IH]; [reflexivity |].
  simpl sortBy. rewrite insertBy_filter. simpl. rewrite IH. reflexivity.
Qed.

Lemma insertBy_Permutation {A : Type} (key : A -> nat) (x : A)
    (l : list A) :
  insertBy key x l ≡ₚ x :: l.
Proof.
  induction l as [|y l IH]; [reflexivity |].
  simpl. destruct (key x <=? key y)%nat; [reflexivity |].
  rewrite IH. apply Permutation_swap.
Qed.

Lemma sortBy_Permutation {A : Type} (key : A -> nat) (l : list A) :
  sortBy key l ≡ₚ l.
Proof.
  induction l as [|x l IH]; [reflexivity |].
  simpl. rewrite insertBy_Permutation, IH. reflexivity.
Qed.

Lemma insertBy_sorted {A : Type} (key : A -> nat) (x : A) (l : list A) :
  StronglySorted (fun a b => (key a <= key b)%nat) l ->
  StronglySorted (fun a b => (key a <= key b)%nat) (insertBy key x l).
Proof.
  induction 1 as [|y l Hs IH Hall]; simpl.
  - repeat constructor.
  - destruct (Nat.leb_spec (key x) (key y)) as [Hle | Hgt].
    + constructor; [constructor; assumption |].
      constructor; [exact Hle |].
      eapply Forall_impl; [exact Hall |]. simpl. intros z Hz. lia.
    + constructor; [exact IH |].
      rewrite insertBy_Permutation. constructor; [lia | exact Hall].
Qed.

Lemma sortBy_sorted {A : Type} (key : A -> nat) (l : list A) :
  StronglySorted (fun a b => (key a <= key b)%nat) (sortBy key l).
Proof.
  induction l as [|x l IH]; simpl; [constructor |].
  apply insertBy_sorted. exact IH.
Qed.

Lemma filter_hasNumber_other (n k : nat) (ps : list TranslatedPage) :
  k <> n ->
  List.filter (hasNumber k) (List.filter (otherPage n) ps)
  = List.filter (hasNumber k) ps.
Proof.
  intros Hne. induction ps as [|p ps IH]; [reflexivity |].
  simpl. unfold otherPage at 1, hasNumber at 2.
  destruct (Nat.eqb_spec (pageNumber p) n) as [Hp | Hp]; simpl.
  - destruct (Nat.eqb_spec (pageNumber p) k) as [Hk | Hk]; [lia | exact IH].
  - unfold hasNumber at 1.
    destruct (Nat.eqb_spec (pageNumber p) k); rewrite IH; reflexivity.
Qed.

Lemma filter_hasNumber_same (n : nat) (ps : list TranslatedPage) :
  List.filter (hasNumber n) (List.filter (otherPage n) ps) = [].
Proof.
  induction ps as [|p ps IH]; [reflexivity |].
  simpl. unfold otherPage at 1.
  destruct (Nat.eqb_spec (pageNumber p) n) as [Hp | Hp]; simpl;
    [exact IH |].
  unfold hasNumber at 1.
  destruct (Nat.eqb_spec (pageNumber p) n); [contradiction | exact IH].
Qed.

(** The batches the component builds: none, or the one batch ['r']. *)
Definition ownBatch (bs : list TranslationBatch) : Prop :=
  match bs with
  | [] => True
  | [b] => isR b = true
  | _ => False
  end.

Lemma updateLocalState_own (n : nat) (entry : option TranslatedPage)
    (numPages : nat) (bs : list TranslationBatch) :
  ownBatch bs ->
  exists b : TranslationBatch,
    AppState.updateLocalState n entry numPages bs = [b]
    /\ isR b = true
    /\ batchPages b
       = let ps := List.filter (otherPage n)
                     (concat (List.map batchPages bs)) in
         match entry with
         | Some e => sortBy pageNumber (ps ++ [e])
         | None => ps
         end.
Proof.
  destruct bs as [|b [|b' bs]]; simpl; [| | contradiction].
  - intros _. unfold AppState.updateLocalState. simpl.
    eexists. split; [reflexivity |]. split; [reflexivity |].
    destruct entry; reflexivity.
  - intros Hr. unfold AppState.updateLocalState. simpl. rewrite Hr.
    simpl. rewrite Hr. eexists. split; [reflexivity |].
    split; [exact Hr |]. simpl. rewrite app_nil_r. reflexivity.
Qed.

Lemma updateLocalState_map (n : nat) (entry : option TranslatedPage)
    (numPages : nat) (bs : list TranslationBatch) :
  ownBatch bs ->
  (forall e : TranslatedPage, entry = Some e -> pageNumber e = n) ->
  ownBatch (AppState.updateLocalState n entry numPages bs)
  /\ allPagesMap (AppState.updateLocalState n entry numPages bs)
     = match entry with
       | Some e => <[n := e]> (allPagesMap bs)
       | None => delete n (allPagesMap bs)
       end.
Proof.
  intros Hown Hnum.
  destruct (updateLocalState_own n entry numPages bs Hown)
    as [b [Hbs [Hr Hps]]].
  rewrite Hbs. split; [exact Hr |].
  apply map_eq. intros k.
  rewrite allPagesMap_lookup. simpl. rewrite app_nil_r, Hps. cbv zeta.
  destruct entry as [e|].
  - specialize (Hnum e eq_refl).
    unfold hasNumber. rewrite (sortBy_filter pageNumber k).
    fold (hasNumber k). rewrite List.filter_app. simpl.
    unfold hasNumber at 2. rewrite Hnum.
    destruct (Nat.eqb_spec n k) as [-> | Hne].
    + rewrite last_snoc, lookup_insert_eq. reflexivity.
    + rewrite app_nil_r, lookup_insert_ne by exact Hne.
      rewrite filter_hasNumber_other by auto.
      symmetry. apply allPagesMap_lookup.
  - destruct (Nat.eq_dec n k) as [-> | Hne].
    + rewrite filter_hasNumber_same, lookup_delete_eq. reflexivity.
    + rewrite lookup_delete_ne by exact Hne.
      rewrite filter_hasNumber_other by auto.
      symmetry. apply allPagesMap_lookup.
Qed.

(** X20. On the batches the component builds, [updateLocalState] acts
on the page map as one map operation: with an entry numbered [n] the
map afterwards is the map before with that entry set under [n]; with
[null] it is the map before without [n]. The result is again the one
batch ['r']. *)
Theorem updateLocalState_is_map_update (n : nat)
    (entry : option TranslatedPage) (numPages : nat)
    (bs : list TranslationBatch) :
  ownBatch bs ->
  (forall e : TranslatedPage, entry = Some e -> pageNumber e = n) ->
  ownBatch (AppState.updateLocalState n entry numPages bs)
  /\ allPagesMap (AppState.updateLocalState n entry numPages bs)
     = match entry with
       | Some e => <[n := e]> (allPagesMap bs)
       | None => delete n (allPagesMap bs)
       end.
Proof. exact (updateLocalState_map n entry numPages bs). Qed.

End LocalPages.

Section LocalPagesExamples.

Definition pageNumbered (n : nat) : TranslatedPage :=
  {| pageNumber := n; pageOriginalText := pageOriginalText examplePage;
     translatedHtml := translatedHtml examplePage;
     imageData := imageData examplePage;
     segments := segments examplePage; mode := mode examplePage |}.

Definition exampleBatches : list TranslationBatch :=
  [ {| batchId := "r"; startPage := 1; endPage := 3;
       batchPages := [pageNumbered 3; pageNumbered 1]; timestamp := 0 |} ].

Lemma updateLocalState_is_map_update_witness :
  ownBatch (AppState.updateLocalState 2 (Some (pageNumbered 2)) 3
              exampleBatches)
  /\ allPagesMap (AppState.updateLocalState 2 (Some (pageNumbered 2)) 3
                    exampleBatches)
     = <[2%nat := pageNumbered 2]> (allPagesMap exampleBatches).
Proof.
  apply (updateLocalState_is_map_update 2 (Some (pageNumbered 2)) 3
           exampleBatches).
  - reflexivity.
  - intros e He. injection He as <-. reflexivity.
Defined.

End LocalPagesExamples.

Section Views.

Lemma sorted_le_NoDup_lt (l : list nat) :
  StronglySorted le l -> NoDup l -> StronglySorted lt l.
Proof.
  induction 1 as [|x l Hs IH Hall]; intros Hnd; [constructor |].
  apply NoDup_cons in Hnd as [Hx Hnd].
  constructor; [apply IH; exact Hnd |].
  apply Forall_forall. intros y Hy.
  rewrite Forall_forall in Hall. specialize (Hall y Hy).
  assert (x <> y) by (intros ->; contradiction). lia.
Qed.

Lemma translatedPageNumbers_elem (m : gmap nat TranslatedPage) (n : nat) :
  n ∈ translatedPageNumbers m <-> is_Some (m !! n).
Proof.
  unfold translatedPageNumbers. rewrite sortBy_Permutation.
  rewrite list_elem_of_fmap. split.
  - intros [[k p] [-> Hkp]]. apply elem_of_map_to_list in Hkp.
    simpl. eauto.
  - intros [p Hp]. exists (n, p). split; [reflexivity |].
    apply elem_of_map_to_list. exact Hp.
Qed.

Lemma translatedPageNumbers_sorted (m : gmap nat TranslatedPage) :
  StronglySorted lt (translatedPageNumbers m).
Proof.
  unfold translatedPageNumbers. apply sorted_le_NoDup_lt.
  - apply (sortBy_sorted (fun n : nat => n)).
  - rewrite sortBy_Permutation. apply NoDup_fst_map_to_list.
Qed.

(** X21. The list of translated page numbers is strictly increasing
and holds exactly the numbers that have a page in the page map; the
page found under a number carries that number. *)
Theorem translatedPageNumbers_spec (bs : list TranslationBatch) :
  StronglySorted lt (translatedPageNumbers (allPagesMap bs))
  /\ forall n : nat,
       n ∈ translatedPageNumbers (allPagesMap bs)
       <-> exists p : TranslatedPage,
             allPagesMap bs !! n = Some p /\ pageNumber p = n.
Proof.
  split; [apply translatedPageNumbers_sorted |].
  intros n. rewrite translatedPageNumbers_elem. split.
  - intros [p Hp]. exists p. split; [exact Hp |].
    rewrite allPagesMap_lookup in Hp. apply last_Some_elem_of in Hp.
    apply list_elem_of_In, List.filter_In in Hp as [_ Hp].
    apply Nat.eqb_eq. exact Hp.
  - intros [p [Hp _]]. eauto.
Qed.

Lemma at_elem {A : Type} (l : list A) (i : Z) (x : A) :
  at_ l i = Some x -> x ∈ l.
Proof.
  unfold at_. destruct (i <? 0)%Z; [discriminate |].
  apply list_elem_of_lookup_2.
Qed.

Lemma visiblePageNumbers_sublist (numbers : list nat) (mode : ViewMode)
    (count : nat) (i : Z) :
  sublist (visiblePageNumbers numbers mode count i) numbers.
Proof.
  destruct mode; simpl.
  - apply sublist_take.
  - destruct (at_ numbers i) as [n|] eqn:Hn; [| apply sublist_nil_l].
    destruct (Nat.eqb n 0); [apply sublist_nil_l |].
    apply at_elem in Hn. apply singleton_sublist_l in Hn. exact Hn.
  - reflexivity.
Qed.

(** X22. In every view mode, with any feed length and any focus index,
each page number the view renders has a page in the page map, so that
the lookup [allPagesMap.get(n)!] made for it finds one; and the rendered
numbers are distinct. *)
Theorem visible_pages_have_a_page (bs : list TranslationBatch)
    (mode : ViewMode) (visiblePagesCount : nat) (singlePageViewIndex : Z) :
  let visible :=
    visiblePageNumbers (translatedPageNumbers (allPagesMap bs)) mode
      visiblePagesCount singlePageViewIndex in
  Forall (fun n => is_Some (allPagesMap bs !! n)) visible /\ NoDup visible.
Proof.
  cbv zeta.
  pose proof (visiblePageNumbers_sublist
                (translatedPageNumbers (allPagesMap bs)) mode
                visiblePagesCount singlePageViewIndex) as Hsub.
  split.
  - apply Forall_forall. intros n Hn.
    apply translatedPageNumbers_elem.
    eapply sublist_submseteq, elem_of_submseteq in Hsub; eauto.
  - eapply sublist_NoDup; [| exact Hsub].
    unfold translatedPageNumbers. rewrite sortBy_Permutation.
    apply NoDup_fst_map_to_list.
Qed.

Lemma indexOfFrom_spec (x : nat) (l : list nat) (i : Z) :
  (x ∈ l ->
   exists k : nat, indexOfFrom i x l = (i + Z.of_nat k)%Z /\ l !! k = Some x)
  /\ (x ∉ l -> indexOfFrom i x l = (-1)%Z).
Proof.
  revert i. induction l as [|y l IH]; intros i.
  - split; [intros H; inversion H | reflexivity].
  - simpl. destruct (Nat.eqb_spec y x) as [-> | Hne].
    + split.
      * intros _. exists 0%nat. split; [lia | reflexivity].
      * intros H. exfalso. apply H. left.
    + split.
      * intros H. apply elem_of_cons in H as [-> | H]; [contradiction |].
        destruct (proj1 (IH (i + 1)%Z) H) as [k [Hk Hlk]].
        exists (S k). split; [lia | exact Hlk].
      * intros H. apply (IH (i + 1)%Z). intros Hin. apply H. right.
        exact Hin.
Qed.

(** X23. In the single and the grid view, jumping to a translated page
other than 0 switches to the single view with that page, and only that
page, rendered, and raises no alert. *)
Theorem jumpToPage_shows_the_page (hasAnchor : nat -> bool)
    (numbers : list nat) (num : nat) (v : View) (visiblePagesCount : nat) :
  num ∈ numbers -> num <> 0%nat -> viewMode v <> viewFeed ->
  let v' := jumpToPage hasAnchor numbers num v in
  viewMode v' = viewSingle
  /\ visiblePageNumbers numbers (viewMode v') visiblePagesCount
       (singlePageViewIndex_ v') = [num]
  /\ viewAlerts v' = viewAlerts v.
Proof.
  intros Hin Hnz Hmode. cbv zeta. unfold jumpToPage, indexOf.
  destruct (proj1 (indexOfFrom_spec num numbers 0) Hin) as [k [Hk Hlk]].
  rewrite Hk.
  destruct (Z.eqb_spec (0 + Z.of_nat k) (-1)) as [Hbad | _]; [lia |].
  simpl negb. cbv iota.
  assert (Hvis : visiblePageNumbers numbers viewSingle visiblePagesCount
                   (0 + Z.of_nat k) = [num]).
  { simpl. unfold at_.
    destruct (Z.ltb_spec (0 + Z.of_nat k) 0) as [Hneg | _]; [lia |].
    replace (Z.to_nat (0 + Z.of_nat k)) with k by lia. rewrite Hlk.
    destruct (Nat.eqb_spec num 0); [contradiction | reflexivity]. }
  destruct (viewMode v); [contradiction | |]; simpl;
    (split; [reflexivity |]); (split; [exact Hvis | reflexivity]).
Qed.

(** Jumping to a number that has no translated page changes nothing of
the view and raises the alert that the page was not found. *)
Lemma jumpToPage_unknown_page_alerts (hasAnchor : nat -> bool)
    (numbers : list nat) (num : nat) (v : View) :
  num ∉ numbers ->
  jumpToPage hasAnchor numbers num v
  = {| viewMode := viewMode v;
       singlePageViewIndex_ := singlePageViewIndex_ v;
       viewAlerts := viewAlerts v
                     ++ ["Página não encontrada ou ainda não traduzida."];
       scrolledTo := scrolledTo v |}.
Proof.
  intros Hnot. unfold jumpToPage, indexOf.
  rewrite (proj2 (indexOfFrom_spec num numbers 0) Hnot). reflexivity.
Qed.

(** While some page is translated and the focus index is in range, the
two page buttons keep it in range, so that the single view goes on
rendering exactly one page. *)
Lemma page_buttons_stay_in_range (numbers : list nat) (i : Z)
    (visiblePagesCount : nat) :
  (0 <= i < Z.of_nat (length numbers))%Z -> (0%nat ∉ numbers) ->
  forall j : Z, j = previousPage i \/ j = nextPage numbers i ->
    (0 <= j < Z.of_nat (length numbers))%Z
    /\ (i - 1 <= j <= i + 1)%Z
    /\ exists n : nat,
         n ∈ numbers
         /\ visiblePageNumbers numbers viewSingle visiblePagesCount j = [n].
Proof.
  intros Hi Hz j Hj.
  assert (Hr : (0 <= j < Z.of_nat (length numbers))%Z
               /\ (i - 1 <= j <= i + 1)%Z).
  { unfold previousPage, nextPage in Hj. lia. }
  split; [apply Hr |]. split; [apply Hr |].
  destruct (lookup_lt_is_Some_2 numbers (Z.to_nat j) ltac:(lia)) as [n Hn].
  exists n. split; [eapply list_elem_of_lookup_2; exact Hn |].
  simpl. unfold at_.
  destruct (Z.ltb_spec j 0) as [Hneg | _]; [lia |]. rewrite Hn.
  destruct (Nat.eqb_spec n 0) as [-> | _]; [| reflexivity].
  exfalso. apply Hz. eapply list_elem_of_lookup_2. exact Hn.
Qed.

End Views.

(** ** The application component: projects loaded and pages deleted *)

Module Session.

(** The state of the component that loading a project and deleting
pages read and write: fields of [state] and the hooks [rangeInput],
[visiblePagesCount], [singlePageViewIndex], [viewMode] and
[pdfInstance]. *)
Record State := mkState {
  activeProjectId : option string;
  numPages : nat;
  batches : list TranslationBatch;
  inputLanguage : string;
  outputLanguage : string;
  selectedPages : list nat;
  rangeInput : string * string;
  visiblePagesCount : nat;
  singlePageViewIndex : Z;
  viewMode : ViewMode;
  pdfInstance : option App.Pdf;
  alerts : list string
}.

(** [value || dflt] for a language name. *)
Definition languageOr (value dflt : string) : string :=
  if nonEmpty value then value else dflt.

(** [loadProject(id)]. [getDocument] stands for
[pdfjsLib.getDocument({ data }).promise], which may reject. The records
of the store serve as the pages, in the order the index lists them. *)
Definition loadProject (getDocument : list N -> Outcome App.Pdf)
    (id : string) (db : Db.DB) (st : State) : Outcome State :=
  let ps := Db.getAllProjects db in
  match List.find (fun x => String.eqb (Db.projId x) id) ps with
  | None => Returns st
  | Some p =>
      let pgs := Db.getProjectPages id db in
      let loaded :=
        match Db.getFile id db with
        | Some buf =>
            match getDocument buf with
            | Returns pdf => Returns (Some pdf)
            | Throws e => Throws e
            end
        | None => Returns (pdfInstance st)
        end in
      match loaded with
      | Throws e => Throws e
      | Returns pdf =>
          Returns
            {| activeProjectId := Some id;
               numPages := Db.projNumPages p;
               batches :=
                 [ {| batchId := "r"; startPage := 1;
                      endPage := Db.projNumPages p;
                      batchPages := List.map Db.pageData pgs;
                      timestamp := 0 |} ];
               inputLanguage := languageOr (Db.projInputLanguage p) "English";
               outputLanguage :=
                 languageOr (Db.projOutputLanguage p) "Português";
               selectedPages :=
                 List.map (fun r => pageNumber (Db.pageData r)) pgs;
               rangeInput := ("1"%string, pretty (Db.projNumPages p));
               visiblePagesCount := 3;
               singlePageViewIndex := 0;
               viewMode := viewFeed;
               pdfInstance := pdf;
               alerts := alerts st |}
      end
  end.

(** [bulkDeleteLocalPages(pageNumbers)] *)
Definition bulkDeleteLocalPages (pageNumbers : list nat) (st : State)
    : State :=
  {| activeProjectId := activeProjectId st;
     numPages := numPages st;
     batches := bulkDeleteBatches pageNumbers (batches st);
     inputLanguage := inputLanguage st;
     outputLanguage := outputLanguage st;
     selectedPages := bulkDeleteSelected pageNumbers (selectedPages st);
     rangeInput := rangeInput st;
     visiblePagesCount := visiblePagesCount st;
     singlePageViewIndex :=
       match viewMode st with
       | viewSingle => 0
       | _ => singlePageViewIndex st
       end;
     viewMode := viewMode st;
     pdfInstance := pdfInstance st;
     alerts := alerts st |}.

(** What a click on a delete button leaves open: nothing, or the dialog
whose confirmation deletes the listed pages of the project. *)
Inductive Dialog :=
| NoDialog
| ConfirmDelete (projectId : string) (pageNumbers : list nat).

Definition alert (message : string) (st : State) : State :=
  {| activeProjectId := activeProjectId st;
     numPages := numPages st;
     batches := batches st;
     inputLanguage := inputLanguage st;
     outputLanguage := outputLanguage st;
     selectedPages := selectedPages st;
     rangeInput := rangeInput st;
     visiblePagesCount := visiblePagesCount st;
     singlePageViewIndex := singlePageViewIndex st;
     viewMode := viewMode st;
     pdfInstance := pdfInstance st;
     alerts := alerts st ++ [message] |}.

(** The click on [Apagar Lote]. *)
Definition deleteBatchClicked (st : State) : State * Dialog :=
  match activeProjectId st with
  | None => (st, NoDialog)
  | Some id =>
      if negb (nonEmpty id) || Nat.eqb (length (selectedPages st)) 0
      then (st, NoDialog)
      else
        let translatedInSelection :=
          AppState.translatedInSelection (allPagesMap (batches st))
            (selectedPages st) in
        if Nat.eqb (length translatedInSelection) 0
        then (alert "Nenhuma tradução selecionada." st, NoDialog)
        else (st, ConfirmDelete id translatedInSelection)
  end.

(** The click on the delete button of page [n]. *)
Definition deletePageClicked (n : nat) (st : State) : State * Dialog :=
  match activeProjectId st with
  | None => (st, NoDialog)
  | Some id =>
      if negb (nonEmpty id) then (st, NoDialog)
      else (st, ConfirmDelete id [n])
  end.

(** [onConfirm] of the dialog. *)
Definition onConfirm (d : Dialog) (db : Db.DB) (st : State)
    : Db.DB * State :=
  match d with
  | NoDialog => (db, st)
  | ConfirmDelete projectId pageNumbers =>
      (Db.deletePagesFromProject projectId pageNumbers db,
       bulkDeleteLocalPages pageNumbers st)
  end.

End Session.

(** ** Memory and store agree *)

Section Sync.

(** The page map holds, under each number, the page the store holds
for the project under that number. *)
Definition inSync (projectId : string) (db : Db.DB)
    (m : gmap nat TranslatedPage) : Prop :=
  forall n : nat,
    m !! n = Db.pageData <$> (Db.pages db !! Db.pageKey projectId n).

Lemma map_is_fmap {A B : Type} (f : A -> B) (l : list A) :
  List.map f l = f <$> l.
Proof. induction l as [|x l IH]; [reflexivity |]. simpl. rewrite IH. reflexivity. Qed.

Lemma fmap_thrice {A B C D : Type} (f : A -> B) (g : B -> C) (h : C -> D)
    (l : list A) :
  h <$> (g <$> (f <$> l)) = (fun x => h (g (f x))) <$> l.
Proof.
  induction l as [|x l IH]; [reflexivity |]. rewrite !fmap_cons, IH.
  reflexivity.
Qed.

Lemma filter_none {A : Type} (f : A -> bool) (l : list A) :
  (forall x : A, x ∈ l -> f x = false) -> List.filter f l = [].
Proof.
  induction l as [|x l IH]; intros H; [reflexivity |].
  simpl. rewrite (H x) by left. apply IH. intros y Hy. apply H. right.
  exact Hy.
Qed.

Lemma filter_hasNumber_unique (ps : list TranslatedPage)
    (p : TranslatedPage) :
  NoDup (pageNumber <$> ps) -> p ∈ ps ->
  List.filter (hasNumber (pageNumber p)) ps = [p].
Proof.
  induction ps as [|q ps IH]; intros Hnd Hin; [inversion Hin |].
  rewrite fmap_cons in Hnd. apply NoDup_cons in Hnd as [Hq Hnd].
  simpl. unfold hasNumber at 1.
  apply elem_of_cons in Hin as [<- | Hin].
  - rewrite Nat.eqb_refl. f_equal. apply filter_none.
    intros x Hx. apply Nat.eqb_neq. intros Heq. apply Hq.
    rewrite <- Heq. apply list_elem_of_fmap. exists x. split; [reflexivity | exact Hx].
  - destruct (Nat.eqb_spec (pageNumber q) (pageNumber p)) as [Heq | _].
    + exfalso. apply Hq. rewrite Heq. apply list_elem_of_fmap.
      exists p. split; [reflexivity | exact Hin].
    + apply IH; assumption.
Qed.

Lemma find_project (id : string) (db : Db.DB) :
  Db.keyed db ->
  List.find (fun x => String.eqb (Db.projId x) id) (Db.getAllProjects db)
  = Db.projects db !! id.
Proof.
  intros [Hkey _].
  destruct (List.find _ _) as [p|] eqn:Hfind.
  - apply List.find_some in Hfind as [Hin Hid].
    apply String.eqb_eq in Hid.
    apply list_elem_of_In in Hin. unfold Db.getAllProjects in Hin.
    apply list_elem_of_fmap in Hin as [[k q] [-> Hkq]].
    apply elem_of_map_to_list in Hkq. simpl in Hid.
    rewrite (Hkey k q Hkq) in Hid. subst k. symmetry. exact Hkq.
  - destruct (Db.projects db !! id) as [p|] eqn:Hp; [| reflexivity].
    exfalso.
    assert (Hin : In p (Db.getAllProjects db)).
    { apply list_elem_of_In. unfold Db.getAllProjects.
      apply list_elem_of_fmap. exists (id, p). split; [reflexivity |].
      apply elem_of_map_to_list. exact Hp. }
    pose proof (List.find_none _ _ Hfind p Hin) as Hno. simpl in Hno.
    rewrite (Hkey id p Hp), String.eqb_refl in Hno. discriminate.
Qed.

Lemma projectPages_NoDup (id : string) (db : Db.DB) :
  pagesKeyed db ->
  NoDup (pageNumber <$> List.map Db.pageData (Db.getProjectPages id db)).
Proof.
  intros Hkeyed.
  change (NoDup (pageNumber <$> (Db.pageData
                   <$> Db.getProjectPages id db))).
  unfold Db.getProjectPages, Db.indexGetAll.
  rewrite fmap_thrice.
  apply NoDup_fmap_2_strong; [| apply NoDup_map_to_list].
  intros [k1 r1] [k2 r2] H1 H2 Heq. simpl in Heq.
  apply elem_of_map_to_list, map_lookup_filter_Some in H1 as [H1 Hp1].
  apply elem_of_map_to_list, map_lookup_filter_Some in H2 as [H2 Hp2].
  simpl in Hp1, Hp2.
  pose proof (Hkeyed k1 r1 H1) as Hk1. pose proof (Hkeyed k2 r2 H2) as Hk2.
  rewrite Hp1 in Hk1. rewrite Hp2, <- Heq, <- Hk1 in Hk2. subst k2.
  rewrite H1 in H2. injection H2 as <-. reflexivity.
Qed.

Lemma projectPages_inSync (id : string) (db : Db.DB)
    (b : TranslationBatch) :
  pagesKeyed db ->
  batchPages b = List.map Db.pageData (Db.getProjectPages id db) ->
  inSync id db (allPagesMap [b]).
Proof.
  intros Hkeyed Hb n. rewrite allPagesMap_lookup. simpl.
  rewrite app_nil_r, Hb.
  destruct (Db.pages db !! Db.pageKey id n) as [r|] eqn:Hr; simpl.
  - pose proof (Hkeyed _ r Hr) as Hk.
    apply pageKey_eq in Hk as [Hid Hn].
    assert (Hin : Db.pageData r
                  ∈ List.map Db.pageData (Db.getProjectPages id db)).
    { rewrite map_is_fmap. apply list_elem_of_fmap. exists r.
      split; [reflexivity |]. apply indexGetAll_elem.
      exists (Db.pageKey id n). split; [exact Hr | symmetry; exact Hid]. }
    rewrite Hn.
    rewrite (filter_hasNumber_unique _ _ (projectPages_NoDup id db Hkeyed)
               Hin).
    reflexivity.
  - destruct (last _) as [p|] eqn:Hlast; [| reflexivity].
    exfalso. apply last_Some_elem_of in Hlast.
    apply list_elem_of_In, List.filter_In in Hlast as [Hin Hnum].
    apply Nat.eqb_eq in Hnum.
    apply list_elem_of_In in Hin. rewrite map_is_fmap in Hin.
    apply list_elem_of_fmap in Hin as [r [-> Hr']].
    apply indexGetAll_elem in Hr' as [k [Hk Hid]].
    pose proof (Hkeyed k r Hk) as Hkey. rewrite Hid, Hnum in Hkey.
    subst k. rewrite Hk in Hr. discriminate.
Qed.

(** X24. Loading a project that the store holds leaves the component
with the single batch ['r'] whose page map mirrors the store: under each
number the page the store holds for this project under that number.
Every loaded page is selected, once, and the view is back on the feed. *)
Theorem loadProject_mirrors_store
    (getDocument : list N -> Outcome App.Pdf) (id : string) (db : Db.DB)
    (p : Db.Project) (st st' : Session.State) :
  Db.keyed db -> pagesKeyed db ->
  Db.projects db !! id = Some p ->
  Session.loadProject getDocument id db st = Returns st' ->
  Session.activeProjectId st' = Some id
  /\ Session.numPages st' = Db.projNumPages p
  /\ ownBatch (Session.batches st')
  /\ inSync id db (allPagesMap (Session.batches st'))
  /\ (forall n : nat,
        n ∈ Session.selectedPages st'
        <-> is_Some (allPagesMap (Session.batches st') !! n))
  /\ NoDup (Session.selectedPages st')
  /\ Session.viewMode st' = viewFeed
  /\ Session.singlePageViewIndex st' = 0%Z.
Proof.
  intros Hkey Hpages Hp Hload. unfold Session.loadProject in Hload.
  cbv zeta in Hload. rewrite (find_project id db Hkey), Hp in Hload.
  assert (Hsel : forall l : list Db.PageRec,
            List.map (fun r => pageNumber (Db.pageData r)) l
            = pageNumber <$> List.map Db.pageData l).
  { intros l. induction l as [|r l IH]; [reflexivity |].
    simpl. rewrite IH. reflexivity. }
  assert (Hsync : forall b : TranslationBatch,
            batchPages b = List.map Db.pageData (Db.getProjectPages id db) ->
            inSync id db (allPagesMap [b])
            /\ forall n : nat,
                 n ∈ List.map (fun r => pageNumber (Db.pageData r))
                      (Db.getProjectPages id db)
                 <-> is_Some (allPagesMap [b] !! n)).
  { intros b Hb.
    pose proof (projectPages_inSync id db b Hpages Hb) as Hs.
    split; [exact Hs |]. intros n. rewrite (Hs n), Hsel.
    rewrite list_elem_of_fmap. split.
    - intros [q [-> Hq]]. rewrite map_is_fmap in Hq.
      apply list_elem_of_fmap in Hq as [r [-> Hr]].
      apply indexGetAll_elem in Hr as [k [Hk Hid]].
      pose proof (Hpages k r Hk) as Hkk. rewrite Hid in Hkk.
      rewrite <- Hkk, Hk. simpl. eauto.
    - intros [q Hq]. apply fmap_Some in Hq as [r [Hr ->]].
      pose proof (Hpages _ r Hr) as Hkk.
      apply pageKey_eq in Hkk as [Hid Hn].
      exists (Db.pageData r). split; [exact Hn |].
      rewrite map_is_fmap. apply list_elem_of_fmap. exists r.
      split; [reflexivity |]. apply indexGetAll_elem.
      exists (Db.pageKey id n). split; [exact Hr | symmetry; exact Hid]. }
  destruct (Db.getFile id db) as [buf|];
    [destruct (getDocument buf) as [pdf|e]; [| discriminate] |];
    injection Hload as <-; simpl;
    (split; [reflexivity |]); (split; [reflexivity |]);
    (split; [reflexivity |]);
    (split; [apply Hsync; reflexivity |]);
    (split; [apply Hsync; reflexivity |]);
    (split; [rewrite Hsel; apply projectPages_NoDup; exact Hpages |]);
    split; reflexivity.
Qed.

(** X25. Loading a project right after it was deleted changes nothing
of the component. *)
Theorem loadProject_after_delete_is_noop
    (getDocument : list N -> Outcome App.Pdf) (id : string) (db : Db.DB)
    (st : Session.State) :
  Db.keyed db ->
  Session.loadProject getDocument id (Db.deleteProject id db) st
  = Returns st.
Proof.
  intros Hkey. unfold Session.loadProject. cbv zeta.
  rewrite (find_project id _ (keyed_deleteProject id db Hkey)).
  simpl. rewrite lookup_delete_eq. reflexivity.
Qed.

Lemma bulkDeleteBatches_own (ns : list nat) (bs : list TranslationBatch) :
  ownBatch bs -> ownBatch (bulkDeleteBatches ns bs).
Proof.
  destruct bs as [|b [|b' bs]]; simpl; [tauto | | tauto].
  intros Hr. rewrite Hr. exact Hr.
Qed.

Lemma filter_hasNumber_listed (ns : list nat) (n : nat)
    (ps : list TranslatedPage) :
  List.filter (hasNumber n)
    (List.filter (fun p => notListed ns (pageNumber p)) ps)
  = if bool_decide (n ∈ ns) then [] else List.filter (hasNumber n) ps.
Proof.
  induction ps as [|p ps IH]; [destruct (bool_decide _); reflexivity |].
  cbn [List.filter]. unfold notListed at 1.
  destruct (bool_decide (pageNumber p ∈ ns)) eqn:Hp; cbn [negb].
  - rewrite IH. destruct (bool_decide (n ∈ ns)) eqn:Hn; [reflexivity |].
    unfold hasNumber at 2.
    destruct (Nat.eqb_spec (pageNumber p) n) as [Heq | _]; [| reflexivity].
    rewrite Heq, Hn in Hp. discriminate.
  - cbn [List.filter]. rewrite IH.
    destruct (hasNumber n p) eqn:Hnum; [| reflexivity].
    apply Nat.eqb_eq in Hnum. rewrite <- Hnum, Hp. reflexivity.
Qed.

Lemma bulkDeleteBatches_lookup (ns : list nat) (bs : list TranslationBatch)
    (n : nat) :
  ownBatch bs ->
  allPagesMap (bulkDeleteBatches ns bs) !! n
  = if bool_decide (n ∈ ns) then None else allPagesMap bs !! n.
Proof.
  destruct bs as [|b [|b' bs]]; simpl; [| | tauto]; intros Hr;
    rewrite !allPagesMap_lookup; simpl.
  - destruct (bool_decide _); reflexivity.
  - rewrite Hr. simpl. rewrite !app_nil_r, filter_hasNumber_listed.
    destruct (bool_decide _); reflexivity.
Qed.

(** X26. A confirmed [Apagar Lote] deletes the same pages from the store
and from memory: the pages named in the dialog are the selected numbers
that have a translated page, at least one; afterwards the page map has
lost exactly these and still mirrors the store, and no selected number
has a page left. *)
Theorem confirmed_delete_keeps_sync (projectId : string)
    (pageNumbers : list nat) (db : Db.DB) (st st0 : Session.State) :
  ownBatch (Session.batches st) ->
  inSync projectId db (allPagesMap (Session.batches st)) ->
  Session.deleteBatchClicked st
  = (st0, Session.ConfirmDelete projectId pageNumbers) ->
  let r := Session.onConfirm (Session.ConfirmDelete projectId pageNumbers)
             db st in
  Session.activeProjectId st = Some projectId
  /\ pageNumbers <> []
  /\ (forall n : nat,
        n ∈ pageNumbers
        <-> n ∈ Session.selectedPages st
            /\ is_Some (allPagesMap (Session.batches st) !! n))
  /\ (forall n : nat,
        allPagesMap (Session.batches (snd r)) !! n
        = if bool_decide (n ∈ pageNumbers) then None
          else allPagesMap (Session.batches st) !! n)
  /\ inSync projectId (fst r) (allPagesMap (Session.batches (snd r)))
  /\ translatedInSelection (allPagesMap (Session.batches (snd r)))
       (Session.selectedPages (snd r)) = [].
Proof.
  intros Hown Hsync Hclick. cbv zeta. simpl.
  unfold Session.deleteBatchClicked in Hclick.
  destruct (Session.activeProjectId st) as [id|] eqn:Hid; [| discriminate].
  destruct (negb (nonEmpty id) || _); [discriminate |].
  cbv zeta in Hclick.
  destruct (Nat.eqb_spec
              (length (translatedInSelection
                         (allPagesMap (Session.batches st))
                         (Session.selectedPages st))) 0) as [| Hlen];
    [discriminate |].
  injection Hclick as _ <- <-.
  set (ns := translatedInSelection (allPagesMap (Session.batches st))
               (Session.selectedPages st)) in *.
  assert (Hns : forall n : nat,
            n ∈ ns
            <-> n ∈ Session.selectedPages st
                /\ is_Some (allPagesMap (Session.batches st) !! n)).
  { intros n. unfold ns, translatedInSelection.
    rewrite list_elem_of_In, List.filter_In, <- list_elem_of_In.
    rewrite bool_decide_eq_true. reflexivity. }
  split; [reflexivity |].
  split; [intros Hnil; rewrite Hnil in Hlen; apply Hlen; reflexivity |].
  split; [exact Hns |].
  split; [intros n; apply bulkDeleteBatches_lookup; exact Hown |].
  split.
  - intros n. rewrite bulkDeleteBatches_lookup by exact Hown.
    rewrite deletePagesFromProject_pages.
    destruct (bool_decide (n ∈ ns)) eqn:Hn.
    + apply bool_decide_eq_true in Hn.
      rewrite bool_decide_eq_true_2; [reflexivity |].
      apply list_elem_of_fmap. exists n. split; [reflexivity | exact Hn].
    + apply bool_decide_eq_false in Hn.
      rewrite bool_decide_eq_false_2; [apply Hsync |].
      intros Hin. apply list_elem_of_fmap in Hin as [n' [Heq Hn']].
      apply pageKey_eq in Heq as [_ ->]. contradiction.
  - apply filter_none. intros n Hn.
    apply bool_decide_eq_false. intros Hsome.
    rewrite bulkDeleteBatches_lookup in Hsome by exact Hown.
    unfold bulkDeleteSelected in Hn.
    apply list_elem_of_In, List.filter_In in Hn as [Hsel Hnl].
    apply list_elem_of_In in Hsel.
    unfold notListed in Hnl. apply negb_true_iff in Hnl.
    rewrite Hnl in Hsome. apply bool_decide_eq_false in Hnl.
    apply Hnl, Hns. split; assumption.
Qed.

End Sync.

Section PassSync.
Import App.
Variable env : Env.
Variable cfg : Config.
Variable projectId : string.

Lemma translatePage_inSync (pdf : Pdf) (n : nat) (w : World) :
  inSync projectId (store w) (localPages w) ->
  inSync projectId
    (store (snd (translatePage env cfg pdf projectId n w)))
    (localPages (snd (translatePage env cfg pdf projectId n w))).
Proof.
  intros Hsync.
  destruct (pdf n) as [p|] eqn:Hp.
  - rewrite (translatePage_run env cfg pdf projectId n p w Hp).
    set (segs := extractTextSegments (pageViewport p) (pageItems p)).
    set (w1 := record (CallExtractTextSegments n)
                 (record (CallGetPageImage n) w)).
    destruct (translate_frame env cfg n (List.map text segs) w1)
      as [Hst [_ [Hlp _]]].
    destruct (translate env cfg n (List.map text segs) w1) as [[tt_|e] w2];
      simpl in *.
    + intros k. rewrite Hst, Hlp. unfold Db.savePage.
      cbn [Db.pages Db.pageId pageNumber makeEntry].
      destruct (decide (n = k)) as [-> | Hne].
      * rewrite !lookup_insert_eq. reflexivity.
      * rewrite !lookup_insert_ne; [apply Hsync | | exact Hne].
        intros Heq. apply pageKey_eq in Heq as [_ Heq]. contradiction.
    + rewrite Hst, Hlp. exact Hsync.
  - rewrite (translatePage_no_page env cfg pdf projectId n w Hp). exact Hsync.
Qed.

Lemma forLoop_inSync (pdf : Pdf) (a s : nat) (w : World) :
  inSync projectId (store w) (localPages w) ->
  inSync projectId
    (store (snd (forLoop a s (translatePage env cfg pdf projectId) w)))
    (localPages (snd (forLoop a s (translatePage env cfg pdf projectId) w))).
Proof.
  revert s w. induction a as [|a IH]; intros s w Hsync; [exact Hsync |].
  rewrite forLoop_step.
  pose proof (translatePage_inSync pdf s w Hsync) as Hstep.
  destruct (translatePage env cfg pdf projectId s w) as [[[]|e] w'];
    simpl in Hstep.
  - apply IH. exact Hstep.
  - exact Hstep.
Qed.

(** X27. A translation pass keeps memory and store in step: if before
it the pages in memory are those the store holds for the active project,
so they are after it, whether every page went through, the pass was
cut short by an error, or it did not start at all. *)
Theorem pass_keeps_memory_in_sync (w : World) :
  activeProjectId cfg = Some projectId ->
  inSync projectId (store w) (localPages w) ->
  inSync projectId (store (snd (startTranslation env cfg w)))
    (localPages (snd (startTranslation env cfg w))).
Proof.
  intros Hproj Hsync.
  destruct (pdfInstance cfg) as [pdf0|] eqn:Hpdf;
    [| unfold startTranslation; rewrite Hpdf; exact Hsync].
  destruct (nonEmpty projectId) eqn:Hid;
    [| unfold startTranslation; rewrite Hpdf, Hproj, Hid; exact Hsync].
  destruct (useAI cfg && negb (hasStoredKey cfg)) eqn:Hgate;
    [unfold startTranslation; rewrite Hpdf, Hproj, Hid, Hgate;
     exact Hsync |].
  rewrite (startTranslation_run env cfg pdf0 projectId w Hpdf Hproj Hid
             Hgate).
  pose proof (forLoop_inSync pdf0
                (S (Nat.min (numPages cfg) (rangeEnd cfg))
                 - Nat.max 1 (rangeStart cfg))
                (Nat.max 1 (rangeStart cfg))
                (setIsProcessing true w) Hsync) as Hloop.
  destruct (forLoop _ _ _ _) as [[[]|e] w']; exact Hloop.
Qed.

End PassSync.

Section SyncExamples.
Import App.

Definition gridView : View :=
  {| viewMode := viewGrid; singlePageViewIndex_ := 0; viewAlerts := [];
     scrolledTo := None |}.

Lemma jumpToPage_shows_the_page_witness :
  let v' := jumpToPage (fun _ => false) [1; 3; 4]%nat 3 gridView in
  viewMode v' = viewSingle
  /\ visiblePageNumbers [1; 3; 4]%nat (viewMode v') 3
       (singlePageViewIndex_ v') = [3%nat]
  /\ viewAlerts v' = viewAlerts gridView.
Proof.
  apply (jumpToPage_shows_the_page (fun _ => false) [1; 3; 4]%nat 3
           gridView 3).
  - right. left.
  - discriminate.
  - discriminate.
Defined.

Lemma exampleDb_pagesKeyed : pagesKeyed exampleDb.
Proof.
  unfold exampleDb. do 2 apply pagesKeyed_savePage.
  intros k r Hl. simpl in Hl. rewrite lookup_empty in Hl. discriminate.
Qed.

Definition blankState : Session.State :=
  {| Session.activeProjectId := None; Session.numPages := 0;
     Session.batches := [];
     Session.inputLanguage := "English";
     Session.outputLanguage := "Português";
     Session.selectedPages := [];
     Session.rangeInput := ("1"%string, "5"%string);
     Session.visiblePagesCount := 3;
     Session.singlePageViewIndex := 0;
     Session.viewMode := viewSingle;
     Session.pdfInstance := None;
     Session.alerts := [] |}.

Lemma exampleDb_bookOne : Db.projects exampleDb !! "p1"%string = Some bookOne.
Proof.
  unfold exampleDb. simpl. rewrite lookup_insert_ne by discriminate.
  apply lookup_insert_eq.
Qed.

Lemma loadProject_mirrors_store_witness :
  exists st' : Session.State,
    Session.loadProject (fun _ => Returns twoPagePdf) "p1" exampleDb
      blankState = Returns st'
    /\ Session.activeProjectId st' = Some "p1"%string
    /\ Session.numPages st' = Db.projNumPages bookOne
    /\ ownBatch (Session.batches st')
    /\ inSync "p1" exampleDb (allPagesMap (Session.batches st'))
    /\ (forall n : nat,
          n ∈ Session.selectedPages st'
          <-> is_Some (allPagesMap (Session.batches st') !! n))
    /\ NoDup (Session.selectedPages st')
    /\ Session.viewMode st' = viewFeed
    /\ Session.singlePageViewIndex st' = 0%Z.
Proof.
  assert (Hload : exists st' : Session.State,
            Session.loadProject (fun _ => Returns twoPagePdf) "p1"
              exampleDb blankState = Returns st').
  { unfold Session.loadProject. cbv zeta.
    rewrite (find_project "p1" exampleDb exampleDb_keyed), exampleDb_bookOne.
    destruct (Db.getFile "p1" exampleDb); eexists; reflexivity. }
  destruct Hload as [st' Hload]. exists st'. split; [exact Hload |].
  exact (loadProject_mirrors_store (fun _ => Returns twoPagePdf) "p1"
           exampleDb bookOne blankState st' exampleDb_keyed
           exampleDb_pagesKeyed exampleDb_bookOne Hload).
Defined.

Lemma loadProject_after_delete_is_noop_witness :
  Session.loadProject (fun _ => Returns twoPagePdf) "p1"
    (Db.deleteProject "p1" exampleDb) blankState
  = Returns blankState.
Proof.
  exact (loadProject_after_delete_is_noop (fun _ => Returns twoPagePdf)
           "p1" exampleDb blankState exampleDb_keyed).
Defined.

Lemma inSync_empty (projectId : string) (db : Db.DB) :
  Db.pages db = ∅ -> inSync projectId db ∅.
Proof. intros Hdb n. rewrite Hdb, !lookup_empty. reflexivity. Qed.

Lemma inSync_savePage (projectId : string) (db : Db.DB)
    (m : gmap nat TranslatedPage) (e : TranslatedPage) :
  inSync projectId db m ->
  inSync projectId (Db.savePage projectId e db) (<[pageNumber e := e]> m).
Proof.
  intros Hsync k. unfold Db.savePage. cbn [Db.pages Db.pageId].
  destruct (decide (pageNumber e = k)) as [<- | Hne].
  - rewrite !lookup_insert_eq. reflexivity.
  - rewrite !lookup_insert_ne; [apply Hsync | | exact Hne].
    intros Heq. apply pageKey_eq in Heq as [_ Heq]. contradiction.
Qed.

(** Project [p1] with pages 3 and 1 translated, held in memory and in
the store; pages 1 and 2 are selected. *)
Definition twoPageStore : Db.DB :=
  Db.savePage "p1" (pageNumbered 1)
    (Db.savePage "p1" (pageNumbered 3) Db.emptyDB).

Definition twoPageState : Session.State :=
  {| Session.activeProjectId := Some "p1"%string; Session.numPages := 3;
     Session.batches := exampleBatches;
     Session.inputLanguage := "English";
     Session.outputLanguage := "Português";
     Session.selectedPages := [1; 2]%nat;
     Session.rangeInput := ("1"%string, "3"%string);
     Session.visiblePagesCount := 3;
     Session.singlePageViewIndex := 0;
     Session.viewMode := viewFeed;
     Session.pdfInstance := None;
     Session.alerts := [] |}.

Lemma twoPage_inSync :
  inSync "p1" twoPageStore (allPagesMap (Session.batches twoPageState)).
Proof.
  apply (inSync_savePage "p1" _ _ (pageNumbered 1)).
  apply (inSync_savePage "p1" _ _ (pageNumbered 3)).
  apply inSync_empty. reflexivity.
Qed.

Lemma twoPage_click :
  Session.deleteBatchClicked twoPageState
  = (twoPageState, Session.ConfirmDelete "p1" [1%nat]).
Proof.
  unfold Session.deleteBatchClicked, translatedInSelection. simpl.
  rewrite bool_decide_eq_true_2
    by (rewrite allPagesMap_lookup; simpl; eauto).
  rewrite bool_decide_eq_false_2
    by (rewrite allPagesMap_lookup; simpl; intros [x Hx]; discriminate).
  reflexivity.
Qed.

Lemma confirmed_delete_keeps_sync_witness :
  let r := Session.onConfirm (Session.ConfirmDelete "p1" [1%nat])
             twoPageStore twoPageState in
  Session.activeProjectId twoPageState = Some "p1"%string
  /\ [1%nat] <> []
  /\ (forall n : nat,
        n ∈ [1%nat]
        <-> n ∈ Session.selectedPages twoPageState
            /\ is_Some (allPagesMap (Session.batches twoPageState) !! n))
  /\ (forall n : nat,
        allPagesMap (Session.batches (snd r)) !! n
        = if bool_decide (n ∈ [1%nat]) then None
          else allPagesMap (Session.batches twoPageState) !! n)
  /\ inSync "p1" (fst r) (allPagesMap (Session.batches (snd r)))
  /\ translatedInSelection (allPagesMap (Session.batches (snd r)))
       (Session.selectedPages (snd r)) = [].
Proof.
  exact (confirmed_delete_keeps_sync "p1" [1%nat] twoPageStore twoPageState
           twoPageState eq_refl twoPage_inSync twoPage_click).
Defined.

Lemma pass_keeps_memory_in_sync_witness :
  inSync "p1"
    (store (snd (startTranslation offlineEnv (passConfig false) freshWorld)))
    (localPages
       (snd (startTranslation offlineEnv (passConfig false) freshWorld))).
Proof.
  exact (pass_keeps_memory_in_sync offlineEnv (passConfig false) "p1"
           freshWorld eq_refl (inSync_empty "p1" (store freshWorld) eq_refl)).
Defined.

End SyncExamples.

(** ** The application component: the translation editor *)

Module BatchEditor.

(** An entry of [batchEditingData]. *)
Record BatchItem := mkBatchItem {
  index : Z;
  text : jsstring;
  original : jsstring;
  initialTranslation : jsstring;
  selected : bool
}.

(** [seg.originalText || seg.text] *)
Definition originalOr (s : TextSegment) : jsstring :=
  match originalText s with
  | Some o => orElse o (PdfService.text s)
  | None => PdfService.text s
  end.

(** The callback of [selectedIndices.map]; [None] where
[page.segments[i]] is [undefined], whose [text] cannot be read. *)
Definition openItem (segs : list TextSegment) (i : Z) : option BatchItem :=
  match at_ segs i with
  | Some s =>
      Some {| index := i;
              text := PdfService.text s;
              original := originalOr s;
              initialTranslation := PdfService.text s;
              selected := true |}
  | None => None
  end.

(** What a handler of the editor leaves behind: it throws, or it ends
with a new value of the state it works on. *)
Inductive Handled (A : Type) :=
| HandlerThrows
| Done (a : A).
Arguments HandlerThrows {A}.
Arguments Done {A} a.

(** The click on the editor button, on [batchEditingData]. *)
Definition openEditor (pagesMap : gmap nat TranslatedPage)
    (activeEditPageNumber : nat) (selectedIndices : list Z)
    (batchEditingData : option (list BatchItem))
    : Handled (option (list BatchItem)) :=
  match pagesMap !! activeEditPageNumber with
  | Some page =>
      match segments page with
      | Some segs =>
          match mapM (openItem segs) selectedIndices with
          | Some items => Done (Some items)
          | None => HandlerThrows
          end
      | None => Done batchEditingData
      end
  | None => Done batchEditingData
  end.

Definition withText (item : BatchItem) (t : jsstring) : BatchItem :=
  {| index := index item; text := t; original := original item;
     initialTranslation := initialTranslation item;
     selected := selected item |}.

Definition withSelected (item : BatchItem) (b : bool) : BatchItem :=
  {| index := index item; text := text item; original := original item;
     initialTranslation := initialTranslation item; selected := b |}.

(** [Selecionar Todos] *)
Definition toggleAll (prev : list BatchItem) : list BatchItem :=
  let allSelected := forallb selected prev in
  List.map (fun item => withSelected item (negb allSelected)) prev.

(** [Restaurar Original] *)
Definition restoreOriginal (prev : list BatchItem) : list BatchItem :=
  List.map
    (fun item => if selected item then withText item (original item)
                 else item)
    prev.

(** [Restaurar Tradução] *)
Definition restoreTranslation (prev : list BatchItem) : list BatchItem :=
  List.map
    (fun item => if selected item
                 then withText item (initialTranslation item) else item)
    prev.

(** The tick box and the text area of the item rendered at position
[i]; the position is one of the list, [None] stands for any other. *)
Definition toggleItem (i : nat) (prev : list BatchItem)
    : option (list BatchItem) :=
  match prev !! i with
  | Some item => Some (<[i := withSelected item (negb (selected item))]> prev)
  | None => None
  end.

Definition editItem (i : nat) (value : jsstring) (prev : list BatchItem)
    : option (list BatchItem) :=
  match prev !! i with
  | Some item => Some (<[i := withText item value]> prev)
  | None => None
  end.

(** The handlers that change the open editor. *)
Inductive Action :=
| ToggleAll
| RestoreOriginal
| RestoreTranslation
| ToggleItem (i : nat)
| EditItem (i : nat) (value : jsstring).

Definition act (a : Action) (prev : list BatchItem)
    : option (list BatchItem) :=
  match a with
  | ToggleAll => Some (toggleAll prev)
  | RestoreOriginal => Some (restoreOriginal prev)
  | RestoreTranslation => Some (restoreTranslation prev)
  | ToggleItem i => toggleItem i prev
  | EditItem i value => editItem i value prev
  end.

Fixpoint actAll (l : list Action) (prev : list BatchItem)
    : option (list BatchItem) :=
  match l with
  | [] => Some prev
  | a :: l' =>
      match act a prev with
      | Some next => actAll l' next
      | None => None
      end
  end.

(** [seg.text = t] *)
Definition setText (s : TextSegment) (t : jsstring) : TextSegment :=
  {| PdfService.text := t;
     originalText := originalText s;
     segWidth := segWidth s; segHeight := segHeight s;
     fontSize := fontSize s;
     xRatio := xRatio s; yRatio := yRatio s;
     widthRatio := widthRatio s; heightRatio := heightRatio s;
     viewportWidth := viewportWidth s; viewportHeight := viewportHeight s;
     segFontName := segFontName s |}.

(** [newPage.segments[item.index].text = item.text]; [None] where the
segment is [undefined]. *)
Definition writeItem (segs : list TextSegment) (item : BatchItem)
    : option (list TextSegment) :=
  match at_ segs (index item) with
  | Some s => Some (<[Z.to_nat (index item) := setText s (text item)]> segs)
  | None => None
  end.

(** [batchEditingData.forEach(...)] *)
Fixpoint writeItems (segs : list TextSegment) (items : list BatchItem)
    : option (list TextSegment) :=
  match items with
  | [] => Some segs
  | item :: rest =>
      match writeItem segs item with
      | Some segs' => writeItems segs' rest
      | None => None
      end
  end.

Definition withSegments (page : TranslatedPage) (segs : list TextSegment)
    : TranslatedPage :=
  {| pageNumber := pageNumber page;
     pageOriginalText := pageOriginalText page;
     translatedHtml := translatedHtml page;
     imageData := imageData page;
     segments := Some segs;
     mode := mode page |}.

(** What [Salvar Alterações] works on and leaves: the store, the
batches, the editor and the selection. *)
Record Desk := mkDesk {
  deskStore : Db.DB;
  deskBatches : list TranslationBatch;
  batchEditingData : option (list BatchItem);
  deskSelection : SelectionState
}.

(** The click on [Salvar Alterações], with editor data [items], for the
active project [projectId]. [JSON.parse(JSON.stringify(page))] is a
copy of the page: a page holds strings, finite numbers and absent
fields only, which the round trip gives back as they are. *)
Definition saveEdits (projectId : string) (activeEditPageNumber : nat)
    (items : list BatchItem) (numPages : nat) (d : Desk) : Handled Desk :=
  match allPagesMap (deskBatches d) !! activeEditPageNumber with
  | Some page =>
      match segments page with
      | Some segs =>
          match writeItems segs items with
          | Some segs' =>
              let newPage := withSegments page segs' in
              Done
                {| deskStore := Db.savePage projectId newPage (deskStore d);
                   deskBatches :=
                     AppState.updateLocalState (pageNumber newPage)
                       (Some newPage) numPages (deskBatches d);
                   batchEditingData := None;
                   deskSelection := clearSelection |}
          | None => HandlerThrows
          end
      | None => Done d
      end
  | None => Done d
  end.

End BatchEditor.

Section Editor.

Definition targets (k : nat) (item : BatchEditor.BatchItem) : bool :=
  Z.eqb (BatchEditor.index item) (Z.of_nat k).

(** Two segments that differ at most in their text. *)
Definition sameLayout (s s' : TextSegment) : Prop :=
  exists t : jsstring, s' = BatchEditor.setText s t.

(** Two editor items for the same segment. *)
Definition sameOrigin (a b : BatchEditor.BatchItem) : Prop :=
  BatchEditor.index a = BatchEditor.index b
  /\ BatchEditor.original a = BatchEditor.original b
  /\ BatchEditor.initialTranslation a = BatchEditor.initialTranslation b.

(** The item was opened from segment [i] of [segs]. *)
Definition openedFrom (segs : list TextSegment) (i : Z)
    (item : BatchEditor.BatchItem) : Prop :=
  exists s : TextSegment,
    at_ segs i = Some s
    /\ BatchEditor.index item = i
    /\ BatchEditor.original item = BatchEditor.originalOr s
    /\ BatchEditor.initialTranslation item = PdfService.text s.

Lemma setText_same (s : TextSegment) :
  BatchEditor.setText s (PdfService.text s) = s.
Proof. destruct s; reflexivity. Qed.

Lemma at_nat {A : Type} (l : list A) (k : nat) : at_ l (Z.of_nat k) = l !! k.
Proof.
  unfold at_. destruct (Z.ltb_spec (Z.of_nat k) 0) as [Hneg | _]; [lia |].
  rewrite Nat2Z.id. reflexivity.
Qed.

Lemma at_Some {A : Type} (l : list A) (i : Z) (x : A) :
  at_ l i = Some x -> i = Z.of_nat (Z.to_nat i) /\ l !! Z.to_nat i = Some x.
Proof.
  unfold at_. destruct (Z.ltb_spec i 0) as [| Hpos]; [discriminate |].
  intros Hl. split; [lia | exact Hl].
Qed.

Lemma at_is_Some {A : Type} (l : list A) (i : Z) :
  is_Some (at_ l i) <-> (0 <= i < Z.of_nat (length l))%Z.
Proof.
  unfold at_. destruct (Z.ltb_spec i 0) as [Hneg | Hpos].
  - split; [intros [x Hx]; discriminate | lia].
  - rewrite lookup_lt_is_Some. lia.
Qed.

Lemma writeItem_lookup (segs segs1 : list TextSegment)
    (item : BatchEditor.BatchItem) :
  BatchEditor.writeItem segs item = Some segs1 ->
  length segs1 = length segs
  /\ forall (k : nat) (s : TextSegment),
       segs !! k = Some s ->
       segs1 !! k
       = Some (if targets k item
               then BatchEditor.setText s (BatchEditor.text item) else s).
Proof.
  unfold BatchEditor.writeItem.
  destruct (at_ segs (BatchEditor.index item)) as [s0|] eqn:Hat;
    [| discriminate].
  intros H. injection H as <-. apply at_Some in Hat as [Hi Hs0].
  split; [apply length_insert |].
  intros k s Hs. unfold targets.
  destruct (Z.eqb_spec (BatchEditor.index item) (Z.of_nat k)) as [Heq | Hne].
  - rewrite Heq, Nat2Z.id in *. rewrite Hs in Hs0. injection Hs0 as <-.
    apply list_lookup_insert_eq. eapply lookup_lt_Some. exact Hs.
  - rewrite list_lookup_insert_ne by lia. exact Hs.
Qed.

(** After the writes each segment carries the text of the last item
written to it, and is as before when no item was. *)
Lemma writeItems_lookup (items : list BatchEditor.BatchItem)
    (segs segs' : list TextSegment) :
  BatchEditor.writeItems segs items = Some segs' ->
  length segs' = length segs
  /\ forall (k : nat) (s : TextSegment),
       segs !! k = Some s ->
       segs' !! k
       = Some match last (List.filter (targets k) items) with
              | Some item => BatchEditor.setText s (BatchEditor.text item)
              | None => s
              end.
Proof.
  revert segs. induction items as [|item rest IH]; intros segs Hw.
  - injection Hw as <-. split; [reflexivity |]. intros k s Hs. exact Hs.
  - simpl in Hw.
    destruct (BatchEditor.writeItem segs item) as [segs1|] eqn:H1;
      [| discriminate].
    destruct (writeItem_lookup segs segs1 item H1) as [Hlen1 Hlk1].
    destruct (IH segs1 Hw) as [Hlen Hlk].
    split; [rewrite Hlen; exact Hlen1 |].
    intros k s Hs. rewrite (Hlk k _ (Hlk1 k s Hs)). f_equal.
    cbn [List.filter]. destruct (targets k item); [| reflexivity].
    rewrite (last_cons item).
    destruct (last (List.filter (targets k) rest)); reflexivity.
Qed.

Lemma writeItems_Some (items : list BatchEditor.BatchItem)
    (segs : list TextSegment) :
  Forall (fun item => is_Some (at_ segs (BatchEditor.index item))) items ->
  is_Some (BatchEditor.writeItems segs items).
Proof.
  revert segs. induction items as [|item rest IH]; intros segs Hall.
  - simpl. eauto.
  - apply Forall_cons in Hall as [[s Hs] Hrest]. simpl.
    unfold BatchEditor.writeItem. rewrite Hs. apply IH.
    eapply Forall_impl; [exact Hrest |]. simpl. intros it Hit.
    apply at_is_Some. apply at_is_Some in Hit.
    rewrite length_insert. exact Hit.
Qed.

Lemma sameOrigin_refl (a : BatchEditor.BatchItem) : sameOrigin a a.
Proof. repeat split. Qed.

Lemma sameOrigin_map (f : BatchEditor.BatchItem -> BatchEditor.BatchItem)
    (l : list BatchEditor.BatchItem) :
  (forall a, sameOrigin a (f a)) -> Forall2 sameOrigin l (List.map f l).
Proof.
  intros Hf. induction l as [|a l IH]; simpl; constructor; auto.
Qed.

Lemma sameOrigin_insert (l : list BatchEditor.BatchItem) (i : nat)
    (a b : BatchEditor.BatchItem) :
  l !! i = Some a -> sameOrigin a b -> Forall2 sameOrigin l (<[i := b]> l).
Proof.
  intros Hl Hab.
  rewrite <- (list_insert_id l i a Hl) at 1.
  apply Forall2_insert; [| exact Hab].
  apply Forall_Forall2_diag, Forall_forall. intros x _.
  apply sameOrigin_refl.
Qed.

Lemma act_sameOrigin (a : BatchEditor.Action)
    (prev next : list BatchEditor.BatchItem) :
  BatchEditor.act a prev = Some next -> Forall2 sameOrigin prev next.
Proof.
  destruct a as [| | |i|i value]; simpl.
  - intros H. injection H as <-. apply sameOrigin_map.
    intros x. repeat split.
  - intros H. injection H as <-. apply sameOrigin_map.
    intros x. destruct (BatchEditor.selected x); repeat split.
  - intros H. injection H as <-. apply sameOrigin_map.
    intros x. destruct (BatchEditor.selected x); repeat split.
  - unfold BatchEditor.toggleItem.
    destruct (prev !! i) as [item|] eqn:Hi; [| discriminate].
    intros H. injection H as <-.
    apply (sameOrigin_insert prev i item); [exact Hi | repeat split].
  - unfold BatchEditor.editItem.
    destruct (prev !! i) as [item|] eqn:Hi; [| discriminate].
    intros H. injection H as <-.
    apply (sameOrigin_insert prev i item); [exact Hi | repeat split].
Qed.

Lemma actAll_openedFrom (segs : list TextSegment) (sel : list Z)
    (actions : list BatchEditor.Action)
    (items0 items : list BatchEditor.BatchItem) :
  Forall2 (openedFrom segs) sel items0 ->
  BatchEditor.actAll actions items0 = Some items ->
  Forall2 (openedFrom segs) sel items.
Proof.
  revert items0. induction actions as [|a actions IH]; intros items0 H0 Hact.
  - injection Hact as <-. exact H0.
  - simpl in Hact.
    destruct (BatchEditor.act a items0) as [next|] eqn:Ha; [| discriminate].
    apply (IH next); [| exact Hact].
    eapply Forall2_trans; [| exact H0 | exact (act_sameOrigin _ _ _ Ha)].
    intros i x y [s [Hs [Hi [Ho Ht]]]] [Hxi [Hxo Hxt]].
    exists s. split; [exact Hs |].
    split; [rewrite <- Hxi; exact Hi |].
    split; [rewrite <- Hxo; exact Ho | rewrite <- Hxt; exact Ht].
Qed.

Lemma opened_openedFrom (segs : list TextSegment) (sel : list Z)
    (items0 : list BatchEditor.BatchItem) :
  mapM (BatchEditor.openItem segs) sel = Some items0 ->
  Forall2 (openedFrom segs) sel items0.
Proof.
  intros Hopen. apply mapM_Some in Hopen.
  eapply Forall2_impl; [exact Hopen |].
  intros i item. unfold BatchEditor.openItem.
  destruct (at_ segs i) as [s|] eqn:Hs; [| discriminate].
  intros H. injection H as <-. exists s. repeat split. exact Hs.
Qed.

Lemma restore_all_selected
    (f : BatchEditor.BatchItem -> jsstring)
    (items : list BatchEditor.BatchItem) :
  forallb BatchEditor.selected items = true ->
  List.map
    (fun item => if BatchEditor.selected item
                 then BatchEditor.withText item (f item) else item)
    items
  = List.map (fun item => BatchEditor.withText item (f item)) items.
Proof.
  induction items as [|a l IH]; [reflexivity |].
  simpl. intros H. apply andb_true_iff in H as [Ha Hl].
  rewrite Ha, (IH Hl). reflexivity.
Qed.

(** The items written after a restore, with every item ticked. *)
Lemma restored_items (segs : list TextSegment) (sel : list Z)
    (f : BatchEditor.BatchItem -> jsstring) (g : TextSegment -> jsstring)
    (items : list BatchEditor.BatchItem) :
  Forall2 (openedFrom segs) sel items ->
  (forall (i : Z) (item : BatchEditor.BatchItem) (s : TextSegment),
     openedFrom segs i item -> at_ segs i = Some s -> f item = g s) ->
  Forall2
    (fun i item =>
       exists s : TextSegment,
         at_ segs i = Some s /\ BatchEditor.index item = i
         /\ BatchEditor.text item = g s)
    sel (List.map (fun item => BatchEditor.withText item (f item)) items).
Proof.
  intros Hall Hfg. induction Hall as [|i item sel items Hi Hall IH]; simpl;
    constructor; [| exact IH].
  pose proof Hi as [s [Hs [Hidx Hrest]]].
  exists s. split; [exact Hs |]. split; [exact Hidx |]. simpl.
  apply (Hfg i); [exact Hi | exact Hs].
Qed.

Lemma written_texts (segs : list TextSegment) (sel : list Z)
    (g : TextSegment -> jsstring) (items : list BatchEditor.BatchItem) :
  Forall2
    (fun i item =>
       exists s : TextSegment,
         at_ segs i = Some s /\ BatchEditor.index item = i
         /\ BatchEditor.text item = g s)
    sel items ->
  exists segs' : list TextSegment,
    BatchEditor.writeItems segs items = Some segs'
    /\ length segs' = length segs
    /\ forall (k : nat) (s : TextSegment),
         segs !! k = Some s ->
         segs' !! k
         = Some (if bool_decide (Z.of_nat k ∈ sel)
                 then BatchEditor.setText s (g s) else s).
Proof.
  intros Hall.
  destruct (writeItems_Some items segs) as [segs' Hw].
  { apply Forall_forall. intros item Hin.
    apply list_elem_of_lookup in Hin as [j Hj].
    destruct (Forall2_lookup_r _ _ _ _ _ Hall Hj) as [i [_ [s [Hs [Hi _]]]]].
    rewrite Hi, Hs. eauto. }
  exists segs'. split; [exact Hw |].
  destruct (writeItems_lookup items segs segs' Hw) as [Hlen Hlk].
  split; [exact Hlen |]. intros k s Hs. rewrite (Hlk k s Hs). f_equal.
  destruct (last (List.filter (targets k) items)) as [item|] eqn:Hlast.
  - apply last_Some_elem_of in Hlast.
    apply list_elem_of_In, List.filter_In in Hlast as [Hin Hk].
    apply list_elem_of_In, list_elem_of_lookup in Hin as [j Hj].
    destruct (Forall2_lookup_r _ _ _ _ _ Hall Hj)
      as [i [Hseli [s1 [Hs1 [Hi Htext]]]]].
    unfold targets in Hk. apply Z.eqb_eq in Hk.
    rewrite Hi in Hk. subst i. rewrite at_nat, Hs in Hs1.
    injection Hs1 as <-.
    rewrite bool_decide_eq_true_2
      by (eapply list_elem_of_lookup_2; exact Hseli).
    rewrite Htext. reflexivity.
  - rewrite bool_decide_eq_false_2; [reflexivity |].
    intros Hin. apply list_elem_of_lookup in Hin as [j Hj].
    destruct (Forall2_lookup_l _ _ _ _ _ Hall Hj)
      as [item [Hitem [s1 [_ [Hi _]]]]].
    assert (Hf : item ∈ List.filter (targets k) items).
    { apply list_elem_of_In, List.filter_In. split.
      - apply list_elem_of_In. eapply list_elem_of_lookup_2. exact Hitem.
      - unfold targets. rewrite Hi. apply Z.eqb_refl. }
    destruct (List.filter (targets k) items) as [|x l] eqn:Hfl;
      [inversion Hf |].
    rewrite last_cons in Hlast. destruct (last l); discriminate.
Qed.

Lemma writeItems_valid (items : list BatchEditor.BatchItem)
    (segs segs' : list TextSegment) :
  BatchEditor.writeItems segs items = Some segs' ->
  Forall (fun item => is_Some (at_ segs (BatchEditor.index item))) items.
Proof.
  revert segs. induction items as [|item rest IH]; intros segs Hw;
    [constructor |].
  simpl in Hw.
  destruct (BatchEditor.writeItem segs item) as [segs1|] eqn:H1;
    [| discriminate].
  destruct (writeItem_lookup segs segs1 item H1) as [Hlen1 _].
  constructor.
  - unfold BatchEditor.writeItem in H1.
    destruct (at_ segs (BatchEditor.index item)); [eauto | discriminate].
  - eapply Forall_impl; [exact (IH segs1 Hw) |]. simpl. intros it Hit.
    apply at_is_Some. apply at_is_Some in Hit. rewrite <- Hlen1. exact Hit.
Qed.

Lemma filter_targets_unique (items : list BatchEditor.BatchItem)
    (item : BatchEditor.BatchItem) (k : nat) :
  NoDup (BatchEditor.index <$> items) -> item ∈ items ->
  BatchEditor.index item = Z.of_nat k ->
  List.filter (targets k) items = [item].
Proof.
  intros Hnd Hin Hk. induction items as [|a l IH]; [inversion Hin |].
  rewrite fmap_cons in Hnd. apply NoDup_cons in Hnd as [Ha Hnd].
  cbn [List.filter]. unfold targets at 1.
  apply elem_of_cons in Hin as [<- | Hin].
  - rewrite Hk, Z.eqb_refl. f_equal. apply filter_none.
    intros x Hx. apply Z.eqb_neq. intros Heq. apply Ha.
    rewrite Hk, <- Heq. apply list_elem_of_fmap.
    exists x. split; [reflexivity | exact Hx].
  - destruct (Z.eqb_spec (BatchEditor.index a) (Z.of_nat k)) as [Heq | _].
    + exfalso. apply Ha. rewrite Heq, <- Hk. apply list_elem_of_fmap.
      exists item. split; [reflexivity | exact Hin].
    + apply IH; assumption.
Qed.

Lemma allPagesMap_number (bs : list TranslationBatch) (n : nat)
    (page : TranslatedPage) :
  allPagesMap bs !! n = Some page -> pageNumber page = n.
Proof.
  rewrite allPagesMap_lookup. intros Hp. apply last_Some_elem_of in Hp.
  apply list_elem_of_In, List.filter_In in Hp as [_ Hp].
  apply Nat.eqb_eq. exact Hp.
Qed.

Lemma withSegments_same (page : TranslatedPage) (segs : list TextSegment) :
  segments page = Some segs -> BatchEditor.withSegments page segs = page.
Proof. destruct page. simpl. intros ->. reflexivity. Qed.

(** X28. [Salvar Alterações] changes texts only. When it completes for a
page that is in memory, one new page is written both to the store and
to the page map under the same number; it has as many segments as
before, each differing from the old one at most in its text and not at
all unless an editor item names its index; with items of distinct
indices each named segment carries its item's text. The editor is
closed, the selection cleared, and memory and store agree afterwards if
they did before. *)
Theorem saveEdits_changes_only_texts (projectId : string) (n : nat)
    (items : list BatchEditor.BatchItem) (numPages : nat)
    (d d' : BatchEditor.Desk) (page : TranslatedPage)
    (segs : list TextSegment) :
  ownBatch (BatchEditor.deskBatches d) ->
  allPagesMap (BatchEditor.deskBatches d) !! n = Some page ->
  segments page = Some segs ->
  BatchEditor.saveEdits projectId n items numPages d = BatchEditor.Done d' ->
  exists segs' : list TextSegment,
    let page' := BatchEditor.withSegments page segs' in
    BatchEditor.deskStore d'
    = Db.savePage projectId page' (BatchEditor.deskStore d)
    /\ allPagesMap (BatchEditor.deskBatches d')
       = <[n := page']> (allPagesMap (BatchEditor.deskBatches d))
    /\ pageNumber page' = n
    /\ length segs' = length segs
    /\ (forall (k : nat) (s : TextSegment),
          segs !! k = Some s ->
          exists s' : TextSegment,
            segs' !! k = Some s' /\ sameLayout s s'
            /\ (Z.of_nat k ∉ BatchEditor.index <$> items -> s' = s))
    /\ (NoDup (BatchEditor.index <$> items) ->
        forall item : BatchEditor.BatchItem,
          item ∈ items ->
          PdfService.text <$> at_ segs' (BatchEditor.index item)
          = Some (BatchEditor.text item))
    /\ BatchEditor.batchEditingData d' = None
    /\ BatchEditor.deskSelection d' = clearSelection
    /\ (inSync projectId (BatchEditor.deskStore d)
          (allPagesMap (BatchEditor.deskBatches d)) ->
        inSync projectId (BatchEditor.deskStore d')
          (allPagesMap (BatchEditor.deskBatches d'))).
Proof.
  intros Hown Hpage Hsegs Hsave.
  pose proof (allPagesMap_number _ _ _ Hpage) as Hnum.
  unfold BatchEditor.saveEdits in Hsave. rewrite Hpage, Hsegs in Hsave.
  destruct (BatchEditor.writeItems segs items) as [segs'|] eqn:Hw;
    [| discriminate].
  cbv zeta in Hsave. injection Hsave as <-. exists segs'. cbv zeta.
  cbn [BatchEditor.deskStore BatchEditor.deskBatches
       BatchEditor.batchEditingData BatchEditor.deskSelection].
  destruct (writeItems_lookup items segs segs' Hw) as [Hlen Hlk].
  change (pageNumber (BatchEditor.withSegments page segs'))
    with (pageNumber page).
  rewrite Hnum.
  destruct (updateLocalState_map n
              (Some (BatchEditor.withSegments page segs')) numPages
              (BatchEditor.deskBatches d) Hown) as [_ Hmap].
  { intros e He. injection He as <-. exact Hnum. }
  split; [reflexivity |]. split; [exact Hmap |]. split; [reflexivity |].
  split; [exact Hlen |]. split; [| split; [| split; [| split]]].
  - intros k s Hs. eexists. split; [apply Hlk; exact Hs |]. split.
    + destruct (last _); [eexists; reflexivity |].
      exists (PdfService.text s). symmetry. apply setText_same.
    + intros Hnot.
      destruct (last (List.filter (targets k) items)) as [item|] eqn:Hlast;
        [| reflexivity].
      exfalso. apply Hnot. apply last_Some_elem_of in Hlast.
      apply list_elem_of_In, List.filter_In in Hlast as [Hin Hk].
      apply Z.eqb_eq in Hk. rewrite <- Hk. apply list_elem_of_fmap.
      exists item. split; [reflexivity | apply list_elem_of_In; exact Hin].
  - intros Hnd item Hin.
    pose proof (writeItems_valid items segs segs' Hw) as Hvalid.
    rewrite Forall_forall in Hvalid.
    destruct (Hvalid item Hin) as [s Hs].
    apply at_Some in Hs as [Hidx Hs]. rewrite Hidx, at_nat.
    rewrite (Hlk _ s Hs).
    rewrite (filter_targets_unique items item _ Hnd Hin Hidx).
    reflexivity.
  - reflexivity.
  - reflexivity.
  - intros Hsync. rewrite Hmap.
    pose proof (inSync_savePage projectId (BatchEditor.deskStore d)
                  (allPagesMap (BatchEditor.deskBatches d))
                  (BatchEditor.withSegments page segs') Hsync) as Hs.
    change (pageNumber (BatchEditor.withSegments page segs'))
      with (pageNumber page) in Hs.
    rewrite Hnum in Hs. exact Hs.
Qed.

(** X29. Whatever was ticked, unticked, typed or restored in the
editor since it was opened, [Restaurar Tradução] with every item ticked
followed by [Salvar Alterações] saves the page as it was: the save
completes, the page map is unchanged and the store receives the page
itself. *)
Theorem restore_translation_undoes_edits (projectId : string) (n : nat)
    (sel : list Z) (actions : list BatchEditor.Action)
    (items0 items : list BatchEditor.BatchItem) (numPages : nat)
    (d : BatchEditor.Desk) (page : TranslatedPage) :
  ownBatch (BatchEditor.deskBatches d) ->
  allPagesMap (BatchEditor.deskBatches d) !! n = Some page ->
  BatchEditor.openEditor (allPagesMap (BatchEditor.deskBatches d)) n sel None
  = BatchEditor.Done (Some items0) ->
  BatchEditor.actAll actions items0 = Some items ->
  forallb BatchEditor.selected items = true ->
  exists d' : BatchEditor.Desk,
    BatchEditor.saveEdits projectId n (BatchEditor.restoreTranslation items)
      numPages d = BatchEditor.Done d'
    /\ allPagesMap (BatchEditor.deskBatches d')
       = allPagesMap (BatchEditor.deskBatches d)
    /\ BatchEditor.deskStore d'
       = Db.savePage projectId page (BatchEditor.deskStore d).
Proof.
  intros Hown Hpage Hopen Hact Hall.
  pose proof (allPagesMap_number _ _ _ Hpage) as Hnum.
  unfold BatchEditor.openEditor in Hopen. rewrite Hpage in Hopen.
  destruct (segments page) as [segs|] eqn:Hsegs; [| discriminate].
  destruct (mapM (BatchEditor.openItem segs) sel) as [its|] eqn:Hmap;
    [| discriminate].
  injection Hopen as ->.
  pose proof (actAll_openedFrom segs sel actions items0 items
                (opened_openedFrom segs sel items0 Hmap) Hact) as Hfrom.
  destruct (written_texts segs sel PdfService.text
              (List.map
                 (fun item =>
                    BatchEditor.withText item
                      (BatchEditor.initialTranslation item)) items))
    as [segs' [Hw [Hlen Hlk]]].
  { apply restored_items; [exact Hfrom |].
    intros i item s [s1 [Hs1 [_ [_ Ht]]]] Hs.
    rewrite Hs in Hs1. injection Hs1 as <-. exact Ht. }
  assert (Hsame : segs' = segs).
  { apply list_eq_same_length with (length segs); [reflexivity | exact Hlen |].
    intros k x y _ Hx Hy. rewrite (Hlk k y Hy) in Hx.
    rewrite setText_same in Hx.
    destruct (bool_decide _); congruence. }
  subst segs'.
  unfold BatchEditor.saveEdits, BatchEditor.restoreTranslation.
  rewrite Hpage, Hsegs, (restore_all_selected _ items Hall), Hw.
  cbv zeta. rewrite (withSegments_same page segs Hsegs).
  eexists. split; [reflexivity |].
  cbn [BatchEditor.deskStore BatchEditor.deskBatches]. split; [| reflexivity].
  destruct (updateLocalState_map (pageNumber page) (Some page) numPages
              (BatchEditor.deskBatches d) Hown) as [_ Hupd].
  { intros e He. injection He as <-. reflexivity. }
  rewrite Hupd, Hnum. apply insert_id. exact Hpage.
Qed.

Lemma extracted_text_nonempty (viewport : Viewport) (its : list TextItem)
    (s0 : TextSegment) :
  s0 ∈ extractTextSegments viewport its -> PdfService.text s0 <> [].
Proof.
  unfold extractTextSegments. intros Hin.
  apply list_elem_of_In, List.in_map_iff in Hin as [it [<- Hit]].
  apply List.filter_In in Hit as [_ Hkeep].
  unfold keepItem in Hkeep. apply andb_true_iff in Hkeep as [Htruthy _].
  simpl. destruct (str it); [discriminate | discriminate].
Qed.

(** X30. For a page as the pass builds it from the text items of a PDF
page, [Restaurar Original] with every item ticked followed by the
writes of [Salvar Alterações] gives every segment opened in the editor
the string of its PDF item as text, whatever was typed in between, and
leaves the other segments with their translated text. *)
Theorem restore_original_gives_source_text (viewport : Viewport)
    (its : list TextItem) (translatedTexts : list jsstring)
    (sel : list Z) (actions : list BatchEditor.Action)
    (items0 items : list BatchEditor.BatchItem) :
  let segs0 := extractTextSegments viewport its in
  let segs := App.mergeSegments segs0 translatedTexts in
  mapM (BatchEditor.openItem segs) sel = Some items0 ->
  BatchEditor.actAll actions items0 = Some items ->
  forallb BatchEditor.selected items = true ->
  exists segs' : list TextSegment,
    BatchEditor.writeItems segs (BatchEditor.restoreOriginal items)
    = Some segs'
    /\ length segs' = length segs0
    /\ forall (k : nat) (s0 : TextSegment),
         segs0 !! k = Some s0 ->
         segs' !! k
         = Some (if bool_decide (Z.of_nat k ∈ sel)
                 then BatchEditor.setText
                        (App.mergeSegment translatedTexts k s0)
                        (PdfService.text s0)
                 else App.mergeSegment translatedTexts k s0).
Proof.
  intros segs0 segs Hmap Hact Hall.
  pose proof (actAll_openedFrom segs sel actions items0 items
                (opened_openedFrom segs sel items0 Hmap) Hact) as Hfrom.
  destruct (written_texts segs sel BatchEditor.originalOr
              (List.map
                 (fun item =>
                    BatchEditor.withText item (BatchEditor.original item))
                 items))
    as [segs' [Hw [Hlen Hlk]]].
  { apply restored_items; [exact Hfrom |].
    intros i item s [s1 [Hs1 [_ [Ho _]]]] Hs.
    rewrite Hs in Hs1. injection Hs1 as <-. exact Ho. }
  exists segs'. unfold BatchEditor.restoreOriginal.
  rewrite (restore_all_selected _ items Hall). split; [exact Hw |].
  split.
  { rewrite Hlen. unfold segs, App.mergeSegments. apply length_imap. }
  intros k s0 Hs0.
  assert (Hs : segs !! k = Some (App.mergeSegment translatedTexts k s0)).
  { unfold segs. rewrite mergeSegments_lookup, Hs0. reflexivity. }
  rewrite (Hlk k _ Hs). f_equal.
  destruct (bool_decide (Z.of_nat k ∈ sel)); [| reflexivity].
  f_equal. unfold BatchEditor.originalOr. simpl.
  apply orElse_nonempty.
  apply (extracted_text_nonempty viewport its).
  eapply list_elem_of_lookup_2. exact Hs0.
Qed.

End Editor.

Section EditorExamples.

(** Page 1 of the example batches, with its one segment [Hello] opened
in the editor. *)
Definition exampleDesk : BatchEditor.Desk :=
  {| BatchEditor.deskStore := twoPageStore;
     BatchEditor.deskBatches := exampleBatches;
     BatchEditor.batchEditingData := None;
     BatchEditor.deskSelection :=
       {| activeEditPageNumber := Some 1%nat;
          appSelectedIndices := [0%Z] |} |}.

Definition editorItem (t : jsstring) : BatchEditor.BatchItem :=
  {| BatchEditor.index := 0; BatchEditor.text := t;
     BatchEditor.original := js "Hello";
     BatchEditor.initialTranslation := js "Hello";
     BatchEditor.selected := true |}.

Lemma exampleDesk_page :
  allPagesMap (BatchEditor.deskBatches exampleDesk) !! 1%nat
  = Some (pageNumbered 1).
Proof. rewrite allPagesMap_lookup. reflexivity. Qed.

Lemma exampleDesk_inSync :
  inSync "p1" (BatchEditor.deskStore exampleDesk)
    (allPagesMap (BatchEditor.deskBatches exampleDesk)).
Proof. exact twoPage_inSync. Qed.

Lemma saveEdits_changes_only_texts_witness :
  exists (d' : BatchEditor.Desk) (segs' : list TextSegment),
    BatchEditor.saveEdits "p1" 1 [editorItem (js "Salut")] 3 exampleDesk
    = BatchEditor.Done d'
    /\ BatchEditor.deskStore d'
       = Db.savePage "p1"
           (BatchEditor.withSegments (pageNumbered 1) segs')
           (BatchEditor.deskStore exampleDesk)
    /\ allPagesMap (BatchEditor.deskBatches d')
       = <[1%nat := BatchEditor.withSegments (pageNumbered 1) segs']>
           (allPagesMap (BatchEditor.deskBatches exampleDesk))
    /\ length segs' = 1%nat
    /\ PdfService.text <$> at_ segs' 0 = Some (js "Salut")
    /\ inSync "p1" (BatchEditor.deskStore d')
         (allPagesMap (BatchEditor.deskBatches d')).
Proof.
  assert (Hsave : exists d' : BatchEditor.Desk,
            BatchEditor.saveEdits "p1" 1 [editorItem (js "Salut")] 3
              exampleDesk = BatchEditor.Done d').
  { unfold BatchEditor.saveEdits. rewrite exampleDesk_page.
    eexists. reflexivity. }
  destruct Hsave as [d' Hsave]. exists d'.
  destruct (saveEdits_changes_only_texts "p1" 1 [editorItem (js "Salut")] 3
              exampleDesk d' (pageNumbered 1) [exampleSegment]
              eq_refl exampleDesk_page eq_refl Hsave)
    as [segs' [Hst [Hmap [_ [Hlen [_ [Htext [_ [_ Hsync]]]]]]]]].
  exists segs'. split; [exact Hsave |]. split; [exact Hst |].
  split; [exact Hmap |]. split; [exact Hlen |]. split.
  - apply (Htext (NoDup_singleton 0%Z) (editorItem (js "Salut"))). left.
  - exact (Hsync exampleDesk_inSync).
Defined.

Lemma restore_translation_undoes_edits_witness :
  exists d' : BatchEditor.Desk,
    BatchEditor.saveEdits "p1" 1
      (BatchEditor.restoreTranslation [editorItem (js "Salut")]) 3
      exampleDesk = BatchEditor.Done d'
    /\ allPagesMap (BatchEditor.deskBatches d')
       = allPagesMap (BatchEditor.deskBatches exampleDesk)
    /\ BatchEditor.deskStore d'
       = Db.savePage "p1" (pageNumbered 1)
           (BatchEditor.deskStore exampleDesk).
Proof.
  apply (restore_translation_undoes_edits "p1" 1 [0%Z]
           [BatchEditor.EditItem 0 (js "Salut"); BatchEditor.ToggleItem 0;
            BatchEditor.ToggleAll]
           [editorItem (js "Hello")] [editorItem (js "Salut")] 3
           exampleDesk (pageNumbered 1)).
  - reflexivity.
  - exact exampleDesk_page.
  - unfold BatchEditor.openEditor. rewrite exampleDesk_page. reflexivity.
  - reflexivity.
  - reflexivity.
Defined.

Lemma restore_original_gives_source_text_witness :
  let segs0 := extractTextSegments letterViewport [onPageItem] in
  let segs := App.mergeSegments segs0 [js "y"] in
  let typed :=
    [ {| BatchEditor.index := 0; BatchEditor.text := js "z";
         BatchEditor.original := js "x";
         BatchEditor.initialTranslation := js "y";
         BatchEditor.selected := true |} ] in
  exists segs' : list TextSegment,
    BatchEditor.writeItems segs (BatchEditor.restoreOriginal typed)
    = Some segs'
    /\ length segs' = length segs0
    /\ forall (k : nat) (s0 : TextSegment),
         segs0 !! k = Some s0 ->
         segs' !! k
         = Some (if bool_decide (Z.of_nat k ∈ [0%Z])
                 then BatchEditor.setText (App.mergeSegment [js "y"] k s0)
                        (PdfService.text s0)
                 else App.mergeSegment [js "y"] k s0).
Proof.
  exact (restore_original_gives_source_text letterViewport [onPageItem]
           [js "y"] [0%Z] [BatchEditor.EditItem 0 (js "z")]
           [ {| BatchEditor.index := 0; BatchEditor.text := js "y";
                BatchEditor.original := js "x";
                BatchEditor.initialTranslation := js "y";
                BatchEditor.selected := true |} ]
           _ eq_refl eq_refl eq_refl).
Defined.

End EditorExamples.
